(** * Director dashboard: bounded live feeds, score series, markup escaping
      and the debug drawer

    A shallow embedding of the dashboard scripts [ui/script.js], its older
    variant (the second front-end entry point) and [ui/drawer_controller.js].

    - JavaScript arrays are lists ([push] appends at the end, [shift] drops
      the head).  Strings are [string], one character per code unit; the
      code units are those below 256, so a surrogate is not among them.
    - The document is the tree of its nodes.  [document.getElementById]
      searches the whole tree, in tree order, and returns the first element
      carrying the id, wherever it stands and whoever put it there; what it
      returns is kept as the position of that element.
    - A field of a payload that a handler calls a method of is optional: an
      event can come without it, and the call then throws.  A handler that
      throws leaves the state as it is at the throw.
    - Every socket handler is a function from the page state to the page
      state; the handlers run to completion one after the other, as the
      browser's event loop runs them.
    - Scroll positions and inline styles are presentation only and are left
      out of the state. *)

From stdpp Require Import base list strings gmap.
From Stdlib Require Import Ascii QArith Qabs DecimalString DecimalN DecimalPos.

Local Open Scope Z_scope.

(** ** JavaScript values *)

Module JS.

(** [Array.prototype.push], [Array.prototype.shift] and the assignment
    [a[a.length - 1] = x]. *)
Definition push {A} (a : list A) (x : A) : list A := a ++ [x].

Definition shift {A} (a : list A) : list A := drop 1 a.

Definition set_last {A} (a : list A) (x : A) : list A :=
  <[pred (length a) := x]> a.

(** The array's [length] property, a JavaScript number. *)
Definition len {A} (a : list A) : Z := Z.of_nat (length a).

(** [Array.prototype.join]. *)
Fixpoint join (sep : string) (a : list string) : string :=
  match a with
  | [] => ""
  | [x] => x
  | x :: rest => x +:+ sep +:+ join sep rest
  end.

(** Truthiness of a string: every string but the empty one. *)
Definition truthy (s : string) : bool := negb (String.eqb s "").

(** [o || d] for an optional string field: a missing field and the empty
    string both give the default. *)
Definition or_else (o : option string) (d : string) : string :=
  match o with
  | Some s => if truthy s then s else d
  | None => d
  end.

(** A template substitution of an optional string: a missing field is
    [undefined] and prints as such. *)
Definition interpolate (o : option string) : string :=
  match o with
  | Some s => s
  | None => "undefined"
  end.

(** A string without its first [n] characters. *)
Fixpoint dropChars (n : nat) (s : string) : string :=
  match n, s with
  | O, _ => s
  | S _, "" => ""
  | S k, String _ rest => dropChars k rest
  end.

(** Numbers.  A finite double is the rational it denotes. *)
Inductive number :=
| Finite (x : Q)
| NaN
| Infinity (negative : bool).

Definition Qlt_bool (x y : Q) : bool := negb (Qle_bool y x).

(** The hundredths of [toFixed(2)]: the integer [n] for which [n / 100]
    is closest to [x], the larger one of two (for [0 <= x]). *)
Definition hundredths (x : Q) : Z :=
  (200 * Qnum x + Z.pos (Qden x)) / (2 * Z.pos (Qden x)).

Definition digits (n : Z) : string :=
  NilZero.string_of_uint (N.to_uint (Z.to_N n)).

Fixpoint zeros (k : nat) : string :=
  match k with
  | O => ""
  | S k' => "0" +:+ zeros k'
  end.

(** Steps 10.c and 10.d of [Number.prototype.toFixed] for two fraction
    digits: pad to three digits, then put the point before the last two. *)
Definition padded (n : Z) : string :=
  let m := digits n in
  if decide (String.length m <= 2)%nat
  then zeros (3 - String.length m) +:+ m else m.

Definition fixed2 (n : Z) : string :=
  let m := padded n in
  let k := String.length m in
  String.substring 0 (k - 2) m +:+ "." +:+ String.substring (k - 2) 2 m.

(** Reading a string of [fixed2] back: the hundredths it writes. *)
Fixpoint removePoint (s : string) : string :=
  match s with
  | "" => ""
  | String c rest =>
      if Ascii.eqb c "." then removePoint rest else String c (removePoint rest)
  end.

Definition readFixed2 (s : string) : option Z :=
  match NilEmpty.uint_of_string (removePoint s) with
  | Some d => Some (Z.of_N (N.of_uint d))
  | None => None
  end.

Section ToFixed.

(** [Number::toString] of a double of magnitude [10^21] or more, which
    [toFixed] falls back to; its digits are the engine's. *)
Variable exponential : Q -> string.

Definition toFixed2 (v : number) : string :=
  match v with
  | NaN => "NaN"
  | Infinity false => "Infinity"
  | Infinity true => "-Infinity"
  | Finite x =>
      let s := if Qlt_bool x 0 then "-" else "" in
      let x := if Qlt_bool x 0 then (- x)%Q else x in
      if Qle_bool (10 ^ 21) x
      then s +:+ exponential x
      else s +:+ fixed2 (hundredths x)
  end.

End ToFixed.

End JS.

(** ** The document *)

Module DOM.

(** What the scripts read and write of an element itself. *)
Record Attributes := {
  tagName : string;
  id : option string;
  classList : list string
}.

(** A node, with the nodes below it. *)
Local Unset Elimination Schemes.

Inductive Node :=
| Text (data : string)
| Elem (a : Attributes) (children : list Node).

Local Set Elimination Schemes.

(** The nodes of the page, in tree order. *)
Abbreviation Document := (list Node).

Definition isElement (n : Node) : bool :=
  match n with
  | Elem _ _ => true
  | Text _ => false
  end.

Definition childNodes (n : Node) : list Node :=
  match n with
  | Elem _ children => children
  | Text _ => []
  end.

(** [element.children]: the element children only, text nodes do not
    count; and its [length]. *)
Definition elementChildren (children : list Node) : list Node :=
  filter (λ n, isElement n = true) children.

Definition childElementCount (children : list Node) : Z :=
  Z.of_nat (length (elementChildren children)).

(** [document.createElement('div')]. *)
Definition createDiv : Node :=
  Elem {| tagName := "div"; id := None; classList := [] |} [].

(** [e.classList.add(token)]. *)
Definition classList_add (token : string) (n : Node) : Node :=
  match n with
  | Text _ => n
  | Elem a children =>
      Elem {| tagName := tagName a; id := id a;
              classList := if decide (token ∈ classList a) then classList a
                           else classList a ++ [token] |}
           children
  end.

Definition set_childNodes (children : list Node) (n : Node) : Node :=
  match n with
  | Text _ => n
  | Elem a _ => Elem a children
  end.

(** [e.textContent = s]: the children become the one text node, or none
    for the empty string. *)
Definition set_textContent (s : string) (n : Node) : Node :=
  set_childNodes (if JS.truthy s then [Text s] else []) n.

Definition set_id (i : string) (n : Node) : Node :=
  match n with
  | Text _ => n
  | Elem a children =>
      Elem {| tagName := tagName a; id := Some i; classList := classList a |}
           children
  end.

(** [e.className = c] for a class string of one name. *)
Definition set_className (c : string) (n : Node) : Node :=
  match n with
  | Text _ => n
  | Elem a children =>
      Elem {| tagName := tagName a; id := id a; classList := [c] |} children
  end.

Definition appendChild (child : Node) (n : Node) : Node :=
  set_childNodes (childNodes n ++ [child]) n.

(** [e.textContent]: the text of the text nodes below, in tree order. *)
Fixpoint textContent (n : Node) : string :=
  match n with
  | Text data => data
  | Elem _ children =>
      (fix below (l : list Node) : string :=
         match l with
         | [] => ""
         | m :: rest => textContent m +:+ below rest
         end) children
  end.

Definition idOf (n : Node) : option string :=
  match n with
  | Elem a _ => id a
  | Text _ => None
  end.

Definition hasId (i : string) (n : Node) : bool :=
  bool_decide (idOf n = Some i).

(** The position of the first of the given nodes that carries the id,
    among these nodes themselves. *)
Fixpoint indexOfId (i : string) (children : list Node) : option nat :=
  match children with
  | [] => None
  | n :: rest =>
      if hasId i n then Some O else S <$> indexOfId i rest
  end.

(** A position in the tree: the index of a node among its siblings, after
    the positions of the elements above it, outermost first. *)
Definition Path : Type := list nat.

Definition next (p : Path) : Path :=
  match p with
  | [] => []
  | k :: below => S k :: below
  end.

(** The search of [document.getElementById]: the position of the first
    element that carries the id, in tree order, an element before what is
    below it and before what comes after it.  [pathIn] gives the position
    below the node, and nothing for the node itself. *)
Fixpoint pathIn (i : string) (n : Node) : option Path :=
  match n with
  | Text _ => None
  | Elem a children =>
      if bool_decide (id a = Some i) then Some []
      else
        (fix among (l : list Node) : option Path :=
           match l with
           | [] => None
           | m :: rest =>
               match pathIn i m with
               | Some p => Some (O :: p)
               | None => next <$> among rest
               end
           end) children
  end.

Fixpoint pathAmong (i : string) (l : list Node) : option Path :=
  match l with
  | [] => None
  | m :: rest =>
      match pathIn i m with
      | Some p => Some (O :: p)
      | None => next <$> pathAmong i rest
      end
  end.

(** The node at a position. *)
Fixpoint nodeAt (p : Path) (l : list Node) : option Node :=
  match p with
  | [] => None
  | k :: below =>
      match l !! k with
      | None => None
      | Some n =>
          match below with
          | [] => Some n
          | _ :: _ => nodeAt below (childNodes n)
          end
      end
  end.

(** What the search of a node returns: the node itself when the position
    is empty, and else the position of a node below it; the node there
    carries the id. *)
Definition foundIn (i : string) (n : Node) (p : Path) : Prop :=
  match p with
  | [] => hasId i n = true
  | _ :: _ => exists m, nodeAt p (childNodes n) = Some m /\ hasId i m = true
  end.

(** A change of the node at a position; the nodes around it stay. *)
Fixpoint updateAt (p : Path) (f : Node -> Node) (l : list Node) : list Node :=
  match p with
  | [] => l
  | k :: below =>
      alter (λ n, match below with
                  | [] => f n
                  | _ :: _ => set_childNodes (updateAt below f (childNodes n)) n
                  end) k l
  end.

(** A property of every node of a tree. *)
Fixpoint every (P : Node -> bool) (n : Node) : bool :=
  P n && match n with
         | Text _ => true
         | Elem _ children =>
             (fix all (l : list Node) : bool :=
                match l with
                | [] => true
                | m :: rest => every P m && all rest
                end) children
         end.

Fixpoint everyAmong (P : Node -> bool) (l : list Node) : bool :=
  match l with
  | [] => true
  | m :: rest => every P m && everyAmong P rest
  end.

(** The text of every element child, in order: what a log panel shows. *)
Definition texts (children : list Node) : list string :=
  omap (λ n, if isElement n then Some (textContent n) else None) children.

End DOM.
(** ** Markup: escaping, mention highlighting, URI components *)

Module Markup.

Import JS DOM.

Definition dq : string := String (Ascii.ascii_of_nat 34) "".
Definition nl : string := String (Ascii.ascii_of_nat 10) "".
Definition nbsp : ascii := Ascii.ascii_of_nat 160.

(** The HTML serialization of one character of a text node. *)
Definition escapeChar (c : ascii) : string :=
  if Ascii.eqb c "&" then "&amp;"
  else if Ascii.eqb c nbsp then "&nbsp;"
  else if Ascii.eqb c "<" then "&lt;"
  else if Ascii.eqb c ">" then "&gt;"
  else String c "".

Fixpoint escapeText (s : string) : string :=
  match s with
  | "" => ""
  | String c rest => escapeChar c +:+ escapeText rest
  end.

(** [e.innerHTML] of an element whose children are text nodes: the
    serialization of these text nodes (of no node for the empty text). *)
Definition innerHTML (e : Node) : string := escapeText (textContent e).

Definition sanitizeHTML (str : string) : string :=
  let temp := createDiv in
  let temp := set_textContent str temp in
  innerHTML temp.

(** The regular expression [/(nami|peepingnami)/gi].  Ignoring case
    compares upper-cased code units; the pattern is ASCII letters, which
    only an ASCII letter upper-cases to. *)
Definition upper (c : ascii) : ascii :=
  let n := Ascii.nat_of_ascii c in
  if ((97 <=? n) && (n <=? 122))%nat then Ascii.ascii_of_nat (n - 32) else c.

Fixpoint matchesAt (word s : string) : bool :=
  match word, s with
  | "", _ => true
  | String w word', String c s' =>
      Ascii.eqb (upper w) (upper c) && matchesAt word' s'
  | String _ _, "" => false
  end.

(** The length of the match starting at the head of [s]: the first
    alternative that matches wins. *)
Definition mentionAt (s : string) : option nat :=
  if matchesAt "nami" s then Some 4%nat
  else if matchesAt "peepingnami" s then Some 11%nat
  else None.

(** [regex.test(s)] on a fresh expression. *)
Fixpoint testMention (s : string) : bool :=
  match s with
  | "" => false
  | String c rest =>
      match mentionAt (String c rest) with
      | Some _ => true
      | None => testMention rest
      end
  end.

Definition highlightOpen : string :=
  "<span class=" +:+ dq +:+ "highlight-word" +:+ dq +:+ ">".
Definition highlightClose : string := "</span>".

(** [s.replace(regex, '<span class="highlight-word">$&</span>')] with the
    global flag: matches are taken left to right and do not overlap;
    [skip] counts the characters of the current match still to pass. *)
Fixpoint replaceMentions (skip : nat) (s : string) : string :=
  match s with
  | "" => ""
  | String c rest =>
      match skip with
      | S k => replaceMentions k rest
      | O =>
          match mentionAt (String c rest) with
          | Some n =>
              highlightOpen +:+ String.substring 0 n (String c rest)
              +:+ highlightClose +:+ replaceMentions (n - 1) rest
          | None => String c (replaceMentions 0 rest)
          end
      end
  end.

Definition highlightMentions (message : string) : string :=
  let sanitizedMessage := sanitizeHTML message in
  replaceMentions 0 sanitizedMessage.

(** [encodeURIComponent] on the strings here, of code units below 256:
    the unreserved characters stay, every other one becomes the [%XX] of
    its UTF-8 bytes.  The built-in throws a [URIError] on a surrogate
    without its pair and on nothing else; no string here holds a
    surrogate, so on these strings it returns. *)
Definition unreserved (c : ascii) : bool :=
  let n := Ascii.nat_of_ascii c in
  (((65 <=? n) && (n <=? 90)) || ((97 <=? n) && (n <=? 122))
   || ((48 <=? n) && (n <=? 57))
   || bool_decide (c ∈ ["-"; "_"; "."; "!"; "~"; "*"; "'"; "("; ")"]%char))%nat.

Definition hexDigit (n : nat) : ascii :=
  if (n <? 10)%nat then Ascii.ascii_of_nat (48 + n)
  else Ascii.ascii_of_nat (55 + n).

Definition percent (byte : nat) : string :=
  String "%" (String (hexDigit (byte / 16)) (String (hexDigit (byte mod 16)) "")).

Definition encodeChar (c : ascii) : string :=
  let n := Ascii.nat_of_ascii c in
  if unreserved c then String c ""
  else if (n <? 128)%nat then percent n
  else percent (192 + n / 64) +:+ percent (128 + n mod 64).

Fixpoint encodeURIComponent (s : string) : string :=
  match s with
  | "" => ""
  | String c rest => encodeChar c +:+ encodeURIComponent rest
  end.

(** *** What a browser shows of a fragment

    The text of a parsed fragment, for markup as the handlers build it:
    everything from a [<] to the next [>] is a tag and shows nothing, and in
    the text between tags the character references [&amp;], [&lt;], [&gt;]
    and [&nbsp;] show as the character they name. *)

Fixpoint contains (c : ascii) (s : string) : bool :=
  match s with
  | "" => false
  | String c' rest => Ascii.eqb c' c || contains c rest
  end.

Fixpoint stripTags (inTag : bool) (s : string) : string :=
  match s with
  | "" => ""
  | String c rest =>
      if inTag
      then stripTags (negb (Ascii.eqb c ">")) rest
      else if Ascii.eqb c "<" then stripTags true rest
      else String c (stripTags false rest)
  end.

Fixpoint startsWith (word s : string) : bool :=
  match word, s with
  | "", _ => true
  | String w word', String c s' => Ascii.eqb w c && startsWith word' s'
  | String _ _, "" => false
  end.

(** The character reference that starts after a [&], with the number of
    characters of its name and semicolon. *)
Definition entityAt (s : string) : option (ascii * nat) :=
  if startsWith "amp;" s then Some ("&"%char, 4%nat)
  else if startsWith "lt;" s then Some ("<"%char, 3%nat)
  else if startsWith "gt;" s then Some (">"%char, 3%nat)
  else if startsWith "nbsp;" s then Some (nbsp, 5%nat)
  else None.

(** [skip] counts the characters of the current reference still to pass. *)
Fixpoint decodeText (skip : nat) (s : string) : string :=
  match s with
  | "" => ""
  | String c rest =>
      match skip with
      | S k => decodeText k rest
      | O =>
          if Ascii.eqb c "&"
          then match entityAt rest with
               | Some (ch, n) => String ch (decodeText n rest)
               | None => String c (decodeText 0 rest)
               end
          else String c (decodeText 0 rest)
      end
  end.

Definition renderedText (html : string) : string :=
  decodeText 0 (stripTags false html).

End Markup.

(** ** [ui/script.js]: state, log helpers and socket handlers *)

Module Script.

Import JS DOM Markup.

Definition CHART_HISTORY_SIZE : Z := 50.
Definition MAX_LOG_LINES : Z := 100.
Definition MAX_PANEL_LINES : Z := 20.

(** The globals of the script and the document they render into.
    [interestChart] tells whether a chart object exists; the chart holds
    the two score arrays themselves, not copies, so what it draws on
    [update] is their content at that moment, recorded in [chartFrames]. *)
Record State := {
  visionLog : list string;
  spokenLog : list string;
  graphLog : list string;
  scoreLabels : list string;
  scoreData : list string;
  interestChart : bool;
  chartFrames : list (list string * list string);
  ChartLoaded : bool;
  document : Document
}.

(** The state when the script has been loaded into a page. *)
Definition init (chartLoaded : bool) (doc : Document) : State :=
  {| visionLog := []; spokenLog := []; graphLog := [];
     scoreLabels := []; scoreData := [];
     interestChart := false; chartFrames := [];
     ChartLoaded := chartLoaded; document := doc |}.

(** [document.getElementById(i)]: the position of the first element of
    the document that carries the id, or nothing; then the element there,
    and its child nodes. *)
Definition getElementById (doc : Document) (i : string) : option Path :=
  pathAmong i doc.

Definition elementById (doc : Document) (i : string) : option Node :=
  match getElementById doc i with
  | Some p => nodeAt p doc
  | None => None
  end.

Definition childNodesOf (doc : Document) (i : string) : option (list Node) :=
  childNodes <$> elementById doc i.

(** The two score arrays go together and stay within the chart history;
    every frame the chart has drawn had them at one length. *)
Definition synchronized (st : State) : Prop :=
  length (scoreLabels st) = length (scoreData st)
  /\ (length (scoreData st) <= Z.to_nat CHART_HISTORY_SIZE)%nat
  /\ Forall (λ frame, length frame.1 = length frame.2) (chartFrames st).

(** An element that carries the id of one of the two log elements holds
    at most [MAX_LOG_LINES] elements. *)
Definition withinLog (n : Node) : bool :=
  if hasId "twitch-messages" n || hasId "nami-replies" n
  then bool_decide (childElementCount (childNodes n) <= MAX_LOG_LINES)
  else true.

(** Every array is within its capacity, and so is every element of the
    page that carries the id of a log element. *)
Definition bounded (st : State) : Prop :=
  len (visionLog st) <= MAX_PANEL_LINES
  /\ len (spokenLog st) <= MAX_PANEL_LINES
  /\ len (scoreData st) <= CHART_HISTORY_SIZE
  /\ len (graphLog st) <= 10
  /\ everyAmong withinLog (document st) = true.

(** Inbound payloads.  The score and the text of a score event are the
    two fields that a handler calls a method of ([toFixed], [substring]):
    the score is there when the event carries a number, the text when it
    carries a string.  [source] is the string that the template writes for
    the field. *)
Record AudioContext := {
  audio_text : string;
  session_id : option string;
  is_partial : bool
}.

Record EventScored := {
  score : option number;
  source : string;
  text : option string
}.

Record TwitchMessage := {
  username : string;
  message : string
}.

Record BotReply := {
  reply : string;
  prompt : option string;
  is_censored : bool;
  censorship_reason : option string;
  filtered_area : option string
}.

(** *** Log helpers *)

(** One rendered line of an ambient panel. *)
Definition ambientDiv (itemClass : string) (text : string) : Node :=
  let div := createDiv in
  let div := set_textContent text div in
  if truthy itemClass then set_className itemClass div else div.

(** [updateAmbientLog], for a panel capacity [cap]; the script's own is
    the instance at [MAX_PANEL_LINES].  The array is the caller's: the
    new content of the array is returned with the new document. *)
Definition updateAmbientLogWith (cap : Z) (elementId : string)
    (logArray : list string) (newText : string) (itemClass : string)
    (isUpdate : bool) (doc : Document) : list string * Document :=
  match getElementById doc elementId with
  | None => (logArray, doc)
  | Some el =>
      let logArray :=
        if isUpdate && bool_decide (0 < len logArray)
        then set_last logArray newText
        else
          let pushed := push logArray newText in
          if bool_decide (cap < len pushed) then shift pushed else pushed in
      (logArray,
       updateAt el (set_childNodes (ambientDiv itemClass <$> logArray)) doc)
  end.

Definition updateAmbientLog := updateAmbientLogWith MAX_PANEL_LINES.

(** A run of appends, one after the other, on one panel. *)
Definition appendAll (cap : Z) (elementId itemClass : string)
    (texts : list string) (start : list string * Document)
    : list string * Document :=
  foldl (λ '(logArray, doc) newText,
           updateAmbientLogWith cap elementId logArray newText itemClass
                                false doc)
        start texts.

(** The [while] loop of [appendLog]: the first child, a text node or an
    element, goes as long as more than [MAX_LOG_LINES] element children
    remain. *)
Fixpoint removeOverflow (children : list Node) : list Node :=
  match children with
  | [] => []
  | n :: rest =>
      if bool_decide (MAX_LOG_LINES < childElementCount (n :: rest))
      then removeOverflow rest
      else n :: rest
  end.

Section Handlers.

(** The browser's parser of an HTML fragment, as
    [insertAdjacentHTML] runs it, and the engine's printing of large
    doubles. *)
Variable parseHTML : string -> list Node.
Variable exponential : Q -> string.

(** [appendLog(element, html)]; [element] is what the caller's
    [getElementById] returned. *)
Definition appendLog (element : option Path) (html : string)
    (doc : Document) : Document :=
  match element with
  | None => doc
  | Some el =>
      updateAt el
        (λ n, set_childNodes (removeOverflow (childNodes n ++ parseHTML html))
                             n)
        doc
  end.

(** *** Socket handlers *)

Definition vision_context (context : string) (st : State) : State :=
  let '(log, doc) :=
    updateAmbientLog "vision-context" (visionLog st) context "" false
                     (document st) in
  {| visionLog := log; spokenLog := spokenLog st; graphLog := graphLog st;
     scoreLabels := scoreLabels st; scoreData := scoreData st;
     interestChart := interestChart st; chartFrames := chartFrames st;
     ChartLoaded := ChartLoaded st; document := doc |}.

Definition spoken_word_context (context : string) (st : State) : State :=
  let '(log, doc) :=
    updateAmbientLog "spoken-word-context" (spokenLog st) context "" false
                     (document st) in
  {| visionLog := visionLog st; spokenLog := log; graphLog := graphLog st;
     scoreLabels := scoreLabels st; scoreData := scoreData st;
     interestChart := interestChart st; chartFrames := chartFrames st;
     ChartLoaded := ChartLoaded st; document := doc |}.

Definition set_document (doc : Document) (st : State) : State :=
  {| visionLog := visionLog st; spokenLog := spokenLog st;
     graphLog := graphLog st;
     scoreLabels := scoreLabels st; scoreData := scoreData st;
     interestChart := interestChart st; chartFrames := chartFrames st;
     ChartLoaded := ChartLoaded st; document := doc |}.

(** The item that the handler makes of an event. *)
Definition audio_item (d : AudioContext) : Node :=
  let div := createDiv in
  let div := match session_id d with
             | Some sid =>
                 if truthy sid then set_id ("session-" +:+ sid) div
                 else div
             | None => div
             end in
  let div := set_className "audio-highlight" div in
  set_textContent (audio_text d) div.

(** The document after one [audio_context] event.  Both lookups come
    first and search the whole document; the item found, wherever it
    stands, is the one rewritten. *)
Definition audio_document (d : AudioContext) (doc : Document) : Document :=
  match getElementById doc "audio-context" with
  | None => doc
  | Some logContainer =>
      let existingItem :=
        getElementById doc ("session-" +:+ interpolate (session_id d)) in
      match is_partial d, existingItem with
      | true, Some item =>
          updateAt item
            (λ n, classList_add "live-pulse"
                    (set_textContent (audio_text d) n))
            doc
      | _, _ => updateAt logContainer (appendChild (audio_item d)) doc
      end
  end.

Definition audio_context (d : AudioContext) (st : State) : State :=
  set_document (audio_document d (document st)) st.

(** [el.textContent = s] on the element of an id, if there is one. *)
Definition set_text (i : string) (s : string) (doc : Document) : Document :=
  match getElementById doc i with
  | None => doc
  | Some el => updateAt el (set_textContent s) doc
  end.

(** The line of the score log; there is none for an event without a
    number for score, or without a string for text: the template throws. *)
Definition logLine (data : EventScored) : option string :=
  match score data, text data with
  | Some x, Some t =>
      Some (toFixed2 exponential x +:+ " - " +:+ source data +:+ ": "
            +:+ String.substring 0 30 t +:+ "...")
  | _, _ => None
  end.

Definition set_series (labels scores : list string)
    (frames : list (list string * list string)) (st : State) : State :=
  {| visionLog := visionLog st; spokenLog := spokenLog st;
     graphLog := graphLog st;
     scoreLabels := labels; scoreData := scores;
     interestChart := interestChart st; chartFrames := frames;
     ChartLoaded := ChartLoaded st; document := document st |}.

(** The rest of the handler, from the template of the log line on. *)
Definition score_log (data : EventScored) (st : State) : State :=
  match logLine data with
  | None => st
  | Some line =>
      let lines := push (graphLog st) line in
      let lines :=
        if bool_decide (10 < len lines) then shift lines else lines in
      {| visionLog := visionLog st; spokenLog := spokenLog st;
         graphLog := lines;
         scoreLabels := scoreLabels st; scoreData := scoreData st;
         interestChart := interestChart st; chartFrames := chartFrames st;
         ChartLoaded := ChartLoaded st;
         document := set_text "graph-data-log" (join nl lines) (document st) |}
  end.

(** The handler pushes the label, then calls [toFixed] of the score: that
    throws for an event without a number, and the label stays. *)
Definition event_scored (data : EventScored) (st : State) : State :=
  let labels := push (scoreLabels st) "" in
  match score data with
  | None => set_series labels (scoreData st) (chartFrames st) st
  | Some x =>
      let scores := push (scoreData st) (toFixed2 exponential x) in
      let '(labels, scores) :=
        if bool_decide (CHART_HISTORY_SIZE < len scores)
        then (shift labels, shift scores)
        else (labels, scores) in
      let frames :=
        if interestChart st then chartFrames st ++ [(labels, scores)]
        else chartFrames st in
      score_log data (set_series labels scores frames st)
  end.

Definition twitch_html (data : TwitchMessage) : string :=
  let isMention := testMention (message data) in
  let bgClass := if isMention then "mention-bg" else "" in
  let formattedMessage := highlightMentions (message data) in
  nl +:+ "        <div class=" +:+ dq +:+ "log-line " +:+ bgClass +:+ dq
  +:+ ">" +:+ nl
  +:+ "            <span class=" +:+ dq +:+ "twitch-user" +:+ dq +:+ ">"
  +:+ sanitizeHTML (username data) +:+ ":</span> " +:+ nl
  +:+ "            <span>" +:+ formattedMessage +:+ "</span>" +:+ nl
  +:+ "        </div>".

Definition twitch_message (data : TwitchMessage) (st : State) : State :=
  set_document
    (appendLog (getElementById (document st) "twitch-messages")
               (twitch_html data) (document st))
    st.

(** The two pictographs of the reply line, by their UTF-8 bytes. *)
Definition siren : string :=
  String (ascii_of_nat 240) (String (ascii_of_nat 159)
    (String (ascii_of_nat 154) (String (ascii_of_nat 168) ""))).
Definition pageFacingUp : string :=
  String (ascii_of_nat 240) (String (ascii_of_nat 159)
    (String (ascii_of_nat 147) (String (ascii_of_nat 132) ""))).

Definition censorshipIndicator (isCensored : bool) (reason : string)
    : string :=
  if isCensored
  then "<span class=" +:+ dq +:+ "censored-indicator" +:+ dq +:+ ">"
       +:+ siren +:+ " FILTERED (" +:+ reason +:+ ")</span>"
  else "".

(** The last line of the reply markup. *)
Definition contextHint : string :=
  nl +:+ "        <span class=" +:+ dq
  +:+ "ml-2 opacity-0 group-hover:opacity-100 text-xs text-gray-400 align-middle"
  +:+ dq +:+ ">" +:+ pageFacingUp +:+ " Context</span></div>".

Definition nami_html (data : BotReply) : string :=
  let sanitizedReply := sanitizeHTML (reply data) in
  let isCensored := is_censored data in
  let reason := or_else (censorship_reason data) "Unknown Policy" in
  let filteredArea := or_else (filtered_area data) "" in
  let censorshipClass := if isCensored then "censored-reply" else "" in
  let censorshipIndicator := censorshipIndicator isCensored reason in
  "<div class=" +:+ dq +:+ "log-line nami-reply cursor-pointer "
  +:+ censorshipClass +:+ dq +:+ " onclick=" +:+ dq
  +:+ "openDrawer(this)" +:+ dq +:+ " " +:+ nl
  +:+ "        data-reply=" +:+ dq
  +:+ encodeURIComponent (reply data) +:+ dq +:+ " " +:+ nl
  +:+ "        data-sent=" +:+ dq
  +:+ encodeURIComponent (or_else (prompt data) "") +:+ dq +:+ " " +:+ nl
  +:+ "        data-censored=" +:+ dq
  +:+ (if isCensored then "true" else "false") +:+ dq +:+ nl
  +:+ "        data-reason=" +:+ dq
  +:+ encodeURIComponent reason +:+ dq +:+ nl
  +:+ "        data-filtered-area=" +:+ dq
  +:+ encodeURIComponent filteredArea +:+ dq +:+ ">" +:+ nl
  +:+ "        <strong>Nami:</strong> " +:+ sanitizedReply
  +:+ censorshipIndicator +:+ contextHint.

Definition chat_html (data : BotReply) : string :=
  let sanitizedReply := sanitizeHTML (reply data) in
  nl +:+ "        <div class=" +:+ dq +:+ "log-line" +:+ dq +:+ " style="
  +:+ dq +:+ "background-color: rgba(99, 226, 183, 0.05);" +:+ dq +:+ ">"
  +:+ nl
  +:+ "            <span class=" +:+ dq +:+ "twitch-user" +:+ dq
  +:+ " style=" +:+ dq +:+ "color: #63e2b7;" +:+ dq +:+ ">Nami:</span> "
  +:+ nl
  +:+ "            <span>" +:+ sanitizedReply +:+ "</span>" +:+ nl
  +:+ "        </div>".

Definition bot_reply (data : BotReply) (st : State) : State :=
  let doc := document st in
  let doc := appendLog (getElementById doc "nami-replies")
                       (nami_html data) doc in
  let doc := appendLog (getElementById doc "twitch-messages")
                       (chat_html data) doc in
  set_document doc st.

(** [getContext] is a method of a canvas, and of no other element. *)
Definition isCanvas (n : Node) : bool :=
  match n with
  | Elem a _ => String.eqb (tagName a) "canvas"
  | Text _ => false
  end.

Definition set_interestChart (st : State) : State :=
  {| visionLog := visionLog st; spokenLog := spokenLog st;
     graphLog := graphLog st;
     scoreLabels := scoreLabels st; scoreData := scoreData st;
     interestChart := true; chartFrames := chartFrames st;
     ChartLoaded := ChartLoaded st; document := document st |}.

(** [window.initializeChart], which the interest-graph drawer calls: it
    returns without the element or without the chart library, and throws
    at [getContext] when the element is no canvas. *)
Definition initializeChart (st : State) : State :=
  match elementById (document st) "interest-chart" with
  | None => st
  | Some ctxEl =>
      if ChartLoaded st
      then if isCanvas ctxEl then set_interestChart st else st
      else st
  end.

(** *** The event loop *)

Inductive Action :=
| VisionContext (context : string)
| SpokenWordContext (context : string)
| Audio (d : AudioContext)
| Scored (d : EventScored)
| Twitch (d : TwitchMessage)
| Reply (d : BotReply)
| InitializeChart.

Definition handle (st : State) (a : Action) : State :=
  match a with
  | VisionContext c => vision_context c st
  | SpokenWordContext c => spoken_word_context c st
  | Audio d => audio_context d st
  | Scored d => event_scored d st
  | Twitch d => twitch_message d st
  | Reply d => bot_reply d st
  | InitializeChart => initializeChart st
  end.

Definition run (st : State) (actions : list Action) : State :=
  foldl handle st actions.

(** A run of appends to one log element. *)
Definition appendLogs (element : string) (htmls : list string)
    (doc : Document) : Document :=
  foldl (λ doc html, appendLog (getElementById doc element) html doc)
        doc htmls.

(** The score events of a run, in order. *)
Definition scoredOf (actions : list Action) : list EventScored :=
  omap (λ a, match a with Scored d => Some d | _ => None end) actions.

(** The fragments that a run of events has parsed into the page. *)
Definition fragmentsOf (actions : list Action) : list (list Node) :=
  actions ≫= λ a, match a with
                  | Twitch d => [parseHTML (twitch_html d)]
                  | Reply d => [parseHTML (nami_html d);
                                parseHTML (chat_html d)]
                  | _ => []
                  end.

End Handlers.

End Script.
(** ** The older entry point: its [event_scored] handler

    The second front-end script shares the log helpers and the other
    handlers with [ui/script.js]; its score handler records a chart point
    only while a chart exists.  It looks [graphDataLogEl] up once, when it
    loads; the two handlers here change nothing of the page but the text
    of that element, so it is the element found at any later time. *)

Module Legacy.

Import JS DOM Markup Script.

Section Handlers.

Variable exponential : Q -> string.

(** The handler records the point inside [if (interestChart)]; there too
    the label is pushed before [toFixed] is called. *)
Definition event_scored (data : EventScored) (st : State) : State :=
  if interestChart st
  then
    let labels := push (scoreLabels st) "" in
    match score data with
    | None => set_series labels (scoreData st) (chartFrames st) st
    | Some x =>
        let scores := push (scoreData st) (toFixed2 exponential x) in
        let '(labels, scores) :=
          if bool_decide (CHART_HISTORY_SIZE < len scores)
          then (shift labels, shift scores)
          else (labels, scores) in
        score_log exponential data
          (set_series labels scores (chartFrames st ++ [(labels, scores)])
                      st)
    end
  else score_log exponential data st.

(** [initializeChart], run once the page has loaded: it returns without
    the chart library, and throws without a canvas of the id. *)
Definition initializeChart (st : State) : State :=
  if ChartLoaded st
  then match elementById (document st) "interest-chart" with
       | None => st
       | Some ctxEl => if isCanvas ctxEl then set_interestChart st else st
       end
  else st.

Inductive Action :=
| Scored (d : EventScored)
| InitializeChart.

Definition handle (st : State) (a : Action) : State :=
  match a with
  | Scored d => event_scored d st
  | InitializeChart => initializeChart st
  end.

Definition run (st : State) (actions : list Action) : State :=
  foldl handle st actions.

Definition scoredOf (actions : list Action) : list EventScored :=
  omap (λ a, match a with Scored d => Some d | _ => None end) actions.

(** The score events of a run that come while a chart exists. *)
Fixpoint charted (st : State) (actions : list Action) : list EventScored :=
  match actions with
  | [] => []
  | a :: rest =>
      match a with
      | Scored d => if interestChart st then [d] else []
      | InitializeChart => []
      end ++ charted (handle st a) rest
  end.

End Handlers.

End Legacy.
(** ** Feeds as sequences of entries *)

Module Feed.

Import JS DOM.

(** The last [n] entries of a list, in order. *)
Definition lastn {A} (n : nat) (l : list A) : list A :=
  drop (length l - n) l.

(** Push, then shift when the length has passed [cap]: the step every
    bounded array of the scripts takes. *)
Definition pushBounded {A} (cap : Z) (l : list A) (x : A) : list A :=
  if bool_decide (cap < len (push l x)) then shift (push l x) else push l x.

(** An entry of a feed: the id it can be addressed under, and its text. *)
Definition Entry : Type := option string * string.

(** What a panel shows: the id and text of every element child. *)
Definition snapshot (children : list Node) : list Entry :=
  omap (λ n, if isElement n then Some (idOf n, textContent n) else None)
       children.

Definition carries (key : string) (e : Entry) : bool :=
  bool_decide (e.1 = Some key).

(** The content of the first entry that carries [key] becomes [content]. *)
Fixpoint replaceFirst (key content : string) (feed : list Entry) : list Entry :=
  match feed with
  | [] => []
  | e :: rest =>
      if carries key e then (e.1, content) :: rest
      else e :: replaceFirst key content rest
  end.

(** The identity rule by lookup, on the entries of a panel: an event
    that is partial, when an entry carries the key it is looked up under,
    has the text of the first such entry replaced, wherever that entry
    stands; any other event is appended, under the id it brings. *)
Definition update (key : string) (entryId : option string)
    (isPartial : bool) (content : string) (feed : list Entry) : list Entry :=
  if isPartial && existsb (carries key) feed
  then replaceFirst key content feed
  else feed ++ [(entryId, content)].

(** The id an [audio_context] event gives its entry: none when the event
    has no session id, or an empty one. *)
Definition entryId (d : Script.AudioContext) : option string :=
  match Script.session_id d with
  | Some sid => if truthy sid then Some ("session-" +:+ sid) else None
  | None => None
  end.

(** The id the handler looks up for the event. *)
Definition lookupKey (d : Script.AudioContext) : string :=
  "session-" +:+ interpolate (Script.session_id d).

(** The identity rule as the specification words it: without an id the
    event is appended; with the id of the last entry, the last entry has
    its content replaced; with any other id the event is appended. *)
Definition specified (entryId : option string) (content : string)
    (feed : list Entry) : list Entry :=
  match entryId with
  | None => feed ++ [(None, content)]
  | Some i =>
      match last feed with
      | Some e =>
          if carries i e then set_last feed (Some i, content)
          else feed ++ [(Some i, content)]
      | None => feed ++ [(Some i, content)]
      end
  end.

End Feed.

(** ** [ui/drawer_controller.js]: the debug drawer

    [openDebugDrawer] is asynchronous.  A call runs up to the [fetch] it
    issues; the rest runs when the fetch has settled, and the refresh of the
    drawer runs from a timer after that.  Each of the three is one step of
    the event loop, and other steps can come in between.

    The file holds the controller twice; the model is the first copy, the
    one that runs the scripts of a loaded fragment, starts the refresh from
    a timer and catches what a stop function throws.  The functions on
    [window] are the drawers' own; a call of one is recorded in the trace
    and leaves the state of the controller as it is. *)

Module Drawer.

Import JS.

(** What the page holds of the drawer: fixed while the script runs. *)
Record Page := {
  has_drawer : bool;
  has_overlay : bool;
  has_content : bool
}.

Record Button := {
  data_drawer : option string;
  active : bool
}.

(** A function found on [window], by what a call of it does. *)
Inductive Fn :=
| Returns
| Throws.

Inductive Effect :=
| Fetch (url : string)
| Call (fnName : string)
| RunScripts (html : string)
| ConsoleLog (message : string)
| ConsoleWarn (message : string)
| ConsoleError (message : string).

(** How a fetch settles: a response that is ok with its body, a response
    with another status, or a rejection. *)
Inductive Response :=
| Ok (html : string)
| Status (status : Z)
| Rejected (message : string).

Record State := {
  currentDebugDrawer : option string;
  drawerOpen : bool;
  overlayVisible : bool;
  contentHTML : string;
  buttons : list Button;
  window : gmap string Fn;
  pending : list string;
  timers : list string;
  trace : list Effect
}.

Definition emit (effects : list Effect) (st : State) : State :=
  {| currentDebugDrawer := currentDebugDrawer st;
     drawerOpen := drawerOpen st; overlayVisible := overlayVisible st;
     contentHTML := contentHTML st; buttons := buttons st;
     window := window st; pending := pending st; timers := timers st;
     trace := trace st ++ effects |}.

Definition deactivate (b : Button) : Button :=
  {| data_drawer := data_drawer b; active := false |}.

Definition activate (b : Button) : Button :=
  {| data_drawer := data_drawer b; active := true |}.

Definition stopFunctions : list string :=
  ["stopThreadStatsRefresh"; "stopPromptDebugRefresh"; "stopRunTestsRefresh"].

(** One round of the loop of [stopAllDrawerRefreshes]: a stop function
    that exists is called, and a throw of it is caught and reported. *)
Definition stopEffects (w : gmap string Fn) (fnName : string) : list Effect :=
  match w !! fnName with
  | None => []
  | Some Returns => [Call fnName]
  | Some Throws =>
      [Call fnName; ConsoleWarn ("[Drawer] Error stopping " +:+ fnName +:+ ":")]
  end.

Definition stopAllDrawerRefreshes (st : State) : State :=
  emit (stopFunctions ≫= stopEffects (window st)) st.

Section Controller.

Variable page : Page.

(** [String.prototype.toUpperCase], and [document.querySelector] on the
    navigation buttons: the message of the error for a selector that does
    not parse, or else the position of the first button selected, if any. *)
Variable toUpperCase : string -> string.
Variable querySelector : string -> list Button -> string + option nat.

Definition closeDebugDrawer (st : State) : State :=
  let st := stopAllDrawerRefreshes st in
  {| currentDebugDrawer := None;
     drawerOpen := if has_drawer page then false else drawerOpen st;
     overlayVisible := if has_overlay page then false else overlayVisible st;
     contentHTML := contentHTML st;
     buttons := deactivate <$> buttons st;
     window := window st; pending := pending st; timers := timers st;
     trace := trace st |}.

(** The call of [openDebugDrawer], up to the fetch. *)
Definition openDebugDrawer (drawerName : string) (st : State) : State :=
  if negb (has_drawer page && has_overlay page && has_content page)
  then emit [ConsoleError "Debug drawer elements not found"] st
  else if bool_decide (currentDebugDrawer st = Some drawerName)
  then closeDebugDrawer st
  else
    let st := stopAllDrawerRefreshes st in
    let st := emit [Fetch ("/static/drawers/" +:+ drawerName +:+ ".html")] st in
    {| currentDebugDrawer := currentDebugDrawer st;
       drawerOpen := drawerOpen st; overlayVisible := overlayVisible st;
       contentHTML := contentHTML st; buttons := buttons st;
       window := window st; pending := pending st ++ [drawerName];
       timers := timers st; trace := trace st |}.

(** The [catch] block of [openDebugDrawer]. *)
Definition loadFailed (message : string) (st : State) : State :=
  let st := emit [ConsoleError "Error loading drawer:"] st in
  {| currentDebugDrawer := currentDebugDrawer st;
     drawerOpen := drawerOpen st; overlayVisible := overlayVisible st;
     contentHTML :=
       "<div class=" +:+ Markup.dq +:+ "p-8 text-center text-red-400"
       +:+ Markup.dq +:+ ">Error loading drawer: " +:+ message +:+ "</div>";
     buttons := buttons st;
     window := window st; pending := pending st; timers := timers st;
     trace := trace st |}.

Fixpoint removeFirst (x : string) (l : list string) : list string :=
  match l with
  | [] => []
  | y :: rest => if bool_decide (x = y) then rest else y :: removeFirst x rest
  end.

(** The rest of [openDebugDrawer], once its fetch has settled.  It only
    runs for a call that went as far as the fetch. *)
Definition fetchSettled (drawerName : string) (r : Response) (st : State)
    : State :=
  if bool_decide (drawerName ∈ pending st)
  then
    let st :=
      {| currentDebugDrawer := currentDebugDrawer st;
         drawerOpen := drawerOpen st; overlayVisible := overlayVisible st;
         contentHTML := contentHTML st; buttons := buttons st;
         window := window st; pending := removeFirst drawerName (pending st);
         timers := timers st; trace := trace st |} in
    match r with
    | Rejected message => loadFailed message st
    | Status status =>
        loadFailed ("Failed to load drawer: " +:+ digits status) st
    | Ok html =>
        let st := emit [RunScripts html] st in
        let cleared := deactivate <$> buttons st in
        let loaded :=
          {| currentDebugDrawer := currentDebugDrawer st;
             drawerOpen := drawerOpen st; overlayVisible := overlayVisible st;
             contentHTML := html; buttons := cleared;
             window := window st; pending := pending st; timers := timers st;
             trace := trace st |} in
        match querySelector
                (".debug-nav-btn[data-drawer=" +:+ Markup.dq +:+ drawerName
                 +:+ Markup.dq +:+ "]") cleared with
        | inl message => loadFailed message loaded
        | inr activeBtn =>
            {| currentDebugDrawer := Some drawerName;
               drawerOpen := true; overlayVisible := true;
               contentHTML := html;
               buttons := match activeBtn with
                          | Some k => alter activate k cleared
                          | None => cleared
                          end;
               window := window st; pending := pending st;
               timers := timers st ++ [drawerName];
               trace := trace st |}
        end
    end
  else st.

Fixpoint removeUnderscores (s : string) : string :=
  match s with
  | "" => ""
  | String c rest =>
      if Ascii.eqb c "_" then removeUnderscores rest
      else String c (removeUnderscores rest)
  end.

Definition refreshFnName (drawerName : string) : string :=
  "start" +:+ toUpperCase (String.substring 0 1 drawerName)
  +:+ removeUnderscores
        (String.substring 1 (String.length drawerName - 1) drawerName)
  +:+ "Refresh".

(** The timer set at the end of [openDebugDrawer]. *)
Definition refreshTimer (drawerName : string) (st : State) : State :=
  if bool_decide (drawerName ∈ timers st)
  then
    let st :=
      {| currentDebugDrawer := currentDebugDrawer st;
         drawerOpen := drawerOpen st; overlayVisible := overlayVisible st;
         contentHTML := contentHTML st; buttons := buttons st;
         window := window st; pending := pending st;
         timers := removeFirst drawerName (timers st); trace := trace st |} in
    match window st !! refreshFnName drawerName with
    | Some _ =>
        emit [ConsoleLog ("[Drawer] Starting auto-refresh: "
                          +:+ refreshFnName drawerName);
              Call (refreshFnName drawerName)] st
    | None =>
        emit [ConsoleLog ("[Drawer] No refresh function found: "
                          +:+ refreshFnName drawerName)] st
    end
  else st.

(** The two listeners that close the drawer. *)
Definition overlayClick (st : State) : State := closeDebugDrawer st.

Definition escapeKey (st : State) : State :=
  match currentDebugDrawer st with
  | Some name => if truthy name then closeDebugDrawer st else st
  | None => st
  end.

(** The scripts of a loaded fragment, and of the page, define and redefine
    functions on [window]. *)
Definition scriptsRan (w : gmap string Fn) (st : State) : State :=
  {| currentDebugDrawer := currentDebugDrawer st;
     drawerOpen := drawerOpen st; overlayVisible := overlayVisible st;
     contentHTML := contentHTML st; buttons := buttons st;
     window := w; pending := pending st; timers := timers st;
     trace := trace st |}.

Inductive Step :=
| OpenDebugDrawer (drawerName : string)
| FetchSettled (drawerName : string) (r : Response)
| RefreshTimer (drawerName : string)
| CloseDebugDrawer
| OverlayClick
| EscapeKey
| ScriptsRan (w : gmap string Fn).

Definition step (st : State) (s : Step) : State :=
  match s with
  | OpenDebugDrawer name => openDebugDrawer name st
  | FetchSettled name r => fetchSettled name r st
  | RefreshTimer name => refreshTimer name st
  | CloseDebugDrawer => closeDebugDrawer st
  | OverlayClick => overlayClick st
  | EscapeKey => escapeKey st
  | ScriptsRan w => scriptsRan w st
  end.

Definition run (st : State) (steps : list Step) : State := foldl step st steps.

(** A drawer is open, or on its way to open, only on a page that has the
    three elements of the drawer. *)
Definition guarded (st : State) : Prop :=
  has_drawer page && has_overlay page && has_content page = true
  \/ (currentDebugDrawer st = None /\ pending st = []).

End Controller.

(** The state when the script has been loaded: no drawer is open. *)
Definition init (content : string) (btns : list Button) (w : gmap string Fn)
    : State :=
  {| currentDebugDrawer := None; drawerOpen := false; overlayVisible := false;
     contentHTML := content; buttons := btns; window := w;
     pending := []; timers := []; trace := [] |}.

End Drawer.

(** ** Sample inputs *)

Module Samples.

Import DOM Script.

Definition partial (sid content : string) : AudioContext :=
  {| audio_text := content; session_id := Some sid; is_partial := true |}.

Definition final (sid content : string) : AudioContext :=
  {| audio_text := content; session_id := Some sid; is_partial := false |}.

(** A partial event without a session id. *)
Definition unnamed (content : string) : AudioContext :=
  {| audio_text := content; session_id := None; is_partial := true |}.

Definition scored (x : Q) : EventScored :=
  {| score := Some (JS.Finite x); source := "chat"; text := Some "hello" |}.

(** A score event without a score. *)
Definition unscored : EventScored :=
  {| score := None; source := "chat"; text := Some "hello" |}.

(** An empty element of an id. *)
Definition element (tag i : string) : Node :=
  Elem {| tagName := tag; id := Some i; classList := [] |} [].

(** A page that has every panel, empty. *)
Definition page : Document :=
  [element "div" "vision-context"; element "div" "spoken-word-context";
   element "div" "audio-context"; element "pre" "graph-data-log";
   element "div" "twitch-messages"; element "div" "nami-replies";
   element "canvas" "interest-chart"].

(** An item of the transcript, as the handler makes it. *)
Definition item (sid content : string) : Node :=
  audio_item (partial sid content).

(** A page whose transcript holds the items of two sessions, and one that
    holds an element of the first session's id before the transcript. *)
Definition twoSessions : Document :=
  [Elem {| tagName := "div"; id := Some "audio-context"; classList := [] |}
        [item "s1" "a"; item "s2" "b"]].

Definition strayItem : Document :=
  [element "span" "session-s1";
   Elem {| tagName := "div"; id := Some "audio-context"; classList := [] |}
        [item "s2" "b"]].

(** A page whose transcript holds an item with the id [session-undefined],
    which a session named [undefined] left. *)
Definition undefinedSession : Document :=
  [Elem {| tagName := "div"; id := Some "audio-context"; classList := [] |}
        [item "undefined" "x"]].

Definition parseHTML (html : string) : list Node :=
  [set_textContent html createDiv].

Definition exponential (x : Q) : string := "1e+21".

(** A page that has the drawer, and a run that opens a drawer on it. *)
Definition drawerPage : Drawer.Page :=
  {| Drawer.has_drawer := true; Drawer.has_overlay := true;
     Drawer.has_content := true |}.

Definition toUpperCase (s : string) : string :=
  match s with
  | "" => ""
  | String c rest => String (Markup.upper c) rest
  end.

Definition querySelector (selector : string) (btns : list Drawer.Button)
    : string + option nat :=
  inr None.

Definition stopThreadStats : gmap string Drawer.Fn :=
  {[ "stopThreadStatsRefresh" := Drawer.Returns ]}.

(** A window on which the thread statistics drawer has put its stop
    function, and its refresh function under the name that the controller
    makes of the drawer name. *)
Definition threadStatsFns : gmap string Drawer.Fn :=
  {[ "stopThreadStatsRefresh" := Drawer.Returns;
     "startThreadstatsRefresh" := Drawer.Returns ]}.

Definition threadStatsOpened : list Drawer.Step :=
  [Drawer.OpenDebugDrawer "thread_stats";
   Drawer.FetchSettled "thread_stats" (Drawer.Ok "<p>threads</p>")].

End Samples.
(** ** The chart and the series *)

Module Panels.

Import JS DOM Markup Script.

(** The chart, once it has drawn, has drawn the series as it is now; and
    without a chart nothing has been drawn. *)
Definition chartCurrent (st : State) : Prop :=
  (interestChart st = false -> chartFrames st = [])
  /\ (chartFrames st = []
      \/ last (chartFrames st) = Some (scoreLabels st, scoreData st)).

(** Every score event of a list brings a number for score. *)
Definition numeric (ds : list EventScored) : Prop :=
  Forall (λ d, is_Some (score d)) ds.

(** The scores of a list of score events as the series stores them, and
    the lines of the score log that they leave. *)
Definition stored (exponential : Q -> string) (ds : list EventScored)
    : list string :=
  omap (λ d, toFixed2 exponential <$> score d) ds.

(** The number of hundredths that the entry stored for a finite score
    denotes: the hundredths printed, under the sign printed. *)
Definition storedHundredths (x : Q) : Z :=
  if Qlt_bool x 0 then - hundredths (- x) else hundredths x.

End Panels.
(** ** Words of the mention pattern *)

Module Mentions.

Import Markup.

(** A word of ASCII letters only, as the two words of the pattern are. *)
Fixpoint lettersOnly (word : string) : bool :=
  match word with
  | "" => true
  | String w rest =>
      let n := nat_of_ascii (upper w) in
      ((65 <=? n) && (n <=? 90))%nat && lettersOnly rest
  end.

End Mentions.

(** ** The state of the drawer, as the page shows it *)

Module DrawerView.

Import Drawer.

(** The buttons that are marked as active. *)
Definition activeButtons (btns : list Button) : list Button :=
  filter (λ b, active b = true) btns.

(** The drawer and its overlay are shown exactly while a drawer is
    current. *)
Definition coherent (page : Page) (st : State) : Prop :=
  guarded page st
  /\ drawerOpen st = bool_decide (is_Some (currentDebugDrawer st))
  /\ overlayVisible st = drawerOpen st.

(** At most one button is marked, and none while no drawer is current. *)
Definition oneActive (st : State) : Prop :=
  (length (activeButtons (buttons st)) <= 1)%nat
  /\ (currentDebugDrawer st = None ->
      Forall (λ b, active b = false) (buttons st)).

(** The message that the [catch] block of [openDebugDrawer] shows for a
    fetch that did not give the fragment, and the markup it shows it in. *)
Definition failureMessage (r : Response) : option string :=
  match r with
  | Ok _ => None
  | Status status => Some ("Failed to load drawer: " +:+ JS.digits status)
  | Rejected message => Some message
  end.

Definition errorMarkup (message : string) : string :=
  "<div class=" +:+ Markup.dq +:+ "p-8 text-center text-red-400"
  +:+ Markup.dq +:+ ">Error loading drawer: " +:+ message +:+ "</div>".

End DrawerView.

(** ** [ui/script.js]: the context drawer of a reply

    A click on a reply line calls [openDrawer] with the line; the drawer
    shows what the attributes of the line carry.  Here the inline style of
    the reply element is part of what is shown. *)

Module ContextDrawer.

Import JS DOM Markup.

Inductive Exception :=
| URIError
| TypeError.

(** How a call completes: with a value, with an exception, or on a string
    that is outside these strings (an escape sequence whose lead byte
    announces a code point above 255). *)
Inductive Completion (A : Type) :=
| Normal (a : A)
| Abrupt (e : Exception)
| Outside.

Arguments Normal {A} a.
Arguments Abrupt {A} e.
Arguments Outside {A}.

(** *** [decodeURIComponent] *)

Definition hexValue (c : ascii) : option nat :=
  let n := nat_of_ascii c in
  if ((48 <=? n) && (n <=? 57))%nat then Some (n - 48)%nat
  else if ((65 <=? n) && (n <=? 70))%nat then Some (n - 55)%nat
  else if ((97 <=? n) && (n <=? 102))%nat then Some (n - 87)%nat
  else None.

(** The byte that the two characters after a [%] give, if they are there
    and are hexadecimal digits. *)
Definition escapedByte (s : string) : option nat :=
  match s with
  | String h (String l _) =>
      match hexValue h, hexValue l with
      | Some a, Some b => Some (16 * a + b)%nat
      | _, _ => None
      end
  | _ => None
  end.

(** The continuation byte of a two-byte sequence: a further escape, of a
    byte from 80 to BF. *)
Definition continuationByte (s : string) : option nat :=
  match s with
  | String c rest =>
      if Ascii.eqb c "%"
      then match escapedByte rest with
           | Some b => if ((128 <=? b) && (b <=? 191))%nat then Some b
                       else None
           | None => None
           end
      else None
  | "" => None
  end.

Definition prepend (c : ascii) (r : Completion string) : Completion string :=
  match r with
  | Normal s => Normal (String c s)
  | Abrupt e => Abrupt e
  | Outside => Outside
  end.

(** The loop of the decoding; [skip] counts the characters of the current
    escape sequence still to pass.  A lead byte below 80 is the character
    itself; C2 and C3 start the two-byte sequences of the characters from
    80 to FF; a continuation byte or C0, C1, or F8 and above, in the place
    of a lead byte, and every sequence cut short, is an error. *)
Fixpoint decodeFrom (skip : nat) (s : string) : Completion string :=
  match s with
  | "" => Normal ""
  | String c rest =>
      match skip with
      | S k => decodeFrom k rest
      | O =>
          if negb (Ascii.eqb c "%") then prepend c (decodeFrom 0 rest)
          else
            match escapedByte rest with
            | None => Abrupt URIError
            | Some b =>
                if (b <? 128)%nat
                then prepend (ascii_of_nat b) (decodeFrom 2 rest)
                else if ((b <? 194) || (247 <? b))%nat then Abrupt URIError
                else if (b <? 196)%nat
                then match continuationByte (dropChars 2 rest) with
                     | Some b' =>
                         prepend
                           (ascii_of_nat ((b - 192) * 64 + (b' - 128)))
                           (decodeFrom 5 rest)
                     | None => Abrupt URIError
                     end
                else Outside
            end
      end
  end.

Definition decodeURIComponent (s : string) : Completion string :=
  decodeFrom 0 s.

(** *** The line and the drawer *)

(** The attributes of a reply line, as [getAttribute] gives them. *)
Record Line := {
  data_reply : option string;
  data_sent : option string;
  data_censored : option string;
  data_reason : option string;
  data_filtered_area : option string
}.

(** The elements of the drawer that the page has. *)
Record Elements := {
  has_drawer_sent : bool;
  has_drawer_reply : bool;
  has_context_drawer : bool;
  has_context_drawer_overlay : bool
}.

(** The content of an element: a text, or parsed markup. *)
Inductive Content :=
| TextContent (s : string)
| InnerHTML (markup : string).

Definition shownText (c : Content) : string :=
  match c with
  | TextContent s => s
  | InnerHTML markup => renderedText markup
  end.

(** What the page shows of the drawer: the two contents, the style of the
    reply element, and the classes [translate-x-full] of the drawer and
    [hidden] of its overlay. *)
Record View := {
  sentText : string;
  replyContent : Content;
  borderColor : string;
  backgroundColor : string;
  translated : bool;
  hidden : bool
}.

(** Statements run on the view and complete, normally or not. *)
Definition Run (A : Type) : Type := View -> Completion A * View.

Definition ret {A} (a : A) : Run A := λ v, (Normal a, v).

Definition bind {A B} (m : Run A) (f : A -> Run B) : Run B :=
  λ v, match m v with
       | (Normal a, v') => f a v'
       | (Abrupt e, v') => (Abrupt e, v')
       | (Outside, v') => (Outside, v')
       end.

Definition completes {A} (c : Completion A) : Run A := λ v, (c, v).

Definition modify (f : View -> View) : Run unit := λ v, (Normal tt, f v).

(** The use of what [getElementById] gave: of [null], it throws. *)
Definition element (present : bool) : Run unit :=
  completes (if present then Normal tt else Abrupt TypeError).

Declare Scope run_scope.
Delimit Scope run_scope with run.

Notation "'let*' x := m 'in' f" := (bind m (λ x, f))
  (at level 10, x name, m at level 100, f at level 200) : run_scope.
Notation "m ;; f" := (bind m (λ _, f))
  (at level 100, f at level 200, right associativity) : run_scope.

Definition set_sent (s : string) (v : View) : View :=
  {| sentText := s; replyContent := replyContent v; borderColor := borderColor v;
     backgroundColor := backgroundColor v; translated := translated v;
     hidden := hidden v |}.

Definition set_reply (c : Content) (v : View) : View :=
  {| sentText := sentText v; replyContent := c; borderColor := borderColor v;
     backgroundColor := backgroundColor v; translated := translated v;
     hidden := hidden v |}.

Definition set_style (border background : string) (v : View) : View :=
  {| sentText := sentText v; replyContent := replyContent v; borderColor := border;
     backgroundColor := background; translated := translated v;
     hidden := hidden v |}.

Definition set_translated (b : bool) (v : View) : View :=
  {| sentText := sentText v; replyContent := replyContent v; borderColor := borderColor v;
     backgroundColor := backgroundColor v; translated := b;
     hidden := hidden v |}.

Definition set_hidden (b : bool) (v : View) : View :=
  {| sentText := sentText v; replyContent := replyContent v; borderColor := borderColor v;
     backgroundColor := backgroundColor v; translated := translated v;
     hidden := b |}.

(** The warning sign of the heading, by its UTF-8 bytes. *)
Definition warningSign : string :=
  String (ascii_of_nat 226) (String (ascii_of_nat 154)
    (String (ascii_of_nat 160) (String (ascii_of_nat 239)
      (String (ascii_of_nat 184) (String (ascii_of_nat 143) ""))))).

Definition filteredAreaMarkup (filteredArea : string) : string :=
  if truthy filteredArea
  then "<div><span class=" +:+ dq +:+ "text-gray-400 text-xs" +:+ dq
       +:+ ">Filtered Area:</span><span class=" +:+ dq
       +:+ "text-red-200 font-mono text-xs ml-1" +:+ dq +:+ ">"
       +:+ sanitizeHTML filteredArea +:+ "</span></div>"
  else "".

(** The markup of a censored reply. *)
Definition censoredMarkup (reason filteredArea replyRaw : string) : string :=
  nl +:+ "            <div class=" +:+ dq
  +:+ "mb-1 p-1 bg-red-900/30 border border-red-500 rounded text-sm" +:+ dq
  +:+ ">" +:+ nl
  +:+ "                <div class=" +:+ dq
  +:+ "text-red-400 text-xs uppercase font-bold mb-1" +:+ dq +:+ ">"
  +:+ warningSign +:+ " Safety Filter Triggered</div>" +:+ nl
  +:+ "                <div class=" +:+ dq +:+ "flex items-center gap-1 mb-1"
  +:+ dq +:+ ">" +:+ nl
  +:+ "                    <span class=" +:+ dq +:+ "text-gray-400 text-xs"
  +:+ dq +:+ ">Filtered Word:</span>" +:+ nl
  +:+ "                    <span class=" +:+ dq
  +:+ "text-red-200 font-mono bg-red-900/50 px-1.5 py-0.5 rounded text-xs"
  +:+ dq +:+ ">" +:+ sanitizeHTML reason +:+ "</span>" +:+ nl
  +:+ "                </div>" +:+ nl
  +:+ "                " +:+ filteredAreaMarkup filteredArea +:+ nl
  +:+ "            </div>" +:+ nl
  +:+ "            <div class=" +:+ dq
  +:+ "text-gray-500 text-xs uppercase font-bold mb-1" +:+ dq
  +:+ ">Original Response:</div>" +:+ nl
  +:+ "            <div class=" +:+ dq +:+ "text-gray-300 text-sm" +:+ dq
  +:+ ">" +:+ sanitizeHTML replyRaw +:+ "</div>".

Section Page.

Variable page : Elements.

Local Open Scope run_scope.

Definition openDrawer (el : Line) : Run unit :=
  let* sent := completes (decodeURIComponent (or_else (data_sent el) "")) in
  let* replyRaw :=
    completes (decodeURIComponent (or_else (data_reply el) "")) in
  let isCensored := bool_decide (data_censored el = Some "true") in
  let* reason :=
    completes (decodeURIComponent (or_else (data_reason el) "Unknown")) in
  let* filteredArea :=
    completes (decodeURIComponent (or_else (data_filtered_area el) "")) in
  element (has_drawer_sent page) ;;
  modify (set_sent (or_else (Some sent) "(No prompt data available)")) ;;
  element (has_drawer_reply page) ;;
  modify (set_reply (InnerHTML "")) ;;
  modify (set_style "#3a3a3a" "#1f1f1f") ;;
  (if isCensored
   then modify (set_reply
                  (InnerHTML (censoredMarkup reason filteredArea replyRaw))) ;;
        modify (set_style "#ef4444" "rgba(239, 68, 68, 0.1)")
   else modify (set_reply
                  (TextContent
                     (or_else (Some replyRaw) "(No reply data available)")))) ;;
  element (has_context_drawer page) ;;
  modify (set_translated false) ;;
  element (has_context_drawer_overlay page) ;;
  modify (set_hidden false).

Definition closeDrawer : Run unit :=
  element (has_context_drawer page) ;;
  modify (set_translated true) ;;
  element (has_context_drawer_overlay page) ;;
  modify (set_hidden true).

End Page.

(** The attributes that the markup of [bot_reply] gives the line of a
    reply. *)
Definition replyLine (data : Script.BotReply) : Line :=
  {| data_reply := Some (encodeURIComponent (Script.reply data));
     data_sent :=
       Some (encodeURIComponent (or_else (Script.prompt data) ""));
     data_censored :=
       Some (if Script.is_censored data then "true" else "false");
     data_reason :=
       Some (encodeURIComponent
               (or_else (Script.censorship_reason data) "Unknown Policy"));
     data_filtered_area :=
       Some (encodeURIComponent (or_else (Script.filtered_area data) "")) |}.

(** The text of those attributes in the markup, before the [rest] of
    it. *)
Definition lineAttributes (el : Line) (rest : string) : string :=
  "data-reply=" +:+ dq +:+ interpolate (data_reply el) +:+ dq +:+ " " +:+ nl
  +:+ "        data-sent=" +:+ dq +:+ interpolate (data_sent el) +:+ dq
  +:+ " " +:+ nl
  +:+ "        data-censored=" +:+ dq +:+ interpolate (data_censored el)
  +:+ dq +:+ nl
  +:+ "        data-reason=" +:+ dq +:+ interpolate (data_reason el) +:+ dq
  +:+ nl
  +:+ "        data-filtered-area=" +:+ dq
  +:+ interpolate (data_filtered_area el) +:+ dq +:+ rest.

(** What the drawer shows of a censored reply. *)
Definition censoredText (reason filteredArea replyRaw : string) : string :=
  nl +:+ "            " +:+ nl +:+ "                " +:+ warningSign
  +:+ " Safety Filter Triggered" +:+ nl +:+ "                " +:+ nl
  +:+ "                    Filtered Word:" +:+ nl
  +:+ "                    " +:+ reason +:+ nl +:+ "                " +:+ nl
  +:+ "                "
  +:+ (if truthy filteredArea then "Filtered Area:" +:+ filteredArea else "")
  +:+ nl +:+ "            " +:+ nl
  +:+ "            Original Response:" +:+ nl +:+ "            " +:+ replyRaw.

End ContextDrawer.

(** ** [ui/script.js]: the context controls

    The two locks, the manual context with its character counter, and the
    context suggestions of the model.  Console output is left out. *)

Module Controls.

Import JS.

(** The elements of the controls that the page has. *)
Record Elements := {
  has_contextInput : bool;
  has_contextCharCount : bool;
  has_streamerLockBtn : bool;
  has_contextLockBtn : bool;
  has_aiSuggestionIndicator : bool;
  has_aiSuggestionText : bool;
  has_acceptAiSuggestionBtn : bool;
  has_contextSubmit : bool;
  has_streamerSelect : bool
}.

(** What [socket.emit] sends. *)
Inductive Message :=
| Set_streamer_lock (locked : bool)
| Set_context_lock (locked : bool)
| Set_manual_context (context : string)
| Set_streamer (streamer_id : string).

Record LockButton := {
  buttonText : string;
  lockedClass : bool
}.

Record State := {
  streamerLocked : bool;
  contextLocked : bool;
  pendingAiContext : option string;
  streamerLockBtn : LockButton;
  contextLockBtn : LockButton;
  inputValue : string;
  aiUpdated : bool;
  aiUpdatedTimers : nat;
  charCount : string;
  charCountRed : bool;
  suggestionText : string;
  indicatorHidden : bool;
  indicatorFlex : bool;
  emitted : list Message
}.

(** The two padlocks, by their UTF-8 bytes. *)
Definition closedLock : string :=
  String (ascii_of_nat 240) (String (ascii_of_nat 159)
    (String (ascii_of_nat 148) (String (ascii_of_nat 146) ""))).
Definition openLock : string :=
  String (ascii_of_nat 240) (String (ascii_of_nat 159)
    (String (ascii_of_nat 148) (String (ascii_of_nat 147) ""))).

(** [updateLockButtonUI], on a button that is there. *)
Definition lockButton (isLocked : bool) : LockButton :=
  {| buttonText := if isLocked then closedLock else openLock;
     lockedClass := isLocked |}.

Definition updateLockButtonUI (present : bool) (btn : LockButton)
    (isLocked : bool) : LockButton :=
  if negb present then btn else lockButton isLocked.

(** The text of the counter for a value. *)
Definition counted (value : string) : string :=
  digits (Z.of_nat (String.length value)) +:+ "/120".

Section Page.

Variable page : Elements.

Definition toggleStreamerLock (st : State) : State :=
  let locked := negb (streamerLocked st) in
  {| streamerLocked := locked; contextLocked := contextLocked st;
     pendingAiContext := pendingAiContext st;
     streamerLockBtn :=
       updateLockButtonUI (has_streamerLockBtn page) (streamerLockBtn st)
                          locked;
     contextLockBtn := contextLockBtn st;
     inputValue := inputValue st; aiUpdated := aiUpdated st;
     aiUpdatedTimers := aiUpdatedTimers st;
     charCount := charCount st; charCountRed := charCountRed st;
     suggestionText := suggestionText st;
     indicatorHidden := indicatorHidden st;
     indicatorFlex := indicatorFlex st;
     emitted := emitted st ++ [Set_streamer_lock locked] |}.

Definition toggleContextLock (st : State) : State :=
  let locked := negb (contextLocked st) in
  {| streamerLocked := streamerLocked st; contextLocked := locked;
     pendingAiContext := pendingAiContext st;
     streamerLockBtn := streamerLockBtn st;
     contextLockBtn :=
       updateLockButtonUI (has_contextLockBtn page) (contextLockBtn st)
                          locked;
     inputValue := inputValue st; aiUpdated := aiUpdated st;
     aiUpdatedTimers := aiUpdatedTimers st;
     charCount := charCount st; charCountRed := charCountRed st;
     suggestionText := suggestionText st;
     indicatorHidden := indicatorHidden st;
     indicatorFlex := indicatorFlex st;
     emitted := emitted st ++ [Set_context_lock locked] |}.

(** The listener of the input: the user has made [value] the value. *)
Definition input (value : string) (st : State) : State :=
  if negb (has_contextInput page) then st
  else
    let len := Z.of_nat (String.length value) in
    {| streamerLocked := streamerLocked st;
       contextLocked := contextLocked st;
       pendingAiContext := pendingAiContext st;
       streamerLockBtn := streamerLockBtn st;
       contextLockBtn := contextLockBtn st;
       inputValue := value; aiUpdated := aiUpdated st;
       aiUpdatedTimers := aiUpdatedTimers st;
       charCount := if has_contextCharCount page then counted value
                    else charCount st;
       charCountRed := if has_contextCharCount page
                       then bool_decide (120 <= len)
                       else charCountRed st;
       suggestionText := suggestionText st;
       indicatorHidden := indicatorHidden st;
       indicatorFlex := indicatorFlex st;
       emitted := emitted st |}.

(** A suggestion is applied at once while the context is not locked, and
    kept for later while it is. *)
Definition ai_context_suggestion (context : option string) (st : State)
    : State :=
  match context with
  | None => st
  | Some c =>
      if negb (truthy c) then st
      else if negb (contextLocked st)
      then
        if has_contextInput page
        then {| streamerLocked := streamerLocked st;
                contextLocked := contextLocked st;
                pendingAiContext := pendingAiContext st;
                streamerLockBtn := streamerLockBtn st;
                contextLockBtn := contextLockBtn st;
                inputValue := c; aiUpdated := true;
                aiUpdatedTimers := S (aiUpdatedTimers st);
                charCount := if has_contextCharCount page then counted c
                             else charCount st;
                charCountRed := charCountRed st;
                suggestionText := suggestionText st;
                indicatorHidden := indicatorHidden st;
                indicatorFlex := indicatorFlex st;
                emitted := emitted st |}
        else st
      else
        {| streamerLocked := streamerLocked st;
           contextLocked := contextLocked st;
           pendingAiContext := Some c;
           streamerLockBtn := streamerLockBtn st;
           contextLockBtn := contextLockBtn st;
           inputValue := inputValue st; aiUpdated := aiUpdated st;
           aiUpdatedTimers := aiUpdatedTimers st;
           charCount := charCount st; charCountRed := charCountRed st;
           suggestionText := if has_aiSuggestionText page then c
                             else suggestionText st;
           indicatorHidden := if has_aiSuggestionIndicator page then false
                              else indicatorHidden st;
           indicatorFlex := if has_aiSuggestionIndicator page then true
                            else indicatorFlex st;
           emitted := emitted st |}
  end.

(** The timer that takes the mark of a suggestion off the input. *)
Definition aiUpdatedTimeout (st : State) : State :=
  match aiUpdatedTimers st with
  | O => st
  | S k =>
      {| streamerLocked := streamerLocked st;
         contextLocked := contextLocked st;
         pendingAiContext := pendingAiContext st;
         streamerLockBtn := streamerLockBtn st;
         contextLockBtn := contextLockBtn st;
         inputValue := inputValue st; aiUpdated := false;
         aiUpdatedTimers := k;
         charCount := charCount st; charCountRed := charCountRed st;
         suggestionText := suggestionText st;
         indicatorHidden := indicatorHidden st;
         indicatorFlex := indicatorFlex st;
         emitted := emitted st |}
  end.

Definition updateManualContext (contextText : string) : list Message :=
  [Set_manual_context contextText].

Definition updateStreamerContext (streamerId : string) : list Message :=
  [Set_streamer streamerId].

(** The click on the button that accepts the suggestion kept. *)
Definition acceptAiSuggestion (st : State) : State :=
  if negb (has_acceptAiSuggestionBtn page) then st
  else
    match pendingAiContext st with
    | None => st
    | Some c =>
        if negb (truthy c) then st
        else
          {| streamerLocked := streamerLocked st;
             contextLocked := contextLocked st;
             pendingAiContext := None;
             streamerLockBtn := streamerLockBtn st;
             contextLockBtn := contextLockBtn st;
             inputValue := if has_contextInput page then c
                           else inputValue st;
             aiUpdated := aiUpdated st;
             aiUpdatedTimers := aiUpdatedTimers st;
             charCount :=
               if has_contextInput page && has_contextCharCount page
               then counted c else charCount st;
             charCountRed := charCountRed st;
             suggestionText := suggestionText st;
             indicatorHidden := if has_aiSuggestionIndicator page then true
                                else indicatorHidden st;
             indicatorFlex := if has_aiSuggestionIndicator page then false
                              else indicatorFlex st;
             emitted := emitted st ++ updateManualContext c |}
    end.

Definition send (messages : list Message) (st : State) : State :=
  {| streamerLocked := streamerLocked st;
     contextLocked := contextLocked st;
     pendingAiContext := pendingAiContext st;
     streamerLockBtn := streamerLockBtn st;
     contextLockBtn := contextLockBtn st;
     inputValue := inputValue st; aiUpdated := aiUpdated st;
     aiUpdatedTimers := aiUpdatedTimers st;
     charCount := charCount st; charCountRed := charCountRed st;
     suggestionText := suggestionText st;
     indicatorHidden := indicatorHidden st;
     indicatorFlex := indicatorFlex st;
     emitted := emitted st ++ messages |}.

(** The listeners of the select, of the submit button and of the keys of
    the input. *)
Definition streamerChange (value : string) (st : State) : State :=
  if has_streamerSelect page then send (updateStreamerContext value) st
  else st.

Definition contextSubmit (st : State) : State :=
  if has_contextSubmit page && has_contextInput page
  then send (updateManualContext (inputValue st)) st
  else st.

Definition keypress (key : string) (st : State) : State :=
  if has_contextInput page && String.eqb key "Enter"
  then send (updateManualContext (inputValue st)) st
  else st.

(** The seventh step of the handler of [director_state]: the locks that
    the state carries (booleans, where it carries them) replace those of
    the page. *)
Definition lockStates (streamer_locked context_locked : option bool)
    (st : State) : State :=
  let streamer := default (streamerLocked st) streamer_locked in
  let context := default (contextLocked st) context_locked in
  {| streamerLocked := streamer; contextLocked := context;
     pendingAiContext := pendingAiContext st;
     streamerLockBtn :=
       match streamer_locked with
       | Some _ =>
           updateLockButtonUI (has_streamerLockBtn page) (streamerLockBtn st)
                              streamer
       | None => streamerLockBtn st
       end;
     contextLockBtn :=
       match context_locked with
       | Some _ =>
           updateLockButtonUI (has_contextLockBtn page) (contextLockBtn st)
                              context
       | None => contextLockBtn st
       end;
     inputValue := inputValue st; aiUpdated := aiUpdated st;
     aiUpdatedTimers := aiUpdatedTimers st;
     charCount := charCount st; charCountRed := charCountRed st;
     suggestionText := suggestionText st;
     indicatorHidden := indicatorHidden st;
     indicatorFlex := indicatorFlex st;
     emitted := emitted st |}.

Inductive Event :=
| ToggleStreamerLock
| ToggleContextLock
| Input (value : string)
| AiContextSuggestion (context : option string)
| AiUpdatedTimeout
| AcceptAiSuggestion
| StreamerChange (value : string)
| ContextSubmit
| Keypress (key : string)
| LockStates (streamer_locked context_locked : option bool).

Definition handle (st : State) (e : Event) : State :=
  match e with
  | ToggleStreamerLock => toggleStreamerLock st
  | ToggleContextLock => toggleContextLock st
  | Input value => input value st
  | AiContextSuggestion context => ai_context_suggestion context st
  | AiUpdatedTimeout => aiUpdatedTimeout st
  | AcceptAiSuggestion => acceptAiSuggestion st
  | StreamerChange value => streamerChange value st
  | ContextSubmit => contextSubmit st
  | Keypress key => keypress key st
  | LockStates streamer_locked context_locked =>
      lockStates streamer_locked context_locked st
  end.

Definition run (st : State) (events : list Event) : State :=
  foldl handle st events.

(** The buttons show the locks. *)
Definition mirrored (st : State) : Prop :=
  (has_streamerLockBtn page = true ->
   streamerLockBtn st = lockButton (streamerLocked st))
  /\ (has_contextLockBtn page = true ->
      contextLockBtn st = lockButton (contextLocked st)).

(** The counter shows the length of the value. *)
Definition counting (st : State) : Prop :=
  charCount st = counted (inputValue st).

(** The indicator is up exactly while a suggestion is kept. *)
Definition indicating (st : State) : Prop :=
  indicatorHidden st = bool_decide (pendingAiContext st = None)
  /\ indicatorFlex st = negb (indicatorHidden st).

End Page.

(** The lock messages among those sent, in order. *)
Definition streamerLocks (messages : list Message) : list bool :=
  omap (λ m, match m with Set_streamer_lock b => Some b | _ => None end)
       messages.

(** The last truthy suggestion of a run of suggestions, if any. *)
Definition lastSuggestion (contexts : list (option string))
    : option string :=
  last (filter (λ c, truthy c = true) (omap id contexts)).

End Controls.

(** ** [ui/drawer_controller.js]: the older copy of the controller

    The file holds the controller twice.  The older copy, the second in the
    file, does not catch what a stop function throws, does not run the
    scripts of a fragment, and starts the refresh of a drawer in the call
    itself, inside the [try] block, not in a timer. *)

Module OlderDrawer.

Import JS Drawer.

(** The loop of [stopAllDrawerRefreshes]: the calls made, and whether one
    of them threw, which ends the loop. *)
Fixpoint stopCalls (w : gmap string Fn) (fnNames : list string)
    : list Effect * bool :=
  match fnNames with
  | [] => ([], false)
  | fnName :: rest =>
      match w !! fnName with
      | None => stopCalls w rest
      | Some Returns =>
          let '(effects, threw) := stopCalls w rest in
          (Call fnName :: effects, threw)
      | Some Throws => ([Call fnName], true)
      end
  end.

(** A call, with whether it threw. *)
Definition stopAllDrawerRefreshes (st : State) : State * bool :=
  let '(effects, threw) := stopCalls (window st) stopFunctions in
  (emit effects st, threw).

Section Controller.

Variable page : Page.
Variable toUpperCase : string -> string.
Variable querySelector : string -> list Button -> string + option nat.

(** The message of the error that the function of a name throws. *)
Variable thrown : string -> string.

Definition closeDebugDrawer (st : State) : State * bool :=
  let st :=
    {| currentDebugDrawer := currentDebugDrawer st;
       drawerOpen := if has_drawer page then false else drawerOpen st;
       overlayVisible :=
         if has_overlay page then false else overlayVisible st;
       contentHTML := contentHTML st; buttons := buttons st;
       window := window st; pending := pending st; timers := timers st;
       trace := trace st |} in
  let '(st, threw) := stopAllDrawerRefreshes st in
  if threw then (st, true)
  else
    ({| currentDebugDrawer := None;
        drawerOpen := drawerOpen st; overlayVisible := overlayVisible st;
        contentHTML := contentHTML st;
        buttons := deactivate <$> buttons st;
        window := window st; pending := pending st; timers := timers st;
        trace := trace st |}, false).

(** The call of [openDebugDrawer], up to the fetch; what it throws rejects
    the promise of the call and is seen nowhere. *)
Definition openDebugDrawer (drawerName : string) (st : State) : State :=
  if negb (has_drawer page && has_overlay page && has_content page)
  then emit [ConsoleError "Debug drawer elements not found"] st
  else if bool_decide (currentDebugDrawer st = Some drawerName)
  then (closeDebugDrawer st).1
  else
    let '(st, threw) := stopAllDrawerRefreshes st in
    if threw then st
    else
      let st :=
        emit [Fetch ("/static/drawers/" +:+ drawerName +:+ ".html")] st in
      {| currentDebugDrawer := currentDebugDrawer st;
         drawerOpen := drawerOpen st; overlayVisible := overlayVisible st;
         contentHTML := contentHTML st; buttons := buttons st;
         window := window st; pending := pending st ++ [drawerName];
         timers := timers st; trace := trace st |}.

(** The rest of [openDebugDrawer], once its fetch has settled. *)
Definition fetchSettled (drawerName : string) (r : Response) (st : State)
    : State :=
  if bool_decide (drawerName ∈ pending st)
  then
    let st :=
      {| currentDebugDrawer := currentDebugDrawer st;
         drawerOpen := drawerOpen st; overlayVisible := overlayVisible st;
         contentHTML := contentHTML st; buttons := buttons st;
         window := window st; pending := removeFirst drawerName (pending st);
         timers := timers st; trace := trace st |} in
    match r with
    | Rejected message => loadFailed message st
    | Status status =>
        loadFailed ("Failed to load drawer: " +:+ digits status) st
    | Ok html =>
        let cleared := deactivate <$> buttons st in
        let loaded :=
          {| currentDebugDrawer := currentDebugDrawer st;
             drawerOpen := drawerOpen st; overlayVisible := overlayVisible st;
             contentHTML := html; buttons := cleared;
             window := window st; pending := pending st; timers := timers st;
             trace := trace st |} in
        match querySelector
                (".debug-nav-btn[data-drawer=" +:+ Markup.dq +:+ drawerName
                 +:+ Markup.dq +:+ "]") cleared with
        | inl message => loadFailed message loaded
        | inr activeBtn =>
            let opened :=
              {| currentDebugDrawer := Some drawerName;
                 drawerOpen := true; overlayVisible := true;
                 contentHTML := html;
                 buttons := match activeBtn with
                            | Some k => alter activate k cleared
                            | None => cleared
                            end;
                 window := window st; pending := pending st;
                 timers := timers st; trace := trace st |} in
            let refreshFnName := refreshFnName toUpperCase drawerName in
            match window st !! refreshFnName with
            | None => opened
            | Some Returns => emit [Call refreshFnName] opened
            | Some Throws =>
                loadFailed (thrown refreshFnName)
                           (emit [Call refreshFnName] opened)
            end
        end
    end
  else st.

(** The two listeners that close the drawer; what the call throws is an
    error of the listener. *)
Definition overlayClick (st : State) : State := (closeDebugDrawer st).1.

Definition escapeKey (st : State) : State :=
  match currentDebugDrawer st with
  | Some name => if truthy name then (closeDebugDrawer st).1 else st
  | None => st
  end.

(** The steps of the page; this copy sets no timer. *)
Definition step (st : State) (s : Step) : State :=
  match s with
  | OpenDebugDrawer name => openDebugDrawer name st
  | FetchSettled name r => fetchSettled name r st
  | RefreshTimer name => st
  | CloseDebugDrawer => (closeDebugDrawer st).1
  | OverlayClick => overlayClick st
  | EscapeKey => escapeKey st
  | ScriptsRan w => scriptsRan w st
  end.

Definition run (st : State) (steps : list Step) : State := foldl step st steps.

End Controller.

(** The fetches among the effects. *)
Definition fetches (effects : list Effect) : list string :=
  omap (λ e, match e with Fetch url => Some url | _ => None end) effects.

(** One of the stop functions throws. *)
Definition stopThrows (w : gmap string Fn) : Prop :=
  exists fnName, fnName ∈ stopFunctions /\ w !! fnName = Some Throws.

(** What a throwing stop function leaves of a state [st]: the window, the
    drawer that is current, the buttons and the content stay; the drawer
    does not open; nothing is under way and nothing more is fetched. *)
Definition wedged (st st' : State) : Prop :=
  window st' = window st
  /\ pending st' = []
  /\ currentDebugDrawer st' = currentDebugDrawer st
  /\ buttons st' = buttons st
  /\ contentHTML st' = contentHTML st
  /\ (drawerOpen st' = true -> drawerOpen st = true)
  /\ fetches (trace st') = fetches (trace st).

(** A step that leaves the functions of [window] as they are. *)
Definition keepsWindow (s : Step) : bool :=
  match s with
  | ScriptsRan _ => false
  | _ => true
  end.

(** No function of [window] throws, and no script of a step defines one
    that does. *)
Definition quiet (w : gmap string Fn) : Prop :=
  forall fnName, w !! fnName ≠ Some Throws.

Definition quietStep (s : Step) : Prop :=
  match s with
  | ScriptsRan w => quiet w
  | _ => True
  end.

(** What the two copies can agree on: all of the state but the timers and
    the effects. *)
Definition sameView (st st' : State) : Prop :=
  currentDebugDrawer st = currentDebugDrawer st'
  /\ drawerOpen st = drawerOpen st'
  /\ overlayVisible st = overlayVisible st'
  /\ contentHTML st = contentHTML st'
  /\ buttons st = buttons st'
  /\ window st = window st'
  /\ pending st = pending st'.

End OlderDrawer.

(** ** Sample inputs for the drawers and the controls *)

Module MoreSamples.

(** A page with the four elements of the context drawer, one without the
    element of the reply, and the drawer as the page starts: closed and
    empty. *)
Definition contextPage : ContextDrawer.Elements :=
  {| ContextDrawer.has_drawer_sent := true;
     ContextDrawer.has_drawer_reply := true;
     ContextDrawer.has_context_drawer := true;
     ContextDrawer.has_context_drawer_overlay := true |}.

Definition pageWithoutReply : ContextDrawer.Elements :=
  {| ContextDrawer.has_drawer_sent := true;
     ContextDrawer.has_drawer_reply := false;
     ContextDrawer.has_context_drawer := true;
     ContextDrawer.has_context_drawer_overlay := true |}.

Definition closedView : ContextDrawer.View :=
  {| ContextDrawer.sentText := "";
     ContextDrawer.replyContent := ContextDrawer.TextContent "";
     ContextDrawer.borderColor := "";
     ContextDrawer.backgroundColor := "";
     ContextDrawer.translated := true;
     ContextDrawer.hidden := true |}.

Definition censoredReply : Script.BotReply :=
  {| Script.reply := "<b>no</b> & no";
     Script.prompt := Some "say it";
     Script.is_censored := true;
     Script.censorship_reason := Some "word";
     Script.filtered_area := None |}.

(** A line whose prompt ends in the middle of an escape sequence. *)
Definition malformedLine : ContextDrawer.Line :=
  {| ContextDrawer.data_reply := Some "ok";
     ContextDrawer.data_sent := Some "50%";
     ContextDrawer.data_censored := Some "false";
     ContextDrawer.data_reason := None;
     ContextDrawer.data_filtered_area := None |}.

(** A page with all the controls, and the controls as the page starts,
    with the context unlocked and with the context locked. *)
Definition controlsPage : Controls.Elements :=
  {| Controls.has_contextInput := true;
     Controls.has_contextCharCount := true;
     Controls.has_streamerLockBtn := true;
     Controls.has_contextLockBtn := true;
     Controls.has_aiSuggestionIndicator := true;
     Controls.has_aiSuggestionText := true;
     Controls.has_acceptAiSuggestionBtn := true;
     Controls.has_contextSubmit := true;
     Controls.has_streamerSelect := true |}.

Definition controls (locked : bool) : Controls.State :=
  {| Controls.streamerLocked := false;
     Controls.contextLocked := locked;
     Controls.pendingAiContext := None;
     Controls.streamerLockBtn := Controls.lockButton false;
     Controls.contextLockBtn := Controls.lockButton locked;
     Controls.inputValue := "";
     Controls.aiUpdated := false;
     Controls.aiUpdatedTimers := 0;
     Controls.charCount := "0/120";
     Controls.charCountRed := false;
     Controls.suggestionText := "";
     Controls.indicatorHidden := true;
     Controls.indicatorFlex := false;
     Controls.emitted := [] |}.

(** A window whose first stop function throws, and the message of what
    it throws. *)
Definition throwingWindow : gmap string Drawer.Fn :=
  {[ "stopThreadStatsRefresh" := Drawer.Throws ]}.

Definition thrown (fnName : string) : string := fnName +:+ " failed".

End MoreSamples.

(** * Properties *)

(** ** Strings *)

Section StringFacts.

Import JS.

Implicit Types (s r : string) (c : ascii).

Local Arguments String.append !s1 s2 : simpl nomatch.

Lemma append_assoc s1 s2 s3 : (s1 +:+ s2) +:+ s3 = s1 +:+ (s2 +:+ s3).
Proof. induction s1 as [|c s1 IH]; simpl; [done|]. by f_equal. Qed.

Lemma append_nil_r s : s +:+ "" = s.
Proof. induction s as [|c s IH]; simpl; [done|]. by f_equal. Qed.

Lemma length_append s r :
  String.length (s +:+ r) = (String.length s + String.length r)%nat.
Proof. induction s as [|c s IH]; simpl; [done|]. by rewrite IH. Qed.

Lemma substring_dropChars s : forall n,
  String.substring 0 n s +:+ dropChars n s = s.
Proof.
  induction s as [|c s IH]; intros [|n]; simpl; try done.
  by rewrite IH.
Qed.

Lemma substring_to_end s : forall k,
  String.substring k (String.length s - k) s = dropChars k s.
Proof.
  induction s as [|c s IH]; intros [|k]; simpl; try done.
  specialize (IH 0%nat). rewrite Nat.sub_0_r in IH. simpl in IH.
  by rewrite IH.
Qed.

End StringFacts.

(** ** Bounded queues *)

Section QueueFacts.

Import JS Feed.

Context {A : Type}.
Implicit Types (l m xs : list A) (x : A) (n : nat) (cap : Z).

Lemma lastn_all n l : (length l <= n)%nat -> lastn n l = l.
Proof.
  intros Hle. unfold lastn.
  replace (length l - n)%nat with 0%nat by lia. reflexivity.
Qed.

Lemma length_lastn n l : length (lastn n l) = (n `min` length l)%nat.
Proof. unfold lastn. rewrite length_drop. lia. Qed.

Lemma lastn_app_lastn n l m : lastn n (lastn n l ++ m) = lastn n (l ++ m).
Proof.
  destruct (decide (length l <= n)%nat) as [Hle|Hgt].
  - by rewrite (lastn_all n l).
  - unfold lastn at 1 3. rewrite !length_app, length_lastn.
    unfold lastn.
    replace (n `min` length l + length m - n)%nat with (length m) by lia.
    rewrite <- (drop_app_le l m (length l - n)) by lia.
    rewrite drop_drop. f_equal. lia.
Qed.

Lemma lastn_0 l : lastn 0 l = [].
Proof. unfold lastn. rewrite Nat.sub_0_r. apply drop_all. Qed.

Lemma pushBounded_lastn cap l x :
  (length l <= Z.to_nat cap)%nat ->
  pushBounded cap l x = lastn (Z.to_nat cap) (l ++ [x]).
Proof.
  intros Hle. unfold pushBounded, push, shift, len, lastn.
  rewrite length_app. simpl. case_bool_decide as Hcap.
  - f_equal. lia.
  - replace (length l + 1 - Z.to_nat cap)%nat with 0%nat by lia.
    reflexivity.
Qed.

Lemma pushBounded_length cap l x :
  (length l <= Z.to_nat cap)%nat ->
  (length (pushBounded cap l x) <= Z.to_nat cap)%nat.
Proof.
  intros Hle. rewrite pushBounded_lastn by done.
  rewrite length_lastn. lia.
Qed.

(** A run of bounded pushes keeps the last [cap] entries of everything
    pushed. *)
Lemma foldl_pushBounded cap xs l :
  (length l <= Z.to_nat cap)%nat ->
  foldl (pushBounded cap) l xs = lastn (Z.to_nat cap) (l ++ xs).
Proof.
  revert l. induction xs as [|x xs IH]; intros l Hle; simpl.
  - rewrite app_nil_r. by rewrite lastn_all.
  - rewrite IH by by apply pushBounded_length.
    rewrite pushBounded_lastn by done.
    rewrite lastn_app_lastn. by rewrite <- app_assoc.
Qed.

End QueueFacts.

(** ** The tree of the document *)

Section TreeFacts.

Import JS DOM.

Implicit Types (n m : Node) (l : list Node) (p q : Path) (i j : string)
  (f : Node -> Node).

Lemma Node_ind' (P : Node -> Prop) :
  (forall data, P (Text data)) ->
  (forall a children, Forall P children -> P (Elem a children)) ->
  forall n, P n.
Proof.
  intros HText HElem. fix IH 1. intros [data|a children]; [apply HText|].
  apply HElem.
  induction children as [|m rest IHrest]; constructor;
    [apply IH|apply IHrest].
Qed.

Lemma pathIn_Elem i a children :
  pathIn i (Elem a children)
  = if bool_decide (id a = Some i) then Some [] else pathAmong i children.
Proof.
  cbn [pathIn]. destruct (bool_decide _); [done|].
  induction children as [|m rest IH]; [done|].
  cbn [pathAmong]. destruct (pathIn i m); [done|]. by rewrite IH.
Qed.

Lemma every_Elem (P : Node -> bool) a children :
  every P (Elem a children)
  = P (Elem a children) && everyAmong P children.
Proof.
  cbn [every]. f_equal.
  induction children as [|m rest IH]; [done|].
  cbn [everyAmong]. by rewrite IH.
Qed.

Lemma every_here (P : Node -> bool) n : every P n = true -> P n = true.
Proof. destruct n; cbn [every]; by intros [? _]%andb_true_iff. Qed.

Lemma every_childNodes (P : Node -> bool) n :
  every P n = true -> everyAmong P (childNodes n) = true.
Proof.
  destruct n as [data|a children]; [done|].
  rewrite every_Elem. by intros [_ ?]%andb_true_iff.
Qed.

Lemma every_set_childNodes (P : Node -> bool) n l :
  P (set_childNodes l n) = true ->
  everyAmong P l = true ->
  every P (set_childNodes l n) = true.
Proof.
  destruct n as [data|a children]; cbn [set_childNodes].
  - intros HP _. cbn. by rewrite HP.
  - intros HP Hl. rewrite every_Elem. by rewrite HP, Hl.
Qed.

Lemma everyAmong_Forall (P : Node -> bool) l :
  everyAmong P l = true <-> Forall (λ n, every P n = true) l.
Proof.
  induction l as [|m rest IH]; cbn [everyAmong].
  - split; [constructor|done].
  - rewrite andb_true_iff, Forall_cons, IH. done.
Qed.

Lemma everyAmong_app (P : Node -> bool) l k :
  everyAmong P (l ++ k) = everyAmong P l && everyAmong P k.
Proof.
  induction l as [|m rest IH]; [done|].
  cbn [app everyAmong]. by rewrite IH, andb_assoc.
Qed.

(** *** Positions *)

Lemma next_nonempty p : p ≠ [] -> next p ≠ [].
Proof. by destruct p. Qed.

Lemma pathAmong_nonempty i l : pathAmong i l ≠ Some [].
Proof.
  induction l as [|m rest IH]; [done|].
  cbn [pathAmong]. destruct (pathIn i m); [done|].
  destruct (pathAmong i rest) as [[|k p]|]; done.
Qed.

Lemma nodeAt_cons_0 p m l :
  nodeAt (O :: p) (m :: l)
  = match p with [] => Some m | _ :: _ => nodeAt p (childNodes m) end.
Proof. done. Qed.

Lemma nodeAt_next p m l : p ≠ [] -> nodeAt (next p) (m :: l) = nodeAt p l.
Proof. by destruct p. Qed.

Lemma updateAt_next p f m l :
  p ≠ [] -> updateAt (next p) f (m :: l) = m :: updateAt p f l.
Proof. by destruct p. Qed.

(** The element at the position found carries the id. *)
Lemma pathAmong_found i l :
  Forall (λ n, forall p, pathIn i n = Some p -> foundIn i n p) l ->
  forall p, pathAmong i l = Some p ->
            exists n, nodeAt p l = Some n /\ hasId i n = true.
Proof.
  induction 1 as [|m rest Hm _ IH]; intros p; [done|].
  cbn [pathAmong]. destruct (pathIn i m) as [q|].
  - intros [= <-]. rewrite nodeAt_cons_0. specialize (Hm q eq_refl).
    destruct q as [|k q]; [by exists m|done].
  - destruct (pathAmong i rest) as [q|] eqn:Hrestq; [|done].
    intros [= <-].
    assert (q ≠ []) as Hne.
    { intros ->. by apply (pathAmong_nonempty i rest). }
    rewrite nodeAt_next by done. by apply IH.
Qed.

Lemma pathIn_hasId i n : forall p, pathIn i n = Some p -> foundIn i n p.
Proof.
  induction n as [data|a children IH] using Node_ind'; intros p; [done|].
  rewrite pathIn_Elem. unfold foundIn, hasId. cbn [idOf childNodes].
  destruct (bool_decide (id a = Some i)) eqn:Hid.
  { by intros [= <-]. }
  intros Hp. destruct p as [|k p].
  { by destruct (pathAmong_nonempty i children). }
  by apply pathAmong_found.
Qed.

Lemma pathAmong_hasId i l p :
  pathAmong i l = Some p ->
  exists n, nodeAt p l = Some n /\ hasId i n = true.
Proof.
  apply pathAmong_found. apply Forall_forall. intros n _.
  apply pathIn_hasId.
Qed.

Lemma nodeAt_nil p : nodeAt p [] = None.
Proof. destruct p as [|k p]; [done|]. cbn. by rewrite lookup_nil. Qed.

Lemma nodeAt_updateAt p f : forall l n,
  nodeAt p l = Some n -> nodeAt p (updateAt p f l) = Some (f n).
Proof.
  induction p as [|k p IH]; intros l n; [done|].
  cbn [nodeAt updateAt]. rewrite list_lookup_alter, decide_True by done.
  destruct (l !! k) as [m|]; [|done]. cbn.
  destruct p as [|k' p]; [by intros [= ->]|].
  intros Hn. destruct m as [data|a children].
  { cbn [childNodes] in Hn. by rewrite nodeAt_nil in Hn. }
  cbn [childNodes set_childNodes]. by apply IH.
Qed.

Lemma nodeAt_isElement_above k p l m :
  nodeAt (k :: p) l = Some m -> p ≠ [] ->
  exists n, l !! k = Some n /\ isElement n = true.
Proof.
  cbn [nodeAt]. destruct (l !! k) as [n|]; [|done].
  destruct p as [|k' p]; [done|]. intros Hm _.
  exists n. split; [done|]. destruct n; [|done].
  cbn [childNodes] in Hm. by rewrite nodeAt_nil in Hm.
Qed.

Lemma nodeAt_app p q : forall l,
  p ≠ [] -> q ≠ [] ->
  nodeAt (p ++ q) l
  = match nodeAt p l with
    | Some n => nodeAt q (childNodes n)
    | None => None
    end.
Proof.
  induction p as [|k p IH]; intros l Hp Hq; [done|].
  cbn [app nodeAt]. destruct (l !! k) as [n|]; [|done].
  destruct p as [|k' p].
  - cbn [app]. by destruct q.
  - cbn [app]. cbn [app] in IH. by apply IH.
Qed.

Lemma updateAt_app p q f : forall l,
  p ≠ [] -> q ≠ [] ->
  updateAt (p ++ q) f l
  = updateAt p (λ n, set_childNodes (updateAt q f (childNodes n)) n) l.
Proof.
  induction p as [|k p IH]; intros l Hp Hq; [done|].
  cbn [app updateAt]. apply list_alter_ext; [|done..].
  intros n _. destruct p as [|k' p].
  - cbn [app]. by destruct q.
  - cbn [app]. cbn [app] in IH. by rewrite IH.
Qed.

Lemma updateAt_singleton k f l : updateAt [k] f l = alter f k l.
Proof. done. Qed.

(** *** The search *)

Lemma Node_list_ind (P : Node -> Prop) (Q : list Node -> Prop) :
  (forall data, P (Text data)) ->
  (forall a children, Q children -> P (Elem a children)) ->
  Q [] ->
  (forall m rest, P m -> Q rest -> Q (m :: rest)) ->
  (forall n, P n) /\ (forall l, Q l).
Proof.
  intros HText HElem Hnil Hcons.
  assert (HP : forall n, P n).
  { fix IH 1. intros [data|a children]; [apply HText|]. apply HElem.
    induction children as [|m rest IHrest]; [apply Hnil|].
    apply Hcons; [apply IH|apply IHrest]. }
  split; [done|].
  induction l as [|m rest IH]; [done|]. by apply Hcons.
Qed.

Lemma hasId_isElement i n : hasId i n = true -> isElement n = true.
Proof. by destruct n. Qed.

Lemma pathIn_here i n : hasId i n = true -> pathIn i n = Some [].
Proof.
  destruct n as [data|a children]; [done|].
  unfold hasId. cbn [idOf]. rewrite pathIn_Elem. by intros ->.
Qed.

Lemma pathIn_nil i n : pathIn i n = Some [] -> hasId i n = true.
Proof. apply pathIn_hasId. Qed.

Lemma pathIn_None_hasId i n : pathIn i n = None -> hasId i n = false.
Proof.
  destruct n as [data|a children]; [done|].
  unfold hasId. cbn [idOf]. rewrite pathIn_Elem.
  by destruct (bool_decide _).
Qed.

(** A change of the element found, if it keeps the id, leaves the element
    the one found: the search comes to it before it looks below it, and
    what comes before it is as it was. *)
Lemma pathAmong_updateAt i f :
  (forall n, hasId i n = true -> hasId i (f n) = true) ->
  forall l p, pathAmong i l = Some p -> pathAmong i (updateAt p f l) = Some p.
Proof.
  intros Hf.
  apply (Node_list_ind
           (λ n, forall q, pathIn i n = Some q -> q ≠ [] ->
                   pathIn i (set_childNodes (updateAt q f (childNodes n)) n)
                   = Some q)
           (λ l, forall p, pathAmong i l = Some p ->
                   pathAmong i (updateAt p f l) = Some p)).
  - done.
  - intros a children IH q. rewrite pathIn_Elem.
    cbn [childNodes set_childNodes]. rewrite pathIn_Elem.
    destruct (bool_decide (id a = Some i)); [by intros [= <-]|].
    intros Hq _. by apply IH.
  - done.
  - intros m rest IHm IHrest p. cbn [pathAmong].
    destruct (pathIn i m) as [q|] eqn:Hm.
    + intros [= <-]. cbn [updateAt]. cbn [alter list_alter].
      destruct q as [|k q].
      * cbn [pathAmong]. by rewrite pathIn_here by by apply Hf, pathIn_nil.
      * cbn [pathAmong]. by rewrite IHm.
    + destruct (pathAmong i rest) as [q|] eqn:Hrest; [|done].
      intros [= <-].
      assert (q ≠ []) as Hne.
      { intros ->. by apply (pathAmong_nonempty i rest). }
      rewrite updateAt_next by done. cbn [pathAmong].
      by rewrite Hm, IHrest.
Qed.

Lemma hasId_set_childNodes i l n :
  hasId i (set_childNodes l n) = hasId i n.
Proof. by destruct n. Qed.

Lemma hasId_classList_add i token n :
  hasId i (classList_add token n) = hasId i n.
Proof. by destruct n. Qed.

(** A change below the element found leaves it the one found. *)
Lemma pathAmong_updateAt_below i f l p q :
  pathAmong i l = Some p -> q ≠ [] ->
  pathAmong i (updateAt (p ++ q) f l) = Some p.
Proof.
  intros Hp Hq.
  rewrite updateAt_app;
    [|by intros ->; apply (pathAmong_nonempty i l)|done].
  apply pathAmong_updateAt; [|done].
  intros n. by rewrite hasId_set_childNodes.
Qed.

Lemma nodeAt_updateAt_below p q f l n :
  nodeAt p l = Some n -> q ≠ [] ->
  nodeAt p (updateAt (p ++ q) f l)
  = Some (set_childNodes (updateAt q f (childNodes n)) n).
Proof.
  intros Hn Hq. assert (p ≠ []) by by intros ->.
  rewrite updateAt_app by done.
  by apply (nodeAt_updateAt p
              (λ m, set_childNodes (updateAt q f (childNodes m)) m)).
Qed.

Lemma childNodes_set_childNodes l n :
  isElement n = true -> childNodes (set_childNodes l n) = l.
Proof. by destruct n. Qed.

Lemma isElement_set_childNodes l n :
  isElement (set_childNodes l n) = isElement n.
Proof. by destruct n. Qed.

End TreeFacts.
(** ** Lookups in the document *)

Section LookupFacts.

Import JS DOM Markup Script Feed.

Implicit Types (doc : Document) (i : string) (p : Path) (n : Node)
  (c : list Node).

Lemma getElementById_nodeAt doc i p :
  getElementById doc i = Some p ->
  exists n, nodeAt p doc = Some n /\ hasId i n = true.
Proof. apply pathAmong_hasId. Qed.

Lemma childNodesOf_found doc i p n :
  getElementById doc i = Some p -> nodeAt p doc = Some n ->
  childNodesOf doc i = Some (childNodes n).
Proof. unfold childNodesOf, elementById. by intros -> ->. Qed.

Lemma childNodesOf_inv doc i c :
  childNodesOf doc i = Some c ->
  exists p n, getElementById doc i = Some p /\ nodeAt p doc = Some n
              /\ hasId i n = true /\ childNodes n = c.
Proof.
  unfold childNodesOf, elementById.
  destruct (getElementById doc i) as [p|] eqn:Hp; [|done].
  destruct (getElementById_nodeAt _ _ _ Hp) as (n & Hn & Hid).
  rewrite Hn. intros [= <-]. by exists p, n.
Qed.

Lemma childNodesOf_is_Some doc i :
  is_Some (getElementById doc i) <-> is_Some (childNodesOf doc i).
Proof.
  split.
  - intros [p Hp]. destruct (getElementById_nodeAt _ _ _ Hp) as (n & Hn & _).
    rewrite (childNodesOf_found _ _ p n) by done. eauto.
  - intros [c Hc]. apply childNodesOf_inv in Hc as (p & _ & -> & _). eauto.
Qed.

Lemma childNodesOf_None doc i :
  getElementById doc i = None -> childNodesOf doc i = None.
Proof. unfold childNodesOf, elementById. by intros ->. Qed.

(** The children of the element found change, and it stays the element
    found. *)
Lemma childNodesOf_update doc i p c (g : list Node -> list Node) :
  getElementById doc i = Some p ->
  childNodesOf doc i = Some c ->
  let doc' := updateAt p (λ n, set_childNodes (g (childNodes n)) n) doc in
  getElementById doc' i = Some p /\ childNodesOf doc' i = Some (g c).
Proof.
  intros Hp Hc doc'.
  apply childNodesOf_inv in Hc as (p' & n & Hp' & Hn & Hid & <-).
  assert (p' = p) as -> by congruence.
  assert (getElementById doc' i = Some p) as Hp2.
  { apply pathAmong_updateAt; [|done].
    intros m. by rewrite hasId_set_childNodes. }
  split; [done|].
  rewrite (childNodesOf_found doc' i p
             (set_childNodes (g (childNodes n)) n)); [|done|].
  - by rewrite childNodes_set_childNodes by by eapply hasId_isElement.
  - by apply (nodeAt_updateAt p
                (λ m, set_childNodes (g (childNodes m)) m)).
Qed.

End LookupFacts.

(** ** Ambient panels: [updateAmbientLog] *)

Section AmbientFacts.

Import JS DOM Markup Script Feed.

Implicit Types (doc : Document) (log xs : list string) (cap : Z) (p : Path).

Lemma updateAmbientLogWith_push cap i log x cls doc p :
  getElementById doc i = Some p ->
  updateAmbientLogWith cap i log x cls false doc
  = (pushBounded cap log x,
     updateAt p (set_childNodes (ambientDiv cls <$> pushBounded cap log x))
              doc).
Proof.
  intros Hp. unfold updateAmbientLogWith, pushBounded. by rewrite Hp.
Qed.

Lemma updateAmbientLogWith_absent cap i log x cls upd doc :
  getElementById doc i = None ->
  updateAmbientLogWith cap i log x cls upd doc = (log, doc).
Proof. intros Hc. unfold updateAmbientLogWith. by rewrite Hc. Qed.

(** The panel is still found after the update, and holds the lines. *)
Lemma set_childNodes_found doc i p (l : list Node) :
  getElementById doc i = Some p ->
  getElementById (updateAt p (set_childNodes l) doc) i = Some p
  /\ childNodesOf (updateAt p (set_childNodes l) doc) i = Some l.
Proof.
  intros Hp.
  destruct (proj1 (childNodesOf_is_Some doc i)) as [c Hc]; [eauto|].
  apply (childNodesOf_update doc i p c (λ _, l) Hp Hc).
Qed.

Lemma appendAll_log cap i cls xs : forall log doc,
  is_Some (getElementById doc i) ->
  (length log <= Z.to_nat cap)%nat ->
  (appendAll cap i cls xs (log, doc)).1 = lastn (Z.to_nat cap) (log ++ xs).
Proof.
  unfold appendAll.
  induction xs as [|x xs IH]; intros log doc [p Hp] Hlen; simpl.
  - rewrite app_nil_r. by rewrite lastn_all.
  - rewrite (updateAmbientLogWith_push _ _ _ _ _ _ p) by done.
    rewrite IH.
    + rewrite pushBounded_lastn by done.
      rewrite lastn_app_lastn. by rewrite <- app_assoc.
    + exists p. by apply set_childNodes_found.
    + by apply pushBounded_length.
Qed.

Lemma appendAll_rendered cap i cls xs : forall log doc,
  childNodesOf doc i = Some (ambientDiv cls <$> log) ->
  let r := appendAll cap i cls xs (log, doc) in
  childNodesOf r.2 i = Some (ambientDiv cls <$> r.1).
Proof.
  unfold appendAll.
  induction xs as [|x xs IH]; intros log doc Hdoc; simpl; [done|].
  destruct (proj2 (childNodesOf_is_Some doc i)) as [p Hp]; [eauto|].
  rewrite (updateAmbientLogWith_push _ _ _ _ _ _ p) by done.
  apply IH. by apply set_childNodes_found.
Qed.

End AmbientFacts.

(** ** Log elements: [appendLog] *)

Section AppendLogFacts.

Import JS DOM Markup Script Feed.

Variable parseHTML : string -> list Node.

Implicit Types (doc : Document) (c : list Node) (p : Path).

Lemma elementChildren_app (a b : list Node) :
  elementChildren (a ++ b) = elementChildren a ++ elementChildren b.
Proof. apply filter_app. Qed.

Lemma lastn_cons_full {A} (n : nat) (x : A) (l : list A) :
  (n <= length l)%nat -> lastn n (x :: l) = lastn n l.
Proof.
  intros Hle. unfold lastn. simpl.
  replace (S (length l) - n)%nat with (S (length l - n)) by lia.
  reflexivity.
Qed.

(** The loop of [appendLog] leaves the last [MAX_LOG_LINES] element
    children, whatever text nodes stand between them. *)
Lemma removeOverflow_elements (children : list Node) :
  elementChildren (removeOverflow children)
  = lastn (Z.to_nat MAX_LOG_LINES) (elementChildren children).
Proof.
  induction children as [|n rest IH]; [done|].
  cbn [removeOverflow]. case_bool_decide as Hover.
  - rewrite IH. unfold childElementCount, MAX_LOG_LINES in *.
    unfold elementChildren in *. rewrite filter_cons in *.
    destruct (decide (isElement n = true)); [|done].
    simpl in Hover. rewrite lastn_cons_full; [done|]. lia.
  - rewrite lastn_all; [done|].
    unfold childElementCount, MAX_LOG_LINES in *. lia.
Qed.

Lemma removeOverflow_bound (children : list Node) :
  childElementCount (removeOverflow children) <= MAX_LOG_LINES.
Proof.
  unfold childElementCount. rewrite removeOverflow_elements, length_lastn.
  unfold MAX_LOG_LINES. lia.
Qed.

Lemma removeOverflow_suffix (children : list Node) :
  removeOverflow children `suffix_of` children.
Proof.
  induction children as [|n rest IH]; [done|].
  cbn [removeOverflow]. case_bool_decide; [|done].
  by apply suffix_cons_r.
Qed.

Lemma removeOverflow_within (children : list Node) :
  childElementCount children <= MAX_LOG_LINES ->
  removeOverflow children = children.
Proof.
  intros Hle. destruct children as [|n rest]; [done|].
  cbn [removeOverflow]. by rewrite bool_decide_eq_false_2 by lia.
Qed.

Lemma appendLog_present i html doc p c :
  getElementById doc i = Some p ->
  childNodesOf doc i = Some c ->
  let doc' := appendLog parseHTML (getElementById doc i) html doc in
  getElementById doc' i = Some p
  /\ childNodesOf doc' i = Some (removeOverflow (c ++ parseHTML html)).
Proof.
  intros Hp Hc. unfold appendLog. rewrite Hp.
  apply (childNodesOf_update doc i p c
           (λ c, removeOverflow (c ++ parseHTML html)) Hp Hc).
Qed.

Lemma appendLog_absent i html doc :
  getElementById doc i = None ->
  appendLog parseHTML (getElementById doc i) html doc = doc.
Proof. intros Hc. unfold appendLog. by rewrite Hc. Qed.

(** A run of [appendLog] calls keeps the last [MAX_LOG_LINES] elements of
    all the markup appended. *)
Lemma appendLogs_elements i htmls : forall doc c,
  childNodesOf doc i = Some c ->
  (length (elementChildren c) <= Z.to_nat MAX_LOG_LINES)%nat ->
  exists c',
    childNodesOf (appendLogs parseHTML i htmls doc) i = Some c'
    /\ elementChildren c'
       = lastn (Z.to_nat MAX_LOG_LINES)
               (elementChildren c
                ++ elementChildren (concat (parseHTML <$> htmls))).
Proof.
  unfold appendLogs.
  induction htmls as [|h htmls IH]; intros doc c Hc Hlen; simpl.
  - exists c. split; [done|]. rewrite app_nil_r. by rewrite lastn_all.
  - destruct (proj2 (childNodesOf_is_Some doc i)) as [p Hp]; [eauto|].
    destruct (appendLog_present i h doc p c Hp Hc) as [_ Hc1].
    destruct (IH _ _ Hc1) as (c' & Hc' & Hel).
    + rewrite removeOverflow_elements, length_lastn. lia.
    + exists c'. split; [done|]. rewrite Hel.
      rewrite removeOverflow_elements, lastn_app_lastn.
      by rewrite !elementChildren_app, <- app_assoc.
Qed.

End AppendLogFacts.

Section FifoFacts.

Import JS DOM Markup Script Feed.

(** C3.  A run of more than [cap] appends (no replacement) to an empty
    ambient log of capacity [cap] leaves exactly [cap] entries: the last
    [cap] texts appended, in order, and the panel shows them; at capacity 3
    the appends x, y, z, w leave y, z, w.  In the same way a run of
    [appendLog] calls leaves the last [MAX_LOG_LINES] elements of the markup
    appended. *)
Theorem fifo_keeps_last_entries :
  forall (parseHTML : string -> list Node) (cap : Z) (i cls : string)
         (xs : list string) (doc : Document),
    is_Some (getElementById doc i) ->
    0 <= cap ->
    cap < len xs ->
    let r := appendAll cap i cls xs ([], doc) in
    r.1 = lastn (Z.to_nat cap) xs
    /\ len r.1 = cap
    /\ childNodesOf r.2 i = Some (ambientDiv cls <$> r.1)
    /\ (appendAll 3 i cls ["x"; "y"; "z"; "w"] ([], doc)).1 = ["y"; "z"; "w"]
    /\ forall (htmls : list string) (c : list Node),
         childNodesOf doc i = Some c ->
         childElementCount c <= MAX_LOG_LINES ->
         exists c',
           childNodesOf (appendLogs parseHTML i htmls doc) i = Some c'
           /\ elementChildren c'
              = lastn (Z.to_nat MAX_LOG_LINES)
                      (elementChildren c
                       ++ elementChildren (concat (parseHTML <$> htmls))).
Proof.
  intros parseHTML cap i cls xs doc Hdoc Hcap Hlen r.
  assert (Hlog : r.1 = lastn (Z.to_nat cap) xs).
  { subst r. rewrite appendAll_log; [done|done|simpl; lia]. }
  repeat split.
  - done.
  - rewrite Hlog. unfold len in *. rewrite length_lastn. lia.
  - subst r. destruct xs as [|x xs]; [unfold len in Hlen; simpl in Hlen; lia|].
    destruct Hdoc as [p Hp].
    unfold appendAll. simpl.
    rewrite (updateAmbientLogWith_push _ _ _ _ _ _ p) by done.
    apply (appendAll_rendered cap i cls xs). by apply set_childNodes_found.
  - rewrite appendAll_log; [done|done|simpl; lia].
  - intros htmls c Hc Hcount. apply appendLogs_elements; [done|].
    unfold childElementCount, MAX_LOG_LINES in *. lia.
Qed.

End FifoFacts.
(** ** The transcript panel: [audio_context] *)

Section AudioFacts.

Import JS DOM Markup Script Feed.

Implicit Types (d : AudioContext) (children c : list Node)
  (feed : list Entry) (doc : Document) (p q : Path) (n : Node).

Local Arguments String.append !s1 s2 : simpl nomatch.

Lemma not_truthy (s : string) : truthy s = false -> s = "".
Proof. by destruct s. Qed.

Lemma textContent_set_textContent (s : string) n :
  isElement n = true -> textContent (set_textContent s n) = s.
Proof.
  destruct n as [data|a children]; [done|]. intros _.
  unfold set_textContent. cbn [set_childNodes].
  destruct (truthy s) eqn:Hs; cbn.
  - apply append_nil_r.
  - by rewrite (not_truthy s).
Qed.

Lemma hasId_set_textContent i (s : string) n :
  hasId i (set_textContent s n) = hasId i n.
Proof. by destruct n. Qed.

Lemma textContent_classList_add token n :
  textContent (classList_add token n) = textContent n.
Proof. by destruct n. Qed.

(** The item that a partial event rewrites keeps what it is and its id,
    and has the text of the event. *)
Lemma rewritten_item d n :
  let n' := classList_add "live-pulse" (set_textContent (audio_text d) n) in
  isElement n' = isElement n
  /\ idOf n' = idOf n
  /\ (isElement n = true -> textContent n' = audio_text d).
Proof.
  split; [by destruct n|]. split; [by destruct n|]. intros Hn.
  rewrite textContent_classList_add. by apply textContent_set_textContent.
Qed.

Lemma audio_item_entry d :
  isElement (audio_item d) = true
  /\ idOf (audio_item d) = entryId d
  /\ textContent (audio_item d) = audio_text d.
Proof.
  unfold audio_item, entryId.
  split; [|split].
  - by destruct (session_id d) as [sid|]; [destruct (truthy sid)|].
  - by destruct (session_id d) as [sid|]; [destruct (truthy sid)|].
  - apply textContent_set_textContent.
    by destruct (session_id d) as [sid|]; [destruct (truthy sid)|].
Qed.

Lemma existsb_carries_snapshot key children :
  existsb (carries key) (snapshot children)
  = bool_decide (is_Some (indexOfId key children)).
Proof.
  induction children as [|[t|a ch] rest IH]; simpl; [done| |].
  - rewrite IH. by destruct (indexOfId key rest).
  - unfold carries at 1, hasId. simpl.
    destruct (bool_decide (id a = Some key)); simpl; [done|].
    rewrite IH. by destruct (indexOfId key rest).
Qed.

Lemma snapshot_app a b : snapshot (a ++ b) = snapshot a ++ snapshot b.
Proof. apply omap_app. Qed.

Lemma snapshot_cons n rest :
  snapshot (n :: rest)
  = (if isElement n then [(idOf n, textContent n)] else []) ++ snapshot rest.
Proof. unfold snapshot. cbn. by destruct (isElement n). Qed.

Lemma snapshot_item d : snapshot [audio_item d] = [(entryId d, audio_text d)].
Proof.
  destruct (audio_item_entry d) as (He & Hi & Ht).
  unfold snapshot. cbn. by rewrite He, Hi, Ht.
Qed.

(** Replacing the text of the element found by id is replacing the text of
    the first entry that carries the id. *)
Lemma snapshot_alter key content (f : Node -> Node) children :
  (forall n, isElement n = true ->
             isElement (f n) = true /\ idOf (f n) = idOf n
             /\ textContent (f n) = content) ->
  forall k,
    indexOfId key children = Some k ->
    snapshot (alter f k children)
    = replaceFirst key content (snapshot children).
Proof.
  intros Hf. induction children as [|[t|a ch] rest IH]; intros k Hk;
    simpl in *.
  - done.
  - destruct (indexOfId key rest) as [k'|]; simplify_eq/=. by apply IH.
  - unfold carries, hasId in *. simpl in *. case_bool_decide; simplify_eq/=.
    + destruct (Hf (Elem a ch)) as (-> & -> & ->); done.
    + destruct (indexOfId key rest) as [k'|]; simplify_eq/=.
      f_equal. by apply IH.
Qed.

(** A change of one child that keeps what it is and its id keeps the ids
    of the entries. *)
Lemma snapshot_alter_ids (f : Node -> Node) children k :
  (forall n, isElement (f n) = isElement n /\ idOf (f n) = idOf n) ->
  (snapshot (alter f k children)).*1 = (snapshot children).*1.
Proof.
  intros Hf. revert k.
  induction children as [|n rest IH]; intros k; [done|].
  destruct k as [|k]; cbn [alter list_alter]; rewrite !snapshot_cons.
  - destruct (Hf n) as [-> Hid]. destruct (isElement n); [|done].
    cbn. by rewrite Hid.
  - by rewrite !fmap_app, IH.
Qed.

Lemma replaceFirst_ids key content feed :
  (replaceFirst key content feed).*1 = feed.*1.
Proof.
  induction feed as [|e rest IH]; simpl; [done|].
  destruct (carries key e); simpl; [done|]. f_equal. exact IH.
Qed.

Lemma replaceFirst_length key content feed :
  length (replaceFirst key content feed) = length feed.
Proof.
  rewrite <- (length_fmap fst (replaceFirst _ _ _)), replaceFirst_ids.
  apply length_fmap.
Qed.

(** The handler appends: the event is final, or no element of the
    document carries its key. *)
Lemma audio_document_append d doc p c :
  getElementById doc "audio-context" = Some p ->
  childNodesOf doc "audio-context" = Some c ->
  is_partial d = false \/ getElementById doc (lookupKey d) = None ->
  audio_document d doc = updateAt p (appendChild (audio_item d)) doc
  /\ getElementById (audio_document d doc) "audio-context" = Some p
  /\ childNodesOf (audio_document d doc) "audio-context"
     = Some (c ++ [audio_item d]).
Proof.
  intros Hp Hc Hcase.
  assert (audio_document d doc = updateAt p (appendChild (audio_item d)) doc)
    as ->.
  { unfold audio_document. rewrite Hp. fold (lookupKey d).
    destruct Hcase as [->| ->]; [done|]. by destruct (is_partial d). }
  split; [done|].
  apply (childNodesOf_update doc "audio-context" p c
           (λ c, c ++ [audio_item d]) Hp Hc).
Qed.

(** The handler rewrites: the event is partial and an element of the
    document carries its key. *)
Lemma audio_document_replace d doc p q :
  getElementById doc "audio-context" = Some p ->
  is_partial d = true ->
  getElementById doc (lookupKey d) = Some q ->
  audio_document d doc
  = updateAt q (λ n, classList_add "live-pulse"
                       (set_textContent (audio_text d) n)) doc.
Proof.
  intros Hp Hpartial Hq. unfold audio_document. rewrite Hp.
  fold (lookupKey d). by rewrite Hpartial, Hq.
Qed.

(** The item rewritten is a child of the panel. *)
Lemma audio_document_replace_child d doc p c k :
  getElementById doc "audio-context" = Some p ->
  childNodesOf doc "audio-context" = Some c ->
  is_partial d = true ->
  getElementById doc (lookupKey d) = Some (p ++ [k]) ->
  getElementById (audio_document d doc) "audio-context" = Some p
  /\ childNodesOf (audio_document d doc) "audio-context"
     = Some (alter (λ n, classList_add "live-pulse"
                           (set_textContent (audio_text d) n)) k c).
Proof.
  intros Hp Hc Hpartial Hq.
  rewrite (audio_document_replace d doc p (p ++ [k])) by done.
  apply childNodesOf_inv in Hc as (p' & n & Hp' & Hn & Hid & <-).
  assert (p' = p) as -> by congruence.
  split; [by apply pathAmong_updateAt_below|].
  erewrite childNodesOf_found;
    [|by apply pathAmong_updateAt_below|by apply nodeAt_updateAt_below].
  rewrite childNodes_set_childNodes by by eapply hasId_isElement.
  done.
Qed.

End AudioFacts.

Section TranscriptFacts.

Import JS DOM Markup Script Feed.

Variable parseHTML : string -> list Node.
Variable exponential : Q -> string.

Implicit Types (d : AudioContext) (children : list Node) (st : State).

Lemma final_audio_grows (ds : list AudioContext) : forall st c,
  childNodesOf (document st) "audio-context" = Some c ->
  Forall (λ d, is_partial d = false) ds ->
  childNodesOf (document (run parseHTML exponential st (Audio <$> ds)))
               "audio-context"
  = Some (c ++ (audio_item <$> ds)).
Proof.
  induction ds as [|d ds IH]; intros st c Hc Hfinal; simpl.
  - by rewrite app_nil_r.
  - inversion_clear Hfinal as [|? ? Hd Hds].
    destruct (proj2 (childNodesOf_is_Some (document st) "audio-context"))
      as [p Hp]; [eauto|].
    destruct (audio_document_append d (document st) p c Hp Hc)
      as (_ & _ & Hc'); [by left|].
    rewrite (IH _ (c ++ [audio_item d])) by done.
    by rewrite <- app_assoc.
Qed.

Lemma snapshot_items (ds : list AudioContext) :
  snapshot (audio_item <$> ds) = (λ d, (entryId d, audio_text d)) <$> ds.
Proof.
  induction ds as [|d ds IH]; [done|].
  change (audio_item <$> d :: ds) with ([audio_item d] ++ (audio_item <$> ds)).
  by rewrite snapshot_app, snapshot_item, IH.
Qed.

(** C1.  The transcript panel has no capacity: on a page that has the
    panel, every final [audio_context] event adds an entry and none is ever
    evicted, so a run of [n] such events leaves [n] more entries than there
    were, for every [n]. *)
Theorem audio_transcript_grows_without_bound :
  forall (ds : list AudioContext) (st : State) (c : list Node),
    childNodesOf (document st) "audio-context" = Some c ->
    Forall (λ d, is_partial d = false) ds ->
    exists c',
      childNodesOf (document (run parseHTML exponential st (Audio <$> ds)))
                   "audio-context"
      = Some c'
      /\ snapshot c' = snapshot c ++ ((λ d, (entryId d, audio_text d)) <$> ds)
      /\ len (snapshot c') = len (snapshot c) + len ds.
Proof.
  intros ds st c Hc Hfinal. eexists. split; [by apply final_audio_grows|].
  rewrite snapshot_app, snapshot_items. split; [done|].
  unfold len. rewrite length_app, length_fmap. lia.
Qed.

End TranscriptFacts.

Section IdentityFacts.

Import JS DOM Markup Script Feed Samples.

(** C2, as the code has it.  The handler of the transcript decides by a
    lookup in the document, under the key of the event: [session-] and the
    session id, and [session-undefined] for an event without one.  A
    partial event whose key an element carries has the first such element
    rewritten, wherever it stands: the element keeps its place and its id,
    takes the text of the event, and is the one found under the key
    afterwards.  Every other event, a final one or one whose key no element
    carries, is appended to the panel as a new entry, with an id when its
    session id is not empty.  When the element found under the key is the
    entry of the panel that carries it, this is the rule [update] on the
    entries of the panel. *)
Theorem identity_rule_by_lookup :
  forall (d : AudioContext) (doc : Document) (p : Path) (c : list Node),
    getElementById doc "audio-context" = Some p ->
    childNodesOf doc "audio-context" = Some c ->
    let doc' := audio_document d doc in
    let rewritten :=
      λ n, classList_add "live-pulse" (set_textContent (audio_text d) n) in
    (forall q,
       is_partial d = true ->
       getElementById doc (lookupKey d) = Some q ->
       doc' = updateAt q rewritten doc
       /\ getElementById doc' (lookupKey d) = Some q
       /\ exists n,
            nodeAt q doc = Some n
            /\ nodeAt q doc' = Some (rewritten n)
            /\ idOf (rewritten n) = Some (lookupKey d)
            /\ textContent (rewritten n) = audio_text d)
    /\ (is_partial d = false \/ getElementById doc (lookupKey d) = None ->
        getElementById doc' "audio-context" = Some p
        /\ childNodesOf doc' "audio-context" = Some (c ++ [audio_item d])
        /\ snapshot (c ++ [audio_item d])
           = snapshot c ++ [(entryId d, audio_text d)])
    /\ (getElementById doc (lookupKey d)
        = (λ k, p ++ [k]) <$> indexOfId (lookupKey d) c ->
        exists c',
          childNodesOf doc' "audio-context" = Some c'
          /\ snapshot c'
             = update (lookupKey d) (entryId d) (is_partial d)
                      (audio_text d) (snapshot c)).
Proof.
  intros d doc p c Hp Hc doc' rewritten. split; [|split].
  - intros q Hpartial Hq.
    assert (doc' = updateAt q rewritten doc) as Hdoc'
      by by apply (audio_document_replace d doc p q).
    split; [done|]. rewrite Hdoc'.
    destruct (getElementById_nodeAt _ _ _ Hq) as (n & Hn & Hid).
    destruct (rewritten_item d n) as (Hel & Hido & Htext).
    split.
    { apply pathAmong_updateAt; [|done].
      intros m. unfold rewritten.
      by rewrite hasId_classList_add, hasId_set_textContent. }
    exists n. split; [done|]. split; [by apply nodeAt_updateAt|].
    split.
    + unfold rewritten. rewrite Hido.
      unfold hasId in Hid. by apply bool_decide_eq_true in Hid.
    + apply Htext. by eapply hasId_isElement.
  - intros Hcase.
    destruct (audio_document_append d doc p c Hp Hc Hcase) as (_ & Hp' & Hc').
    split; [done|]. split; [done|].
    by rewrite snapshot_app, snapshot_item.
  - intros Hfound. unfold update. rewrite existsb_carries_snapshot.
    destruct (indexOfId (lookupKey d) c) as [k|] eqn:Hk.
    + destruct (is_partial d) eqn:Hpartial.
      * destruct (audio_document_replace_child d doc p c k) as [_ Hc'];
          [done..|].
        eexists. split; [exact Hc'|].
        cbn. apply snapshot_alter; [|done].
        intros n Hn. destruct (rewritten_item d n) as (Hel & Hido & Htext).
        split; [congruence|]. split; [done|]. by apply Htext.
      * destruct (audio_document_append d doc p c Hp Hc) as (_ & _ & Hc');
          [by left|].
        eexists. split; [exact Hc'|].
        by rewrite snapshot_app, snapshot_item.
    + destruct (audio_document_append d doc p c Hp Hc) as (_ & _ & Hc');
        [by right|].
      eexists. split; [exact Hc'|].
      rewrite snapshot_app, snapshot_item. by rewrite andb_false_r.
Qed.

(** C2, as stated, fails: a partial event replaces an entry that is not
    the last one, where the stated rule appends; a final event with the id
    of the last entry is appended, where the stated rule replaces; a
    partial event without a session id replaces the entry that a session
    named [undefined] left, where the stated rule appends; and a partial
    event whose key an element outside the panel carries rewrites that
    element and leaves the panel as it was, where the stated rule
    appends. *)
Lemma identity_rule_counterexample :
  snapshot <$> childNodesOf (audio_document (partial "s1" "ab") twoSessions)
                            "audio-context"
  = Some [(Some "session-s1", "ab"); (Some "session-s2", "b")]
  /\ snapshot <$> childNodesOf (audio_document (partial "s1" "ab") twoSessions)
                               "audio-context"
     ≠ Some (specified (Some "session-s1") "ab"
               [(Some "session-s1", "a"); (Some "session-s2", "b")])
  /\ snapshot <$> childNodesOf
                    (audio_document (final "s1" "a.")
                       (audio_document (partial "s1" "a") page))
                    "audio-context"
     = Some [(Some "session-s1", "a"); (Some "session-s1", "a.")]
  /\ snapshot <$> childNodesOf
                    (audio_document (final "s1" "a.")
                       (audio_document (partial "s1" "a") page))
                    "audio-context"
     ≠ Some (specified (Some "session-s1") "a." [(Some "session-s1", "a")])
  /\ snapshot <$> childNodesOf (audio_document (unnamed "y") undefinedSession)
                               "audio-context"
     = Some [(Some "session-undefined", "y")]
  /\ snapshot <$> childNodesOf (audio_document (unnamed "y") undefinedSession)
                               "audio-context"
     ≠ Some (specified None "y" [(Some "session-undefined", "x")])
  /\ snapshot <$> childNodesOf (audio_document (partial "s1" "ab") strayItem)
                               "audio-context"
     = Some [(Some "session-s2", "b")]
  /\ snapshot <$> childNodesOf (audio_document (partial "s1" "ab") strayItem)
                               "audio-context"
     ≠ Some (specified (Some "session-s1") "ab" [(Some "session-s2", "b")]).
Proof. repeat split; vm_compute; (reflexivity || discriminate). Qed.

(** C4.  A replacement leaves the number of entries as it was, and the ids
    with it, so nothing is evicted: the partial update "ab" of the entry
    "a" of session s1 leaves one entry, with text "ab".  The replacement
    of the last line of an ambient log leaves its length too. *)
Theorem replacement_keeps_length :
  forall (d : AudioContext) (doc : Document) (p : Path) (c : list Node)
         (k : nat),
    is_partial d = true ->
    getElementById doc "audio-context" = Some p ->
    childNodesOf doc "audio-context" = Some c ->
    getElementById doc (lookupKey d) = Some (p ++ [k]) ->
    exists c',
      childNodesOf (audio_document d doc) "audio-context" = Some c'
      /\ length c' = length c
      /\ length (snapshot c') = length (snapshot c)
      /\ (snapshot c').*1 = (snapshot c).*1
      /\ childNodesOf
           (document (audio_context (partial "s1" "ab")
                        (audio_context (partial "s1" "a") (init false page))))
           "audio-context"
         = Some [Elem {| tagName := "div"; id := Some "session-s1";
                         classList := ["audio-highlight"; "live-pulse"] |}
                      [Text "ab"]]
      /\ forall cap i x0 log x cls doc,
           length (updateAmbientLogWith cap i (x0 :: log) x cls true doc).1
           = length (x0 :: log).
Proof.
  intros d doc p c k Hpartial Hp Hc Hq.
  destruct (audio_document_replace_child d doc p c k) as [_ Hc']; [done..|].
  eexists. split; [exact Hc'|].
  assert (Hids : (snapshot (alter (λ n, classList_add "live-pulse"
                                          (set_textContent (audio_text d) n))
                                  k c)).*1
                 = (snapshot c).*1).
  { apply snapshot_alter_ids. intros n.
    by destruct (rewritten_item d n) as (? & ? & _). }
  split; [apply length_alter|]. split; [|split; [done|split]].
  - apply (f_equal length) in Hids. by rewrite !length_fmap in Hids.
  - by vm_compute.
  - intros cap i x0 log x cls doc0. unfold updateAmbientLogWith.
    destruct (getElementById doc0 i); [|done]. simpl.
    unfold set_last. by rewrite length_insert.
Qed.

End IdentityFacts.
(** ** The score series and the score log: [event_scored] *)

Section ScoreFacts.

Import JS DOM Markup Script Feed Panels.

Variable parseHTML : string -> list Node.
Variable exponential : Q -> string.

Implicit Types (st : State) (d : EventScored).

Local Abbreviation run := (Script.run parseHTML exponential).
Local Abbreviation handle := (Script.handle parseHTML exponential).
Local Abbreviation event_scored := (Script.event_scored exponential).
Local Abbreviation score_log := (Script.score_log exponential).
Local Abbreviation logLine := (Script.logLine exponential).

Lemma logLine_unscored d : score d = None -> logLine d = None.
Proof. unfold Script.logLine. by intros ->. Qed.

(** The rest of the handler leaves everything but the score log and its
    element as it was. *)
Lemma score_log_frame d st :
  visionLog (score_log d st) = visionLog st
  /\ spokenLog (score_log d st) = spokenLog st
  /\ scoreLabels (score_log d st) = scoreLabels st
  /\ scoreData (score_log d st) = scoreData st
  /\ interestChart (score_log d st) = interestChart st
  /\ chartFrames (score_log d st) = chartFrames st
  /\ ChartLoaded (score_log d st) = ChartLoaded st.
Proof. unfold Script.score_log. by destruct (logLine d). Qed.

Lemma score_log_graphLog d st :
  graphLog (score_log d st)
  = match logLine d with
    | Some line => pushBounded 10 (graphLog st) line
    | None => graphLog st
    end.
Proof. unfold Script.score_log. by destruct (logLine d). Qed.

Lemma score_log_document d st :
  document (score_log d st)
  = match logLine d with
    | Some line =>
        set_text "graph-data-log" (join nl (graphLog (score_log d st)))
                 (document st)
    | None => document st
    end.
Proof. unfold Script.score_log. by destruct (logLine d). Qed.

Lemma event_scored_graphLog d st :
  graphLog (event_scored d st)
  = match logLine d with
    | Some line => pushBounded 10 (graphLog st) line
    | None => graphLog st
    end.
Proof.
  unfold Script.event_scored.
  destruct (score d) as [x|] eqn:Hx; [|by rewrite logLine_unscored].
  destruct (bool_decide (CHART_HISTORY_SIZE < _));
    by rewrite score_log_graphLog.
Qed.

Lemma event_scored_scoreData d st :
  scoreData (event_scored d st)
  = match score d with
    | Some x =>
        pushBounded CHART_HISTORY_SIZE (scoreData st) (toFixed2 exponential x)
    | None => scoreData st
    end.
Proof.
  unfold Script.event_scored, pushBounded.
  destruct (score d) as [x|]; [|done].
  destruct (bool_decide (CHART_HISTORY_SIZE < _));
    unfold Script.score_log; by destruct (logLine d).
Qed.

Lemma event_scored_scoreLabels d st :
  length (scoreLabels st) = length (scoreData st) ->
  scoreLabels (event_scored d st)
  = match score d with
    | Some x => pushBounded CHART_HISTORY_SIZE (scoreLabels st) ""
    | None => push (scoreLabels st) ""
    end.
Proof.
  intros Hlen. unfold Script.event_scored, pushBounded.
  destruct (score d) as [x|]; [|done].
  replace (len (push (scoreLabels st) ""))
    with (len (push (scoreData st) (toFixed2 exponential x)))
    by (unfold len, push; rewrite !length_app, Hlen; done).
  destruct (bool_decide (CHART_HISTORY_SIZE < _));
    unfold Script.score_log; by destruct (logLine d).
Qed.

Lemma event_scored_chartFrames d st :
  chartFrames (event_scored d st)
  = match score d with
    | Some x =>
        if interestChart st
        then chartFrames st
             ++ [(scoreLabels (event_scored d st),
                  scoreData (event_scored d st))]
        else chartFrames st
    | None => chartFrames st
    end.
Proof.
  unfold Script.event_scored.
  destruct (score d) as [x|]; [|done].
  destruct (bool_decide (CHART_HISTORY_SIZE < _));
    unfold Script.score_log; by destruct (logLine d).
Qed.

Lemma event_scored_logs d st :
  visionLog (event_scored d st) = visionLog st
  /\ spokenLog (event_scored d st) = spokenLog st
  /\ interestChart (event_scored d st) = interestChart st.
Proof.
  unfold Script.event_scored.
  destruct (score d) as [x|]; [|done].
  destruct (bool_decide (CHART_HISTORY_SIZE < _));
    unfold Script.score_log; by destruct (logLine d).
Qed.

Lemma event_scored_synchronized d st :
  is_Some (score d) ->
  synchronized st -> synchronized (event_scored d st).
Proof.
  intros [x Hx] (Hlen & Hcap & Hframes).
  assert (Heq : length (scoreLabels (event_scored d st))
                = length (scoreData (event_scored d st))).
  { rewrite event_scored_scoreLabels, event_scored_scoreData, Hx by done.
    rewrite !pushBounded_lastn by lia.
    rewrite !length_lastn, !length_app, Hlen. done. }
  split; [done|]. split.
  - rewrite event_scored_scoreData, Hx. by apply pushBounded_length.
  - rewrite event_scored_chartFrames, Hx.
    destruct (interestChart st); [|done].
    apply Forall_app. split; [done|]. by apply Forall_singleton.
Qed.

(** The handlers of the other events leave the score state alone. *)
Lemma handle_other a st :
  (forall d, a ≠ Scored d) ->
  graphLog (handle st a) = graphLog st
  /\ scoreLabels (handle st a) = scoreLabels st
  /\ scoreData (handle st a) = scoreData st
  /\ chartFrames (handle st a) = chartFrames st.
Proof.
  intros Hother. destruct a as [c|c|d|d|d|d|]; simpl.
  - unfold vision_context. by destruct (updateAmbientLog _ _ _ _ _ _).
  - unfold spoken_word_context. by destruct (updateAmbientLog _ _ _ _ _ _).
  - done.
  - by destruct (Hother d).
  - done.
  - done.
  - unfold initializeChart.
    by destruct (elementById _ _) as [n|], (ChartLoaded st);
      [destruct (isCanvas n)| | |].
Qed.

Lemma scored_or_other (a : Action) :
  (exists d, a = Scored d) \/ (forall d, a ≠ Scored d).
Proof. destruct a; eauto. Qed.

Lemma scoredOf_other a actions :
  (forall d, a ≠ Scored d) -> scoredOf (a :: actions) = scoredOf actions.
Proof.
  intros Hother.
  by destruct a as [| | |d| | |]; [| | |destruct (Hother d)| | |].
Qed.

Lemma run_cons a actions st : run st (a :: actions) = run (handle st a) actions.
Proof. done. Qed.

Lemma run_scored d actions st :
  run st (Scored d :: actions) = run (event_scored d st) actions.
Proof. done. Qed.

Lemma scoredOf_scored d actions :
  scoredOf (Scored d :: actions) = d :: scoredOf actions.
Proof. done. Qed.

Lemma stored_cons d ds :
  stored exponential (d :: ds)
  = match score d with
    | Some x => toFixed2 exponential x :: stored exponential ds
    | None => stored exponential ds
    end.
Proof. unfold stored. cbn. by destruct (score d). Qed.

Lemma init_synchronized chartLoaded doc : synchronized (init chartLoaded doc).
Proof. unfold synchronized. simpl. split; [done|]. split; [lia|done]. Qed.

Lemma run_synchronized actions : forall st,
  numeric (scoredOf actions) ->
  synchronized st -> synchronized (run st actions).
Proof.
  induction actions as [|a actions IH]; intros st Hnum Hsync; [done|].
  destruct (scored_or_other a) as [[d ->]|Hother].
  - rewrite scoredOf_scored in Hnum. apply Forall_cons in Hnum as [Hd Hnum].
    rewrite run_scored. by apply IH, event_scored_synchronized.
  - rewrite scoredOf_other in Hnum by done. apply IH; [done|].
    destruct (handle_other a st) as (_ & Hl & Hd & Hf); [done|].
    unfold synchronized. by rewrite Hl, Hd, Hf.
Qed.

(** The scores stored are the last ones recorded, whatever else came. *)
Lemma run_scoreData actions : forall st,
  (length (scoreData st) <= Z.to_nat CHART_HISTORY_SIZE)%nat ->
  scoreData (run st actions)
  = lastn (Z.to_nat CHART_HISTORY_SIZE)
          (scoreData st ++ stored exponential (scoredOf actions)).
Proof.
  induction actions as [|a actions IH]; intros st Hcap.
  - cbn. by rewrite !app_nil_r, !lastn_all.
  - destruct (scored_or_other a) as [[d ->]|Hother].
    + rewrite run_scored, scoredOf_scored, stored_cons.
      rewrite IH; rewrite event_scored_scoreData.
      * destruct (score d) as [x|]; [|done].
        rewrite pushBounded_lastn by done.
        by rewrite lastn_app_lastn, <- app_assoc.
      * destruct (score d) as [x|]; [|done]. by apply pushBounded_length.
    + destruct (handle_other a st) as (_ & _ & Hd & _); [done|].
      rewrite scoredOf_other, run_cons by done.
      rewrite IH by by rewrite Hd. by rewrite Hd.
Qed.

Lemma run_scoreLabels actions : forall st,
  numeric (scoredOf actions) ->
  synchronized st ->
  scoreLabels (run st actions)
  = lastn (Z.to_nat CHART_HISTORY_SIZE)
          (scoreLabels st ++ ((λ _, "") <$> scoredOf actions)).
Proof.
  induction actions as [|a actions IH]; intros st Hnum Hsync.
  - cbn. destruct Hsync as (Hlen & Hcap & _).
    rewrite !app_nil_r, !lastn_all by lia. done.
  - destruct (scored_or_other a) as [[d ->]|Hother].
    + rewrite scoredOf_scored in *.
      apply Forall_cons in Hnum as [[x Hx] Hnum].
      rewrite run_scored, IH; [|done|by apply event_scored_synchronized].
      destruct Hsync as (Hlen & Hcap & _).
      rewrite event_scored_scoreLabels, Hx by done. cbn [fmap list_fmap].
      rewrite pushBounded_lastn by lia.
      by rewrite lastn_app_lastn, <- app_assoc.
    + destruct (handle_other a st) as (_ & Hl & Hd & Hf); [done|].
      rewrite scoredOf_other in * by done. rewrite run_cons.
      rewrite IH; [by rewrite Hl|done|].
      unfold synchronized. by rewrite Hl, Hd, Hf.
Qed.

Lemma run_graphLog actions : forall st,
  (length (graphLog st) <= 10)%nat ->
  graphLog (run st actions)
  = lastn 10 (graphLog st ++ omap logLine (scoredOf actions)).
Proof.
  induction actions as [|a actions IH]; intros st Hlen.
  - cbn. by rewrite app_nil_r, lastn_all.
  - destruct (scored_or_other a) as [[d ->]|Hother].
    + rewrite run_scored, scoredOf_scored.
      rewrite IH; rewrite event_scored_graphLog.
      * cbn [omap list_omap]. destruct (logLine d) as [line|]; [|done].
        rewrite (pushBounded_lastn 10) by done.
        by rewrite lastn_app_lastn, <- app_assoc.
      * destruct (logLine d) as [line|]; [|done].
        by apply (pushBounded_length 10).
    + destruct (handle_other a st) as (Hg & _); [done|].
      rewrite scoredOf_other, run_cons by done.
      rewrite IH by by rewrite Hg. by rewrite Hg.
Qed.

End ScoreFacts.

Section LegacyFacts.

Import JS DOM Markup Script Feed Panels.

Variable exponential : Q -> string.

Implicit Types (st : State) (d : EventScored).

Local Abbreviation run := (Legacy.run exponential).
Local Abbreviation handle := (Legacy.handle exponential).
Local Abbreviation event_scored := (Legacy.event_scored exponential).
Local Abbreviation charted := (Legacy.charted exponential).
Local Abbreviation logLine := (Script.logLine exponential).

Lemma legacy_event_scored_graphLog d st :
  graphLog (event_scored d st)
  = match logLine d with
    | Some line => pushBounded 10 (graphLog st) line
    | None => graphLog st
    end.
Proof.
  unfold Legacy.event_scored.
  destruct (interestChart st); [|apply score_log_graphLog].
  destruct (score d) as [x|] eqn:Hx; [|by rewrite logLine_unscored].
  destruct (bool_decide (CHART_HISTORY_SIZE < _));
    by rewrite score_log_graphLog.
Qed.

(** With a chart the older handler is the newer one. *)
Lemma legacy_event_scored_with_chart d st :
  interestChart st = true ->
  event_scored d st = Script.event_scored exponential d st.
Proof.
  intros Hchart. unfold Legacy.event_scored, Script.event_scored.
  rewrite Hchart. destruct (score d) as [x|]; [|done].
  by destruct (bool_decide (CHART_HISTORY_SIZE < _)).
Qed.

Lemma legacy_event_scored_without_chart d st :
  interestChart st = false ->
  scoreData (event_scored d st) = scoreData st
  /\ scoreLabels (event_scored d st) = scoreLabels st
  /\ chartFrames (event_scored d st) = chartFrames st
  /\ interestChart (event_scored d st) = false.
Proof.
  intros Hchart. unfold Legacy.event_scored. rewrite Hchart.
  by destruct (score_log_frame exponential d st)
    as (_ & _ & -> & -> & -> & -> & _).
Qed.

Lemma legacy_initializeChart_frame st :
  graphLog (Legacy.initializeChart st) = graphLog st
  /\ scoreLabels (Legacy.initializeChart st) = scoreLabels st
  /\ scoreData (Legacy.initializeChart st) = scoreData st
  /\ chartFrames (Legacy.initializeChart st) = chartFrames st.
Proof.
  unfold Legacy.initializeChart.
  destruct (ChartLoaded st); [|done].
  destruct (elementById _ _) as [n|]; [|done]. by destruct (isCanvas n).
Qed.

Lemma legacy_run_scored d actions st :
  run st (Legacy.Scored d :: actions) = run (event_scored d st) actions.
Proof. done. Qed.

Lemma legacy_run_initializeChart actions st :
  run st (Legacy.InitializeChart :: actions)
  = run (Legacy.initializeChart st) actions.
Proof. done. Qed.

Lemma charted_scored d actions st :
  charted st (Legacy.Scored d :: actions)
  = (if interestChart st then [d] else [])
    ++ charted (event_scored d st) actions.
Proof. done. Qed.

Lemma charted_initializeChart actions st :
  charted st (Legacy.InitializeChart :: actions)
  = charted (Legacy.initializeChart st) actions.
Proof. done. Qed.

(** The series of the older entry point: the scores of the events that
    came while a chart existed. *)
Lemma legacy_run_series actions : forall st,
  numeric (charted st actions) ->
  synchronized st ->
  synchronized (run st actions)
  /\ scoreData (run st actions)
     = lastn (Z.to_nat CHART_HISTORY_SIZE)
             (scoreData st ++ stored exponential (charted st actions))
  /\ scoreLabels (run st actions)
     = lastn (Z.to_nat CHART_HISTORY_SIZE)
             (scoreLabels st ++ ((λ _, "") <$> charted st actions)).
Proof.
  induction actions as [|a actions IH]; intros st Hnum Hsync.
  - cbn. destruct Hsync as (Hlen & Hcap & Hf).
    rewrite !app_nil_r, !lastn_all by lia. done.
  - destruct a as [d|].
    + rewrite legacy_run_scored. rewrite charted_scored in *.
      destruct (interestChart st) eqn:Hchart.
      * apply Forall_app in Hnum as [Hd Hnum].
        apply Forall_singleton in Hd as [x Hx].
        assert (synchronized (event_scored d st)) as Hsync'.
        { rewrite legacy_event_scored_with_chart by done.
          by apply event_scored_synchronized. }
        destruct (IH _ Hnum Hsync') as (Hs & Hd' & Hl').
        split; [done|]. destruct Hsync as (Hlen & Hcap & _).
        rewrite Hd', Hl'.
        rewrite legacy_event_scored_with_chart by done.
        rewrite event_scored_scoreData, event_scored_scoreLabels, Hx by done.
        rewrite !pushBounded_lastn by lia.
        rewrite !lastn_app_lastn, <- !app_assoc.
        cbn [app]. by rewrite stored_cons, Hx.
      * cbn [app] in *.
        destruct (legacy_event_scored_without_chart d st Hchart)
          as (Hd & Hl & Hf & _).
        assert (synchronized (event_scored d st)) as Hsync'.
        { unfold synchronized. by rewrite Hd, Hl, Hf. }
        destruct (IH _ Hnum Hsync') as (Hs & Hd' & Hl').
        split; [done|]. by rewrite Hd', Hl', Hd, Hl.
    + rewrite legacy_run_initializeChart. rewrite charted_initializeChart in *.
      destruct (legacy_initializeChart_frame st) as (_ & Hl & Hd & Hf).
      assert (synchronized (Legacy.initializeChart st)) as Hsync'.
      { unfold synchronized. by rewrite Hd, Hl, Hf. }
      destruct (IH _ Hnum Hsync') as (Hs & Hd' & Hl').
      split; [done|]. by rewrite Hd', Hl', Hd, Hl.
Qed.

Lemma legacy_run_graphLog actions : forall st,
  (length (graphLog st) <= 10)%nat ->
  graphLog (run st actions)
  = lastn 10 (graphLog st ++ omap logLine (Legacy.scoredOf actions)).
Proof.
  induction actions as [|a actions IH]; intros st Hlen.
  - cbn. by rewrite app_nil_r, lastn_all.
  - destruct a as [d|].
    + rewrite legacy_run_scored.
      change (Legacy.scoredOf (Legacy.Scored d :: actions))
        with (d :: Legacy.scoredOf actions).
      rewrite IH; rewrite legacy_event_scored_graphLog.
      * cbn [omap list_omap]. destruct (logLine d) as [line|]; [|done].
        rewrite (pushBounded_lastn 10) by done.
        by rewrite lastn_app_lastn, <- app_assoc.
      * destruct (logLine d) as [line|]; [|done].
        by apply (pushBounded_length 10).
    + rewrite legacy_run_initializeChart.
      change (Legacy.scoredOf (Legacy.InitializeChart :: actions))
        with (Legacy.scoredOf actions).
      destruct (legacy_initializeChart_frame st) as (Hg & _).
      rewrite IH by by rewrite Hg. by rewrite Hg.
Qed.

End LegacyFacts.

Section SeriesFacts.

Import JS DOM Markup Script Feed Samples Panels.



(** C9.  After any run of events the score log holds the last 10 lines
    formatted, oldest first, and so at most 10 of them, in both entry
    points; 10 is none of the other capacities. *)
Theorem score_log_keeps_ten_lines :
  forall (parseHTML : string -> list Node) (exponential : Q -> string)
         (chartLoaded : bool) (doc : Document)
         (actions : list Action) (older : list Legacy.Action),
    let st := Script.run parseHTML exponential (init chartLoaded doc) actions in
    let st' := Legacy.run exponential (init chartLoaded doc) older in
    graphLog st = lastn 10 (omap (logLine exponential) (scoredOf actions))
    /\ len (graphLog st) <= 10
    /\ graphLog st'
       = lastn 10 (omap (logLine exponential) (Legacy.scoredOf older))
    /\ len (graphLog st') <= 10
    /\ 10 ≠ MAX_PANEL_LINES /\ 10 ≠ CHART_HISTORY_SIZE /\ 10 ≠ MAX_LOG_LINES.
Proof.
  intros parseHTML exponential chartLoaded doc actions older st st'.
  assert (Hst : graphLog st
                = lastn 10 (omap (logLine exponential) (scoredOf actions))).
  { subst st. rewrite run_graphLog; [done|simpl; lia]. }
  assert (Hst' : graphLog st'
                 = lastn 10 (omap (logLine exponential)
                                  (Legacy.scoredOf older))).
  { subst st'. rewrite legacy_run_graphLog; [done|simpl; lia]. }
  unfold len. rewrite Hst, Hst', !length_lastn.
  repeat split; try done; lia.
Qed.

End SeriesFacts.
(** ** What the series stores: [toFixed(2)] *)

Section FixedFacts.

Import JS DOM Markup Script Feed Samples Panels.

(** The hundredths are the nearest ones, at any magnitude. *)
Lemma hundredths_nearest (x : Q) :
  (x - (1 # 200) < inject_Z (hundredths x) / 100
   /\ inject_Z (hundredths x) / 100 <= x + (1 # 200))%Q.
Proof.
  destruct x as [a b]. unfold hundredths. simpl.
  pose proof (Z.div_mod (200 * a + Z.pos b) (2 * Z.pos b) ltac:(lia)) as Hdiv.
  pose proof (Z.mod_pos_bound (200 * a + Z.pos b) (2 * Z.pos b) ltac:(lia))
    as Hmod.
  set (n := (200 * a + Z.pos b) / (2 * Z.pos b)) in *.
  set (r := (200 * a + Z.pos b) mod (2 * Z.pos b)) in *.
  unfold Qlt, Qle, Qdiv, Qminus, Qplus, Qmult, Qinv, Qopp, inject_Z. simpl.
  rewrite ?Pos2Z.inj_mul. split; nia.
Qed.

Lemma Qabs_of_nonneg (x : Q) : (0 <= x)%Q -> Qabs x = x.
Proof.
  destruct x as [a b]. unfold Qle. simpl. intros Ha.
  f_equal. apply Z.abs_eq. lia.
Qed.

Lemma Qabs_of_negative (x : Q) : (x < 0)%Q -> Qabs x = (- x)%Q.
Proof.
  destruct x as [a b]. unfold Qlt, Qopp. simpl. intros Ha.
  f_equal. apply Z.abs_neq. lia.
Qed.

Lemma toFixed2_finite (exponential : Q -> string) (x : Q) :
  (Qabs x < 10 ^ 21)%Q ->
  toFixed2 exponential (Finite x)
  = (if Qlt_bool x 0 then "-" else "") +:+ fixed2 (hundredths (Qabs x)).
Proof.
  intros Hsmall. unfold toFixed2, Qlt_bool.
  destruct (Qle_bool 0 x) eqn:Hsign; cbn [negb].
  - apply Qle_bool_iff in Hsign. rewrite Qabs_of_nonneg in * by done.
    destruct (Qle_bool (10 ^ 21) x) eqn:Hbig; [|done].
    apply Qle_bool_iff in Hbig. by apply Qle_not_lt in Hbig.
  - assert (x < 0)%Q as Hneg.
    { apply Qnot_le_lt. intros Hle. apply Qle_bool_iff in Hle. congruence. }
    rewrite Qabs_of_negative in * by done.
    destruct (Qle_bool (10 ^ 21) (- x)) eqn:Hbig; [|done].
    apply Qle_bool_iff in Hbig. by apply Qle_not_lt in Hbig.
Qed.

Local Arguments String.append !s1 s2 : simpl nomatch.

Lemma digits_uint (n : Z) :
  digits n = NilEmpty.string_of_uint (N.to_uint (Z.to_N n)).
Proof.
  unfold digits, NilZero.string_of_uint.
  destruct (N.to_uint (Z.to_N n)) eqn:Hd; try done.
  destruct (Z.to_N n) as [|p]; [done|].
  by apply DecimalPos.Unsigned.to_uint_nonnil in Hd.
Qed.

Lemma removePoint_uint (d : Decimal.uint) :
  removePoint (NilEmpty.string_of_uint d) = NilEmpty.string_of_uint d.
Proof. induction d; simpl; congruence. Qed.

Lemma removePoint_append (a b : string) :
  removePoint (a +:+ b) = removePoint a +:+ removePoint b.
Proof.
  induction a as [|c a IH]; simpl; [done|].
  destruct (Ascii.eqb c "."); simpl; by rewrite IH.
Qed.

Lemma zeros_uint (j : nat) (d : Decimal.uint) :
  exists d',
    zeros j +:+ NilEmpty.string_of_uint d = NilEmpty.string_of_uint d'
    /\ N.of_uint d' = N.of_uint d.
Proof.
  induction j as [|j (d' & Hs & Hn)]; simpl; [by exists d|].
  exists (Decimal.D0 d'). simpl. by rewrite Hs.
Qed.

Lemma length_zeros (j : nat) : String.length (zeros j) = j.
Proof. induction j as [|j IH]; simpl; [done|]. by rewrite IH. Qed.

Lemma padded_length (n : Z) : (2 <= String.length (padded n))%nat.
Proof.
  unfold padded. case_decide; [|lia].
  rewrite length_append, length_zeros. lia.
Qed.

Lemma removePoint_fixed2 (n : Z) : removePoint (fixed2 n) = padded n.
Proof.
  unfold fixed2.
  pose proof (padded_length n) as Hlen.
  assert (Hplain : removePoint (padded n) = padded n).
  { unfold padded. case_decide.
    - rewrite digits_uint.
      destruct (zeros_uint (3 - String.length
                  (NilEmpty.string_of_uint (N.to_uint (Z.to_N n))))
                  (N.to_uint (Z.to_N n))) as (d' & -> & _).
      apply removePoint_uint.
    - rewrite digits_uint. apply removePoint_uint. }
  rewrite !removePoint_append. simpl.
  rewrite <- removePoint_append.
  assert (String.substring (String.length (padded n) - 2) 2 (padded n)
          = dropChars (String.length (padded n) - 2) (padded n)) as ->.
  { rewrite <- substring_to_end. f_equal. lia. }
  rewrite substring_dropChars. exact Hplain.
Qed.

(** The string that [toFixed(2)] writes for the hundredths [n] reads back
    as [n]. *)
Lemma readFixed2_fixed2 (n : Z) : 0 <= n -> readFixed2 (fixed2 n) = Some n.
Proof.
  intros Hn. unfold readFixed2. rewrite removePoint_fixed2.
  assert (exists d, padded n = NilEmpty.string_of_uint d
                    /\ N.of_uint d = Z.to_N n) as (d & -> & Hd).
  { unfold padded. rewrite digits_uint. case_decide.
    - destruct (zeros_uint (3 - String.length
                  (NilEmpty.string_of_uint (N.to_uint (Z.to_N n))))
                  (N.to_uint (Z.to_N n))) as (d' & Hs & Hv).
      exists d'. split; [done|].
      rewrite Hv. apply DecimalN.Unsigned.of_to.
    - eexists. split; [done|]. apply DecimalN.Unsigned.of_to. }
  rewrite NilEmpty.usu, Hd. f_equal. lia.
Qed.

Lemma hundredths_nonneg (x : Q) : (0 <= x)%Q -> 0 <= hundredths x.
Proof.
  destruct x as [a b]. unfold Qle, hundredths. simpl. intros Ha.
  apply Z.div_pos; lia.
Qed.

(** C6, as the code has it.  The series stores, for every score that an
    event brings, the string [score.toFixed(2)]: for a finite score the
    sign and the decimal form of its hundredths, rounded to the nearest,
    which read back from the string.  Nothing is clamped: the hundredths
    stored are within a half of the score's, whatever the magnitude of the
    score. *)
Theorem scores_stored_to_two_decimals :
  forall (parseHTML : string -> list Node) (exponential : Q -> string)
         (chartLoaded : bool) (doc : Document) (actions : list Action) (x : Q),
    (Qabs x < 10 ^ 21)%Q ->
    scoreData (Script.run parseHTML exponential (init chartLoaded doc) actions)
    = lastn (Z.to_nat CHART_HISTORY_SIZE)
            (stored exponential (scoredOf actions))
    /\ toFixed2 exponential (Finite x)
       = (if Qlt_bool x 0 then "-" else "")
         +:+ fixed2 (hundredths (Qabs x))
    /\ readFixed2 (fixed2 (hundredths (Qabs x))) = Some (hundredths (Qabs x))
    /\ (Qabs x - (1 # 200) < inject_Z (hundredths (Qabs x)) / 100
        /\ inject_Z (hundredths (Qabs x)) / 100 <= Qabs x + (1 # 200))%Q.
Proof.
  intros parseHTML exponential chartLoaded doc actions x Hsmall.
  split; [|split; [|split]].
  - rewrite run_scoreData; [done|simpl; lia].
  - by apply toFixed2_finite.
  - apply readFixed2_fixed2, hundredths_nonneg, Qabs.Qabs_nonneg.
  - apply hundredths_nearest.
Qed.

(** C6, as stated, fails: two different scores, an eighth and seventeen
    128ths, are stored as the same entry, so the entries retained are not
    the raw scores. *)
Lemma raw_scores_not_retained :
  scoreData (event_scored exponential (scored (1 # 8)) (init false page))
  = ["0.13"]
  /\ scoreData (event_scored exponential (scored (17 # 128)) (init false page))
     = ["0.13"]
  /\ ~ (1 # 8 == 17 # 128)%Q.
Proof. split; [|split]; [reflexivity|reflexivity|]. by vm_compute. Qed.

End FixedFacts.

(** ** The debug drawer *)

Section DrawerFacts.

Import Drawer.

Variable page : Page.
Variable toUpperCase : string -> string.
Variable querySelector : string -> list Button -> string + option nat.

Implicit Types (st : State) (name : string).

Local Abbreviation run := (Drawer.run page toUpperCase querySelector).
Local Abbreviation step := (Drawer.step page toUpperCase querySelector).

Lemma closeDebugDrawer_guarded st :
  guarded page st -> guarded page (closeDebugDrawer page st).
Proof. intros [Hpage|[_ Hpend]]; [by left|by right]. Qed.

Lemma step_guarded st (s : Step) :
  guarded page st -> guarded page (step st s).
Proof.
  intros Hg. destruct s as [name|name r|name| | | |w]; simpl.
  - unfold openDebugDrawer.
    destruct (has_drawer page && has_overlay page && has_content page)
      eqn:Hpage; simpl; [by left|].
    destruct Hg as [?|Hg]; [congruence|by right].
  - unfold fetchSettled. case_bool_decide as Hin; [|done].
    destruct Hg as [Hpage|[_ Hpend]]; [by left|].
    rewrite Hpend in Hin. by apply not_elem_of_nil in Hin.
  - unfold refreshTimer. case_bool_decide; [|done].
    destruct Hg as [?|Hg]; [by left|right]. simpl.
    by destruct (window st !! refreshFnName toUpperCase name).
  - by apply closeDebugDrawer_guarded.
  - by apply closeDebugDrawer_guarded.
  - unfold escapeKey. destruct (currentDebugDrawer st) as [name|]; [|done].
    destruct (JS.truthy name); [|done]. by apply closeDebugDrawer_guarded.
  - destruct Hg as [?|Hg]; [by left|by right].
Qed.

Lemma run_guarded steps : forall st,
  guarded page st -> guarded page (run st steps).
Proof.
  induction steps as [|s steps IH]; intros st Hg; simpl; [done|].
  by apply IH, step_guarded.
Qed.

Lemma init_guarded content btns w : guarded page (init content btns w).
Proof. by right. Qed.

(** What [stopAllDrawerRefreshes] does: it calls every stop function that
    exists, and fetches nothing. *)
Lemma stopEffects_calls (w : gmap string Fn) (f : string) :
  f ∈ stopFunctions ->
  is_Some (w !! f) ->
  Call f ∈ stopFunctions ≫= stopEffects w.
Proof.
  intros Hf [fn Hfn]. apply list_elem_of_bind. exists f. split; [|done].
  unfold stopEffects. rewrite Hfn. destruct fn; rewrite elem_of_cons; by left.
Qed.

Lemma stopEffects_no_fetch (w : gmap string Fn) (url : string) :
  Fetch url ∉ stopFunctions ≫= stopEffects w.
Proof.
  intros Hin. apply list_elem_of_bind in Hin as (f & Hin & _).
  unfold stopEffects in Hin.
  destruct (w !! f) as [[|]|];
    repeat (apply elem_of_cons in Hin as [Hin|Hin]; [discriminate|]);
    by apply elem_of_nil in Hin.
Qed.

(** C10.  In every state the page can reach, [openDebugDrawer] called with
    the name of the drawer that is open closes it and fetches nothing: no
    drawer is current any more, the drawer and its overlay are shut, no
    button is active, the content and the fetches under way are as they
    were, and what the call adds to the trace is the calls of the three
    stop functions, those that exist, with the warning for one that
    throws.  The start of the refresh that the opening has left on a timer
    is not taken back: when that timer fires after the close, the refresh
    function of the drawer is called, while no drawer is open. *)
Theorem toggle_closes_and_refresh_still_starts :
  forall (content : string) (btns : list Button) (w : gmap string Fn)
         (steps : list Step) (name : string),
    let st := run (init content btns w) steps in
    currentDebugDrawer st = Some name ->
    let st' := openDebugDrawer page name st in
    let stops :=
      stopEffects (window st) "stopThreadStatsRefresh"
      ++ stopEffects (window st) "stopPromptDebugRefresh"
      ++ stopEffects (window st) "stopRunTestsRefresh" in
    currentDebugDrawer st' = None
    /\ drawerOpen st' = false
    /\ overlayVisible st' = false
    /\ Forall (λ b, active b = false) (buttons st')
    /\ contentHTML st' = contentHTML st
    /\ pending st' = pending st
    /\ trace st' = trace st ++ stops
    /\ (forall url, Fetch url ∉ stops)
    /\ (forall f,
          f ∈ ["stopThreadStatsRefresh"; "stopPromptDebugRefresh";
               "stopRunTestsRefresh"] ->
          is_Some (window st !! f) -> Call f ∈ stops)
    /\ timers st' = timers st
    /\ (name ∈ timers st ->
        is_Some (window st !! refreshFnName toUpperCase name) ->
        let st'' := refreshTimer toUpperCase name st' in
        currentDebugDrawer st'' = None
        /\ drawerOpen st'' = false
        /\ timers st'' = removeFirst name (timers st)
        /\ trace st''
           = trace st'
             ++ [ConsoleLog ("[Drawer] Starting auto-refresh: "
                             +:+ refreshFnName toUpperCase name);
                 Call (refreshFnName toUpperCase name)]).
Proof.
  intros content btns w steps name st Hcur st' stops.
  assert (Hpage : has_drawer page && has_overlay page && has_content page
                  = true).
  { destruct (run_guarded steps (init content btns w)
                (init_guarded content btns w)) as [Hpage|[Hnone _]]; [done|].
    fold st in Hnone. congruence. }
  assert (Hclose : st' = closeDebugDrawer page st).
  { subst st'. unfold openDebugDrawer. rewrite Hpage. simpl.
    by rewrite bool_decide_eq_true_2. }
  assert (Hstops : stops = stopFunctions ≫= stopEffects (window st)).
  { subst stops. cbn. by rewrite app_nil_r. }
  clearbody stops. subst stops.
  apply andb_prop in Hpage as [Hpage _]. apply andb_prop in Hpage as [Hd Ho].
  rewrite Hclose. unfold closeDebugDrawer. simpl. rewrite Hd, Ho.
  split; [done|]. split; [done|]. split; [done|].
  split; [apply Forall_fmap, Forall_true; done|].
  split; [done|]. split; [done|]. split; [done|].
  split; [intros url; apply stopEffects_no_fetch|].
  split; [intros f Hf Hw; by apply stopEffects_calls|].
  split; [done|].
  intros Htimer [fn Hfn]. unfold refreshTimer. simpl.
  rewrite bool_decide_eq_true_2 by done. by rewrite Hfn.
Qed.

End DrawerFacts.
(** ** Markup *)

Section MarkupFacts.

Import JS DOM Markup Script.

Implicit Types (s r : string) (c : ascii).

Local Arguments String.append !s1 s2 : simpl nomatch.

Lemma contains_append c s r :
  contains c (s +:+ r) = contains c s || contains c r.
Proof.
  induction s as [|c' s IH]; simpl; [done|]. by rewrite IH, orb_assoc.
Qed.

(** The cases of [escapeChar]. *)
Lemma escapeChar_cases c :
  (c = "&"%char /\ escapeChar c = "&amp;")
  \/ (c = nbsp /\ escapeChar c = "&nbsp;")
  \/ (c = "<"%char /\ escapeChar c = "&lt;")
  \/ (c = ">"%char /\ escapeChar c = "&gt;")
  \/ (Ascii.eqb c "&" = false /\ Ascii.eqb c "<" = false
      /\ Ascii.eqb c ">" = false /\ escapeChar c = String c "").
Proof.
  unfold escapeChar.
  destruct (Ascii.eqb c "&") eqn:Hamp;
    [apply Ascii.eqb_eq in Hamp; auto|].
  destruct (Ascii.eqb c nbsp) eqn:Hnbsp;
    [apply Ascii.eqb_eq in Hnbsp; auto|].
  destruct (Ascii.eqb c "<") eqn:Hlt;
    [apply Ascii.eqb_eq in Hlt; auto 6|].
  destruct (Ascii.eqb c ">") eqn:Hgt;
    [apply Ascii.eqb_eq in Hgt; auto 6|].
  auto 10.
Qed.

(** Escaped text opens and closes no tag. *)
Lemma escapeText_no_angle s :
  contains "<" (escapeText s) = false /\ contains ">" (escapeText s) = false.
Proof.
  induction s as [|c s [IHlt IHgt]]; simpl; [done|].
  rewrite !contains_append, IHlt, IHgt, !orb_false_r.
  destruct (escapeChar_cases c)
    as [[-> ->]|[[-> ->]|[[-> ->]|[[-> ->]|(_ & Hlt & Hgt & ->)]]]];
    try done.
  simpl. by rewrite Hlt, Hgt.
Qed.

(** Decoding the references gives the text back. *)
Lemma decodeText_escapeText s r :
  decodeText 0 (escapeText s +:+ r) = s +:+ decodeText 0 r.
Proof.
  induction s as [|c s IH]; simpl; [done|].
  rewrite append_assoc.
  destruct (escapeChar_cases c)
    as [[-> ->]|[[-> ->]|[[-> ->]|[[-> ->]|(Hamp & _ & _ & ->)]]]];
    simpl; unfold entityAt; simpl; rewrite ?Hamp; by rewrite IH.
Qed.

Lemma stripTags_text s r :
  contains "<" s = false ->
  stripTags false (s +:+ r) = s +:+ stripTags false r.
Proof.
  induction s as [|c s IH]; simpl; [done|].
  intros [Hc Hs]%orb_false_elim. rewrite Hc. by rewrite IH.
Qed.

Lemma stripTags_attribute s r :
  contains ">" s = false ->
  stripTags true (s +:+ r) = stripTags true r.
Proof.
  induction s as [|c s IH]; simpl; [done|].
  intros [Hc Hs]%orb_false_elim. rewrite Hc. by apply IH.
Qed.

Lemma contains_substring c s : forall k n,
  contains c s = false -> contains c (String.substring k n s) = false.
Proof.
  induction s as [|c' s IH]; intros k n Hs.
  - by destruct k, n.
  - simpl in Hs. apply orb_false_elim in Hs as [Hc Hs].
    destruct k as [|k]; simpl.
    + destruct n as [|n]; simpl; [done|]. rewrite Hc. by apply IH.
    + by apply IH.
Qed.

Lemma mentionAt_length s n :
  mentionAt s = Some n -> exists k, n = S k.
Proof.
  unfold mentionAt. destruct (matchesAt "nami" s); [intros [= <-]; eauto|].
  destruct (matchesAt "peepingnami" s); [intros [= <-]; eauto|done].
Qed.

(** The highlighting adds tags around the mentions and nothing to the text:
    without its tags the highlighted text is the text. *)
Lemma stripTags_replaceMentions s : forall k r,
  contains "<" s = false ->
  stripTags false (replaceMentions k s +:+ r)
  = dropChars k s +:+ stripTags false r.
Proof.
  induction s as [|c s IH]; intros k r Hs.
  - by destruct k.
  - pose proof Hs as Hcs. simpl in Hs.
    apply orb_false_elim in Hs as [Hc Hs].
    destruct k as [|k]; [|by apply IH].
    cbn [replaceMentions dropChars].
    destruct (mentionAt (String c s)) as [n|] eqn:Hn.
    + destruct (mentionAt_length _ _ Hn) as [k ->].
      rewrite !append_assoc.
      change (stripTags false (highlightOpen +:+ ?x))
        with (stripTags false x).
      rewrite stripTags_text by by apply contains_substring.
      change (stripTags false (highlightClose +:+ ?x))
        with (stripTags false x).
      rewrite IH by done. rewrite <- append_assoc.
      replace (S k - 1)%nat with k by lia.
      change (dropChars k s) with (dropChars (S k) (String c s)).
      by rewrite substring_dropChars.
    + simpl. rewrite Hc. rewrite IH by done. done.
Qed.

(** [sanitizeHTML] is the serialization of the one text node that the
    assignment to [textContent] leaves. *)
Lemma sanitizeHTML_escapeText s : sanitizeHTML s = escapeText s.
Proof.
  unfold sanitizeHTML, innerHTML.
  by rewrite textContent_set_textContent.
Qed.

Lemma stripTags_highlightMentions message r :
  stripTags false (highlightMentions message +:+ r)
  = escapeText message +:+ stripTags false r.
Proof.
  unfold highlightMentions. rewrite sanitizeHTML_escapeText. simpl.
  rewrite stripTags_replaceMentions; [done|].
  apply escapeText_no_angle.
Qed.

Lemma encodeChar_no_close c : contains ">" (encodeChar c) = false.
Proof. by destruct c as [[] [] [] [] [] [] [] []]. Qed.

Lemma encodeURIComponent_no_close s :
  contains ">" (encodeURIComponent s) = false.
Proof.
  induction s as [|c s IH]; simpl; [done|].
  by rewrite contains_append, encodeChar_no_close, IH.
Qed.

Lemma encodeChar_no_quote c :
  contains (ascii_of_nat 34) (encodeChar c) = false.
Proof. by destruct c as [[] [] [] [] [] [] [] []]. Qed.

Lemma encodeURIComponent_no_quote s :
  contains (ascii_of_nat 34) (encodeURIComponent s) = false.
Proof.
  induction s as [|c s IH]; simpl; [done|].
  by rewrite contains_append, encodeChar_no_quote, IH.
Qed.

Lemma renderedText_sanitizeHTML s : renderedText (sanitizeHTML s) = s.
Proof.
  unfold renderedText. rewrite sanitizeHTML_escapeText.
  rewrite <- (append_nil_r (escapeText s)).
  rewrite stripTags_text by apply escapeText_no_angle. simpl.
  rewrite decodeText_escapeText. simpl. apply append_nil_r.
Qed.

(** Through the literal part of a template, up to the next piece of text
    that was escaped, and through that piece. *)
Ltac render :=
  repeat (simpl; repeat f_equal;
          first [ rewrite stripTags_highlightMentions
                | rewrite stripTags_text by apply escapeText_no_angle
                | rewrite stripTags_attribute
                    by apply encodeURIComponent_no_close
                | rewrite decodeText_escapeText ]).

Lemma renderedText_twitch_html (data : TwitchMessage) :
  renderedText (twitch_html data)
  = nl +:+ "        " +:+ nl +:+ "            " +:+ username data +:+ ": "
    +:+ nl +:+ "            " +:+ message data +:+ nl +:+ "        ".
Proof.
  unfold renderedText, twitch_html. rewrite sanitizeHTML_escapeText.
  destruct (testMention (message data)); render; done.
Qed.

Lemma renderedText_chat_html (data : BotReply) :
  renderedText (chat_html data)
  = nl +:+ "        " +:+ nl +:+ "            Nami: "
    +:+ nl +:+ "            " +:+ reply data +:+ nl +:+ "        ".
Proof.
  unfold renderedText, chat_html. rewrite sanitizeHTML_escapeText.
  render; done.
Qed.

Lemma renderedText_nami_html (data : BotReply) :
  renderedText (nami_html data)
  = nl +:+ "        Nami: " +:+ reply data
    +:+ renderedText
          (censorshipIndicator (is_censored data)
             (or_else (censorship_reason data) "Unknown Policy")
           +:+ contextHint).
Proof.
  unfold renderedText, nami_html. rewrite sanitizeHTML_escapeText.
  destruct (is_censored data); render; done.
Qed.

(** C8.  [sanitizeHTML] returns the serialization of its argument as a
    text node: the argument with [&], [<], [>] and the no-break space
    replaced by their character references, so that it opens and closes no
    tag and shows as the argument itself.  The markup that the handlers of
    chat messages and bot replies append to the logs holds the user name,
    the message and the reply in that form: what the browser shows of it is
    the template's text with the user name, the message and the reply as
    they came, letter by letter.  (The reply is also put into an attribute
    of its line, as a URI component, which can end neither the attribute
    nor the tag.) *)
Theorem chat_markup_shows_literal_text :
  forall (parseHTML : string -> list Node) (str : string)
         (tw : TwitchMessage) (rp : BotReply) (st : State),
    sanitizeHTML str = escapeText str
    /\ contains "<" (sanitizeHTML str) = false
    /\ contains ">" (sanitizeHTML str) = false
    /\ renderedText (sanitizeHTML str) = str
    /\ document (twitch_message parseHTML tw st)
       = appendLog parseHTML (getElementById (document st) "twitch-messages")
                   (twitch_html tw) (document st)
    /\ renderedText (twitch_html tw)
       = nl +:+ "        " +:+ nl +:+ "            " +:+ username tw +:+ ": "
         +:+ nl +:+ "            " +:+ message tw +:+ nl +:+ "        "
    /\ document (bot_reply parseHTML rp st)
       = (let doc := appendLog parseHTML
                       (getElementById (document st) "nami-replies")
                       (nami_html rp) (document st) in
          appendLog parseHTML (getElementById doc "twitch-messages")
                    (chat_html rp) doc)
    /\ renderedText (nami_html rp)
       = nl +:+ "        Nami: " +:+ reply rp
         +:+ renderedText
               (censorshipIndicator (is_censored rp)
                  (or_else (censorship_reason rp) "Unknown Policy")
                +:+ contextHint)
    /\ renderedText (chat_html rp)
       = nl +:+ "        " +:+ nl +:+ "            Nami: "
         +:+ nl +:+ "            " +:+ reply rp +:+ nl +:+ "        "
    /\ contains ">" (encodeURIComponent (reply rp)) = false
    /\ contains (ascii_of_nat 34) (encodeURIComponent (reply rp)) = false.
Proof.
  intros parseHTML str tw rp st.
  destruct (escapeText_no_angle str) as [Hlt Hgt].
  split; [apply sanitizeHTML_escapeText|].
  split; [by rewrite sanitizeHTML_escapeText|].
  split; [by rewrite sanitizeHTML_escapeText|].
  split; [apply renderedText_sanitizeHTML|].
  split; [done|]. split; [apply renderedText_twitch_html|].
  split; [done|]. split; [apply renderedText_nami_html|].
  split; [apply renderedText_chat_html|].
  split; [apply encodeURIComponent_no_close|].
  apply encodeURIComponent_no_quote.
Qed.

End MarkupFacts.

(** ** Properties of every element of the page *)

Section EveryFacts.

Import JS DOM Markup Script Feed.

Implicit Types (n m : Node) (l : list Node) (p : Path) (f : Node -> Node).

Lemma every_nodeAt (P : Node -> bool) p : forall l n,
  everyAmong P l = true -> nodeAt p l = Some n -> every P n = true.
Proof.
  induction p as [|k p IH]; intros l n Hl; [done|].
  cbn [nodeAt]. destruct (l !! k) as [m|] eqn:Hm; [|done].
  assert (every P m = true) as Hevery.
  { apply everyAmong_Forall in Hl.
    by apply (proj1 (Forall_lookup _ _) Hl k m). }
  destruct p as [|k' p]; [by intros [= <-]|].
  apply IH. by apply every_childNodes.
Qed.

Lemma everyAmong_suffix (P : Node -> bool) l k :
  k `suffix_of` l -> everyAmong P l = true -> everyAmong P k = true.
Proof.
  intros [front ->]. rewrite everyAmong_app.
  by intros [_ ?]%andb_true_iff.
Qed.

Lemma childElementCount_alter f k l :
  (forall n, l !! k = Some n -> isElement (f n) = isElement n) ->
  childElementCount (alter f k l) = childElementCount l.
Proof.
  unfold childElementCount, elementChildren. revert k.
  induction l as [|m rest IH]; intros k Hf; [done|].
  destruct k as [|k]; cbn [alter list_alter]; rewrite !filter_cons.
  - rewrite (Hf m) by done. by destruct (decide (isElement m = true)).
  - specialize (IH k (λ n Hn, Hf n Hn)).
    destruct (decide (isElement m = true)); cbn [length]; lia.
Qed.

(** A property that an element has or not by its own attributes and the
    number of its element children stays true of every node when one node
    is changed into one of which, and below which, it is true. *)
Lemma everyAmong_updateAt (P : Node -> bool) f :
  (forall a ch ch',
     childElementCount ch' = childElementCount ch ->
     P (Elem a ch) = true -> P (Elem a ch') = true) ->
  forall p l,
    everyAmong P l = true ->
    (forall n, nodeAt p l = Some n ->
               isElement (f n) = isElement n /\ every P (f n) = true) ->
    everyAmong P (updateAt p f l) = true
    /\ childElementCount (updateAt p f l) = childElementCount l.
Proof.
  intros HP. induction p as [|k p IH]; intros l Hl Hf; [done|].
  cbn [updateAt].
  assert (forall n, l !! k = Some n ->
            isElement (match p with
                       | [] => f n
                       | _ :: _ =>
                           set_childNodes (updateAt p f (childNodes n)) n
                       end) = isElement n
            /\ every P (match p with
                        | [] => f n
                        | _ :: _ =>
                            set_childNodes (updateAt p f (childNodes n)) n
                        end) = true) as Hstep.
  { intros n Hn.
    destruct p as [|k' p].
    - apply Hf. cbn [nodeAt]. by rewrite Hn.
    - rewrite isElement_set_childNodes. split; [done|].
      assert (every P n = true) as Hevery.
      { apply everyAmong_Forall in Hl.
        by apply (proj1 (Forall_lookup _ _) Hl k n). }
      destruct (IH (childNodes n)) as [Hbelow Hcount].
      { by apply every_childNodes. }
      { intros m Hm. apply Hf. cbn [nodeAt]. by rewrite Hn. }
      apply every_set_childNodes; [|done].
      destruct n as [data|a ch]; [by apply every_here|].
      cbn [set_childNodes childNodes] in *.
      apply (HP a ch); [done|]. by apply every_here. }
  split.
  - apply everyAmong_Forall. apply everyAmong_Forall in Hl.
    apply Forall_lookup. intros j n. rewrite list_lookup_alter.
    case_decide as Hj.
    + subst j. destruct (l !! k) as [m|] eqn:Hm; [|done].
      intros [= <-]. by apply Hstep.
    + intros Hn. by apply (proj1 (Forall_lookup _ _) Hl j n).
  - apply childElementCount_alter. intros n Hn. by apply Hstep.
Qed.

End EveryFacts.

(** ** The feeds that are bounded *)

Section BoundFacts.

Import JS DOM Markup Script Feed.

Variable parseHTML : string -> list Node.
Variable exponential : Q -> string.

Implicit Types (st : State) (doc : Document) (n : Node) (p : Path).

Local Abbreviation run := (Script.run parseHTML exponential).
Local Abbreviation handle := (Script.handle parseHTML exponential).
Local Abbreviation fragmentsOf := (Script.fragmentsOf parseHTML).

Local Arguments String.append !s1 s2 : simpl nomatch.

Lemma withinLog_count a ch ch' :
  childElementCount ch' = childElementCount ch ->
  withinLog (Elem a ch) = true -> withinLog (Elem a ch') = true.
Proof. unfold withinLog, hasId. cbn [idOf childNodes]. by intros ->. Qed.

Lemma withinLog_removeOverflow l n :
  withinLog (set_childNodes (removeOverflow l) n) = true.
Proof.
  destruct n as [data|a ch]; [done|].
  unfold withinLog. cbn [set_childNodes childNodes].
  destruct (_ || _); [|done].
  apply bool_decide_eq_true. apply removeOverflow_bound.
Qed.

(** An element that is none of the two log elements is within the log
    capacity, whatever it holds. *)
Lemma withinLog_other n :
  hasId "twitch-messages" n = false ->
  hasId "nami-replies" n = false ->
  withinLog n = true.
Proof. unfold withinLog. by intros -> ->. Qed.

Lemma withinLog_other_id i n :
  hasId i n = true ->
  i ≠ "twitch-messages" -> i ≠ "nami-replies" ->
  withinLog n = true.
Proof.
  unfold hasId. intros Hid%bool_decide_eq_true Ht Hn.
  apply withinLog_other; unfold hasId; rewrite Hid;
    apply bool_decide_eq_false; congruence.
Qed.

Lemma every_withinLog_text (s : string) n :
  withinLog (set_textContent s n) = true ->
  every withinLog (set_textContent s n) = true.
Proof.
  intros Hn. unfold set_textContent in *.
  apply every_set_childNodes; [done|]. by destruct (truthy s).
Qed.

Lemma every_withinLog_ambientDiv cls (log : list string) :
  everyAmong withinLog (ambientDiv cls <$> log) = true.
Proof.
  apply everyAmong_Forall, Forall_fmap, Forall_true. intros x.
  unfold ambientDiv. cbn. by destruct (truthy cls), (truthy x).
Qed.

Lemma every_withinLog_audio_item d :
  every withinLog (audio_item d) = true.
Proof.
  unfold audio_item.
  destruct (session_id d) as [sid|]; [destruct (truthy sid)|];
    cbn; by destruct (truthy (audio_text d)).
Qed.

(** A change of the children of the element of an id that is not the id
    of a log element, into children that are within the log capacity. *)
Lemma updateAt_withinLog doc i p (g : list Node -> list Node) :
  i ≠ "twitch-messages" -> i ≠ "nami-replies" ->
  getElementById doc i = Some p ->
  everyAmong withinLog doc = true ->
  (forall c, everyAmong withinLog c = true ->
             everyAmong withinLog (g c) = true) ->
  everyAmong withinLog
    (updateAt p (λ n, set_childNodes (g (childNodes n)) n) doc) = true.
Proof.
  intros Ht Hn Hp Hdoc Hg.
  apply (everyAmong_updateAt withinLog); [apply withinLog_count|done|].
  intros n Hnode. rewrite isElement_set_childNodes. split; [done|].
  destruct (getElementById_nodeAt _ _ _ Hp) as (n' & Hn' & Hid).
  assert (n' = n) as -> by congruence.
  apply every_set_childNodes.
  - apply (withinLog_other_id i); [|done..].
    by rewrite hasId_set_childNodes.
  - by apply Hg, every_childNodes, (every_nodeAt _ p doc).
Qed.

Lemma updateAmbientLog_withinLog i log x doc :
  i ≠ "twitch-messages" -> i ≠ "nami-replies" ->
  everyAmong withinLog doc = true ->
  everyAmong withinLog (updateAmbientLog i log x "" false doc).2 = true.
Proof.
  intros Ht Hn Hdoc. unfold updateAmbientLog.
  destruct (getElementById doc i) as [p|] eqn:Hp.
  - rewrite (updateAmbientLogWith_push _ _ _ _ _ _ p) by done. cbn [snd].
    apply (updateAt_withinLog doc i p
             (λ _, ambientDiv "" <$> pushBounded MAX_PANEL_LINES log x));
      [done..|].
    intros c _. apply every_withinLog_ambientDiv.
  - by rewrite updateAmbientLogWith_absent.
Qed.

Lemma updateAmbientLog_bound i log x doc :
  len log <= MAX_PANEL_LINES ->
  len (updateAmbientLog i log x "" false doc).1 <= MAX_PANEL_LINES.
Proof.
  intros Hlen. unfold updateAmbientLog.
  destruct (getElementById doc i) as [p|] eqn:Hp.
  - rewrite (updateAmbientLogWith_push _ _ _ _ _ _ p) by done. simpl.
    unfold len, MAX_PANEL_LINES in *.
    pose proof (pushBounded_length 20 log x). lia.
  - by rewrite updateAmbientLogWith_absent.
Qed.

Lemma session_key_not_log (s : string) :
  "session-" +:+ s ≠ "twitch-messages" /\ "session-" +:+ s ≠ "nami-replies".
Proof. split; intros [=]. Qed.

Lemma audio_document_withinLog d doc :
  everyAmong withinLog doc = true ->
  everyAmong withinLog (audio_document d doc) = true.
Proof.
  intros Hdoc. unfold audio_document.
  destruct (getElementById doc "audio-context") as [p|] eqn:Hp; [|done].
  assert (everyAmong withinLog (updateAt p (appendChild (audio_item d)) doc)
          = true) as Happend.
  { apply (updateAt_withinLog doc "audio-context" p
             (λ c, c ++ [audio_item d])); [done..|].
    intros c Hc. rewrite everyAmong_app, Hc. cbn.
    by rewrite every_withinLog_audio_item. }
  destruct (is_partial d); [|done].
  destruct (getElementById doc ("session-" +:+ interpolate (session_id d)))
    as [q|] eqn:Hq; [|done].
  destruct (session_key_not_log (interpolate (session_id d))) as [Ht Hn].
  apply (everyAmong_updateAt withinLog); [apply withinLog_count|done|].
  intros n Hnode. split; [by destruct n|].
  destruct (getElementById_nodeAt _ _ _ Hq) as (n' & Hn' & Hid).
  assert (n' = n) as -> by congruence.
  assert (withinLog (set_textContent (audio_text d) n) = true) as Hwithin.
  { apply (withinLog_other_id _ _ (eq_trans (hasId_set_textContent _ _ _) Hid));
      done. }
  apply every_withinLog_text in Hwithin.
  destruct n as [data|a ch]; [done|].
  unfold set_textContent in *. cbn [set_childNodes classList_add] in *.
  rewrite every_Elem in *. apply andb_true_iff in Hwithin as [Hhere Hbelow].
  rewrite Hbelow, andb_true_r. exact Hhere.
Qed.

Lemma set_text_withinLog i s doc :
  i ≠ "twitch-messages" -> i ≠ "nami-replies" ->
  everyAmong withinLog doc = true ->
  everyAmong withinLog (set_text i s doc) = true.
Proof.
  intros Ht Hn Hdoc. unfold set_text.
  destruct (getElementById doc i) as [p|] eqn:Hp; [|done].
  apply (updateAt_withinLog doc i p
           (λ _, if truthy s then [Text s] else [])); [done..|].
  intros c _. by destruct (truthy s).
Qed.

Lemma appendLog_withinLog i html doc :
  everyAmong withinLog doc = true ->
  everyAmong withinLog (parseHTML html) = true ->
  everyAmong withinLog (appendLog parseHTML (getElementById doc i) html doc)
  = true.
Proof.
  intros Hdoc Hfrag. unfold appendLog.
  destruct (getElementById doc i) as [p|] eqn:Hp; [|done].
  apply (everyAmong_updateAt withinLog); [apply withinLog_count|done|].
  intros n Hnode. rewrite isElement_set_childNodes. split; [done|].
  apply every_set_childNodes; [apply withinLog_removeOverflow|].
  apply (everyAmong_suffix _ (childNodes n ++ parseHTML html)).
  - apply removeOverflow_suffix.
  - rewrite everyAmong_app, Hfrag, andb_true_r.
    by apply every_childNodes, (every_nodeAt _ p doc).
Qed.

Lemma event_scored_bounded d st :
  bounded st -> bounded (Script.event_scored exponential d st).
Proof.
  intros (Hv & Hs & Hd & Hg & Hdoc). unfold bounded.
  destruct (event_scored_logs exponential d st) as (-> & -> & _).
  rewrite event_scored_scoreData, event_scored_graphLog.
  split; [done|]. split; [done|]. split; [|split].
  - destruct (score d) as [x|]; [|done].
    unfold len, CHART_HISTORY_SIZE in *.
    pose proof (pushBounded_length 50 (scoreData st)
                  (toFixed2 exponential x)). lia.
  - destruct (logLine exponential d) as [line|]; [|done].
    unfold len in *.
    pose proof (pushBounded_length 10 (graphLog st) line). lia.
  - unfold Script.event_scored.
    destruct (score d) as [x|]; [|done].
    destruct (bool_decide (CHART_HISTORY_SIZE < _));
      rewrite score_log_document;
      (destruct (logLine exponential d); [|done]);
      by apply set_text_withinLog.
Qed.

Lemma set_document_bounded doc st :
  bounded st -> everyAmong withinLog doc = true ->
  bounded (set_document doc st).
Proof. by intros (Hv & Hs & Hd & Hg & _) Hdoc. Qed.

Lemma handle_bounded a st :
  Forall (λ frag, everyAmong withinLog frag = true) (fragmentsOf [a]) ->
  bounded st -> bounded (handle st a).
Proof.
  intros Hfrag Hst. pose proof Hst as (Hv & Hs & Hd & Hg & Hdoc).
  destruct a as [c|c|d|d|d|d|]; cbn [Script.handle].
  - unfold vision_context.
    pose proof (updateAmbientLog_bound "vision-context" (visionLog st) c
                  (document st) Hv) as Hb.
    pose proof (updateAmbientLog_withinLog "vision-context" (visionLog st) c
                  (document st) ltac:(done) ltac:(done) Hdoc) as Hw.
    destruct (updateAmbientLog _ _ _ _ _ _) as [log doc]. by unfold bounded.
  - unfold spoken_word_context.
    pose proof (updateAmbientLog_bound "spoken-word-context" (spokenLog st) c
                  (document st) Hs) as Hb.
    pose proof (updateAmbientLog_withinLog "spoken-word-context"
                  (spokenLog st) c (document st) ltac:(done) ltac:(done) Hdoc)
      as Hw.
    destruct (updateAmbientLog _ _ _ _ _ _) as [log doc]. by unfold bounded.
  - apply set_document_bounded; [done|].
    by apply audio_document_withinLog.
  - by apply event_scored_bounded.
  - apply set_document_bounded; [done|].
    apply appendLog_withinLog; [done|].
    change (fragmentsOf [Twitch d]) with [parseHTML (twitch_html d)] in Hfrag.
    by rewrite Forall_singleton in Hfrag.
  - apply set_document_bounded; [done|].
    change (fragmentsOf [Reply d])
      with [parseHTML (nami_html d); parseHTML (chat_html d)] in Hfrag.
    apply Forall_cons in Hfrag as [Hnami Hchat].
    rewrite Forall_singleton in Hchat.
    apply appendLog_withinLog; [|done]. by apply appendLog_withinLog.
  - unfold initializeChart.
    destruct (elementById _ _) as [n|]; [|done].
    destruct (ChartLoaded st); [|done]. by destruct (isCanvas n).
Qed.

Lemma fragmentsOf_cons a actions :
  fragmentsOf (a :: actions) = fragmentsOf [a] ++ fragmentsOf actions.
Proof. unfold Script.fragmentsOf. cbn. by rewrite app_nil_r. Qed.

(** Whatever events come in, the ambient logs, the score arrays, the score
    log and the log elements stay within their capacities, on a page and
    with markup in which the elements of a log id do. *)
Lemma bounded_feeds (actions : list Action) : forall st,
  Forall (λ frag, everyAmong withinLog frag = true) (fragmentsOf actions) ->
  bounded st -> bounded (run st actions).
Proof.
  induction actions as [|a actions IH]; intros st Hfrag Hb; [done|].
  rewrite fragmentsOf_cons in Hfrag.
  apply Forall_app in Hfrag as [Ha Hrest].
  change (run st (a :: actions)) with (run (handle st a) actions).
  by apply IH, handle_bounded.
Qed.

(** The element found under a log id holds at most [MAX_LOG_LINES]
    elements. *)
Lemma bounded_log_element doc i c :
  i = "twitch-messages" \/ i = "nami-replies" ->
  everyAmong withinLog doc = true ->
  childNodesOf doc i = Some c ->
  childElementCount c <= MAX_LOG_LINES.
Proof.
  intros Hi Hdoc Hc.
  apply childNodesOf_inv in Hc as (p & n & Hp & Hn & Hid & <-).
  pose proof (every_here _ _ (every_nodeAt _ _ _ _ Hdoc Hn)) as Hwithin.
  unfold withinLog in Hwithin.
  destruct Hi as [-> | ->]; rewrite Hid in Hwithin;
    rewrite ?orb_true_r in Hwithin; cbn in Hwithin;
    by apply bool_decide_eq_true in Hwithin.
Qed.

End BoundFacts.
(** ** The statements at sample inputs *)

Section Witnesses.

Import JS DOM Markup Script Feed Samples Panels.

Lemma audio_transcript_grows_without_bound_witness :
  exists c',
    childNodesOf
      (document (Script.run parseHTML exponential (init false page)
                   (Audio <$> replicate 21 (final "s" "line"))))
      "audio-context" = Some c'
    /\ len (snapshot c') = 21.
Proof.
  destruct (audio_transcript_grows_without_bound parseHTML exponential
              (replicate 21 (final "s" "line")) (init false page) [])
    as (c' & Hc & _ & Hlen).
  - reflexivity.
  - repeat constructor.
  - exists c'. split; [exact Hc|exact Hlen].
Defined.

Lemma identity_rule_by_lookup_witness :
  getElementById (audio_document (partial "s1" "ab") twoSessions)
                 "session-s1"
  = Some [0; 0]%nat
  /\ exists c',
       childNodesOf (audio_document (partial "s1" "ab") twoSessions)
                    "audio-context" = Some c'
       /\ snapshot c' = [(Some "session-s1", "ab"); (Some "session-s2", "b")].
Proof.
  destruct (identity_rule_by_lookup (partial "s1" "ab") twoSessions [0%nat]
              [item "s1" "a"; item "s2" "b"] eq_refl eq_refl)
    as (Hreplace & _ & Hfeed).
  destruct (Hreplace [0; 0]%nat eq_refl eq_refl) as (_ & Hfound & _).
  destruct (Hfeed eq_refl) as (c' & Hc' & Hsnap).
  split; [exact Hfound|].
  exists c'. split; [exact Hc'|]. rewrite Hsnap. reflexivity.
Defined.

Lemma fifo_keeps_last_entries_witness :
  (appendAll 3 "vision-context" "" ["x"; "y"; "z"; "w"] ([], page)).1
  = lastn 3 ["x"; "y"; "z"; "w"].
Proof.
  apply (fifo_keeps_last_entries parseHTML 3 "vision-context" ""
           ["x"; "y"; "z"; "w"] page).
  - exists [0%nat]. reflexivity.
  - lia.
  - reflexivity.
Defined.

Lemma replacement_keeps_length_witness :
  exists c',
    childNodesOf (audio_document (partial "s1" "ab")
                    (audio_document (partial "s1" "a") page))
                 "audio-context" = Some c'
    /\ length c' = 1%nat.
Proof.
  destruct (replacement_keeps_length (partial "s1" "ab")
              (audio_document (partial "s1" "a") page) [2%nat]
              [item "s1" "a"] 0%nat eq_refl eq_refl eq_refl eq_refl)
    as (c' & Hc' & Hlen & _).
  exists c'. split; [exact Hc'|exact Hlen].
Defined.


Lemma scores_stored_to_two_decimals_witness :
  toFixed2 exponential (Finite (3 # 2))
  = (if Qlt_bool (3 # 2) 0 then "-" else "")
    +:+ fixed2 (hundredths (Qabs (3 # 2))).
Proof.
  apply (scores_stored_to_two_decimals parseHTML exponential false page []
           (3 # 2)).
  reflexivity.
Defined.

Lemma toggle_closes_and_refresh_still_starts_witness :
  let st := Drawer.run drawerPage toUpperCase querySelector
              (Drawer.init "" [] threadStatsFns) threadStatsOpened in
  let st' := Drawer.openDebugDrawer drawerPage "thread_stats" st in
  let st'' := Drawer.refreshTimer toUpperCase "thread_stats" st' in
  Drawer.currentDebugDrawer st' = None
  /\ Drawer.trace st'
     = [Drawer.Call "stopThreadStatsRefresh";
        Drawer.Fetch "/static/drawers/thread_stats.html";
        Drawer.RunScripts "<p>threads</p>";
        Drawer.Call "stopThreadStatsRefresh"]
  /\ Drawer.currentDebugDrawer st'' = None
  /\ Drawer.drawerOpen st'' = false
  /\ Drawer.trace st''
     = Drawer.trace st'
       ++ [Drawer.ConsoleLog
             "[Drawer] Starting auto-refresh: startThreadstatsRefresh";
           Drawer.Call "startThreadstatsRefresh"].
Proof.
  intros st st' st''.
  destruct (toggle_closes_and_refresh_still_starts drawerPage toUpperCase
              querySelector "" [] threadStatsFns threadStatsOpened
              "thread_stats" eq_refl)
    as (Hcur & _ & _ & _ & _ & _ & Htrace & _ & _ & _ & Htimer).
  destruct Htimer as (Hcur' & Hopen' & _ & Htrace').
  - vm_compute. constructor.
  - vm_compute. by eexists.
  - split; [exact Hcur|]. split; [etrans; [exact Htrace|reflexivity]|].
    split; [exact Hcur'|]. split; [exact Hopen'|]. exact Htrace'.
Defined.

End Witnesses.
(** * Further properties *)

(** ** The handlers and the page *)

Section PageFacts.

Import JS DOM Markup Script Feed Panels.

Variable parseHTML : string -> list Node.
Variable exponential : Q -> string.

Implicit Types (st : State) (doc : Document) (i : string) (n : Node)
  (l : list Node) (p : Path).

Local Abbreviation run := (Script.run parseHTML exponential).
Local Abbreviation handle := (Script.handle parseHTML exponential).
Local Abbreviation event_scored := (Script.event_scored exponential).
Local Abbreviation fragmentsOf := (Script.fragmentsOf parseHTML).
Local Abbreviation noId := (λ i n, negb (hasId i n)).

Local Arguments String.append !s1 s2 : simpl nomatch.

(** The search finds nothing exactly when no node carries the id. *)
Lemma pathAmong_None i l :
  pathAmong i l = None <-> everyAmong (noId i) l = true.
Proof.
  revert l.
  apply (Node_list_ind
           (λ n, pathIn i n = None <-> every (noId i) n = true)
           (λ l, pathAmong i l = None <-> everyAmong (noId i) l = true)).
  - done.
  - intros a children IH. rewrite pathIn_Elem, every_Elem.
    unfold hasId. cbn [idOf].
    destruct (bool_decide (id a = Some i)); [done|]. exact IH.
  - done.
  - intros m rest IHm IHrest. cbn [pathAmong everyAmong].
    rewrite andb_true_iff, <- IHm, <- IHrest.
    destruct (pathIn i m); [by split; [|intros []]|].
    destruct (pathAmong i rest); by split; [|intros []].
Qed.

Lemma noId_count i a ch ch' :
  childElementCount ch' = childElementCount ch ->
  noId i (Elem a ch) = true -> noId i (Elem a ch') = true.
Proof. done. Qed.

(** A change of the children of an element, into children that do not
    carry the id, brings no element of the id. *)
Lemma updateAt_absent doc i p (g : list Node -> list Node) :
  getElementById doc i = None ->
  (forall c, everyAmong (noId i) c = true ->
             everyAmong (noId i) (g c) = true) ->
  getElementById
    (updateAt p (λ n, set_childNodes (g (childNodes n)) n) doc) i = None.
Proof.
  intros Hdoc Hg. apply pathAmong_None. apply pathAmong_None in Hdoc.
  apply (everyAmong_updateAt (noId i)); [apply noId_count|done|].
  intros n Hn. rewrite isElement_set_childNodes. split; [done|].
  pose proof (every_nodeAt _ _ _ _ Hdoc Hn) as Hevery.
  apply every_set_childNodes.
  - rewrite hasId_set_childNodes. by apply every_here in Hevery.
  - by apply Hg, every_childNodes.
Qed.

Lemma absent_ambientDiv i cls (log : list string) :
  everyAmong (noId i) (ambientDiv cls <$> log) = true.
Proof.
  apply everyAmong_Forall, Forall_fmap, Forall_true. intros x.
  unfold ambientDiv. cbn. by destruct (truthy cls), (truthy x).
Qed.

Lemma absent_audio_item i d :
  (forall s, i ≠ "session-" +:+ s) ->
  every (noId i) (audio_item d) = true.
Proof.
  intros Hi. unfold audio_item.
  destruct (session_id d) as [sid|]; [destruct (truthy sid)|];
    cbn; try by destruct (truthy (audio_text d)).
  unfold hasId. cbn. rewrite bool_decide_eq_false_2.
  - by destruct (truthy (audio_text d)).
  - intros [= Heq]. by apply (Hi sid).
Qed.

Lemma updateAmbientLog_absent i j log x doc :
  getElementById doc i = None ->
  getElementById (updateAmbientLog j log x "" false doc).2 i = None.
Proof.
  intros Hdoc. unfold updateAmbientLog.
  destruct (getElementById doc j) as [p|] eqn:Hp.
  - rewrite (updateAmbientLogWith_push _ _ _ _ _ _ p) by done. cbn [snd].
    apply (updateAt_absent doc i p
             (λ _, ambientDiv "" <$> pushBounded MAX_PANEL_LINES log x));
      [done|].
    intros c _. apply absent_ambientDiv.
  - by rewrite updateAmbientLogWith_absent.
Qed.

Lemma audio_document_absent i d doc :
  (forall s, i ≠ "session-" +:+ s) ->
  getElementById doc i = None ->
  getElementById (audio_document d doc) i = None.
Proof.
  intros Hi Hdoc. unfold audio_document.
  destruct (getElementById doc "audio-context") as [p|] eqn:Hp; [|done].
  assert (getElementById (updateAt p (appendChild (audio_item d)) doc) i
          = None) as Happend.
  { apply (updateAt_absent doc i p (λ c, c ++ [audio_item d])); [done|].
    intros c Hc. rewrite everyAmong_app, Hc. cbn [everyAmong].
    by rewrite absent_audio_item. }
  destruct (is_partial d); [|done].
  destruct (getElementById doc ("session-" +:+ interpolate (session_id d)))
    as [q|] eqn:Hq; [|done].
  apply pathAmong_None. apply pathAmong_None in Hdoc.
  apply (everyAmong_updateAt (noId i)); [apply noId_count|done|].
  intros n Hn. split; [by destruct n|].
  pose proof (every_here _ _ (every_nodeAt _ _ _ _ Hdoc Hn)) as Hhere.
  destruct n as [data|a ch]; [done|].
  unfold set_textContent. cbn [set_childNodes classList_add].
  rewrite every_Elem. apply andb_true_iff. split; [exact Hhere|].
  by destruct (truthy (audio_text d)).
Qed.

Lemma set_text_absent i j s doc :
  getElementById doc i = None ->
  getElementById (set_text j s doc) i = None.
Proof.
  intros Hdoc. unfold set_text.
  destruct (getElementById doc j) as [p|] eqn:Hp; [|done].
  apply (updateAt_absent doc i p (λ _, if truthy s then [Text s] else []));
    [done|].
  intros c _. by destruct (truthy s).
Qed.

Lemma appendLog_absent_id i j html doc :
  getElementById doc i = None ->
  getElementById (parseHTML html) i = None ->
  getElementById (appendLog parseHTML (getElementById doc j) html doc) i
  = None.
Proof.
  intros Hdoc Hfrag. unfold appendLog.
  destruct (getElementById doc j) as [p|] eqn:Hp; [|done].
  apply (updateAt_absent doc i p
           (λ c, removeOverflow (c ++ parseHTML html))); [done|].
  intros c Hc.
  apply (everyAmong_suffix _ (c ++ parseHTML html)).
  - apply removeOverflow_suffix.
  - rewrite everyAmong_app, Hc. by apply pathAmong_None.
Qed.

Lemma event_scored_document d st :
  document (event_scored d st) = document st
  \/ exists s, document (event_scored d st)
               = set_text "graph-data-log" s (document st).
Proof.
  unfold Script.event_scored.
  destruct (score d) as [x|]; [|by left].
  destruct (bool_decide (CHART_HISTORY_SIZE < _));
    rewrite score_log_document;
    (destruct (logLine exponential d); [right; by eexists|by left]).
Qed.

Lemma handle_absent i a st :
  (forall s, i ≠ "session-" +:+ s) ->
  Forall (λ frag, getElementById frag i = None) (fragmentsOf [a]) ->
  getElementById (document st) i = None ->
  getElementById (document (handle st a)) i = None.
Proof.
  intros Hi Hfrag Hdoc.
  destruct a as [c|c|d|d|d|d|]; cbn [Script.handle].
  - unfold vision_context.
    pose proof (updateAmbientLog_absent i "vision-context" (visionLog st) c
                  (document st) Hdoc) as Hd.
    by destruct (updateAmbientLog _ _ _ _ _ _).
  - unfold spoken_word_context.
    pose proof (updateAmbientLog_absent i "spoken-word-context"
                  (spokenLog st) c (document st) Hdoc) as Hd.
    by destruct (updateAmbientLog _ _ _ _ _ _).
  - by apply audio_document_absent.
  - destruct (event_scored_document d st) as [->|[s ->]]; [done|].
    by apply set_text_absent.
  - change (fragmentsOf [Twitch d]) with [parseHTML (twitch_html d)] in Hfrag.
    rewrite Forall_singleton in Hfrag.
    by apply appendLog_absent_id.
  - change (fragmentsOf [Reply d])
      with [parseHTML (nami_html d); parseHTML (chat_html d)] in Hfrag.
    apply Forall_cons in Hfrag as [Hnami Hchat].
    rewrite Forall_singleton in Hchat.
    apply appendLog_absent_id; [|done]. by apply appendLog_absent_id.
  - unfold initializeChart.
    destruct (elementById _ _) as [n|]; [|done].
    destruct (ChartLoaded st); [|done]. by destruct (isCanvas n).
Qed.

Lemma run_absent (actions : list Action) : forall st i,
  (forall s, i ≠ "session-" +:+ s) ->
  getElementById (document st) i = None ->
  Forall (λ frag, getElementById frag i = None) (fragmentsOf actions) ->
  getElementById (document (run st actions)) i = None.
Proof.
  induction actions as [|a actions IH]; intros st i Hi Hdoc Hfrag; [done|].
  rewrite fragmentsOf_cons in Hfrag.
  apply Forall_app in Hfrag as [Ha Hrest].
  change (run st (a :: actions)) with (run (handle st a) actions).
  apply IH; [done| |done]. by apply handle_absent.
Qed.

(** X1.  The handlers bring no element of their own under an id of the
    page: when no element carries an id that is not the id of a session
    item, and none of the fragments that the events of a run put into the
    log elements does, then no element carries it after the run. *)
Theorem absent_element_stays_absent :
  forall (actions : list Action) (st : State) (i : string),
    (forall s, i ≠ "session-" +:+ s) ->
    getElementById (document st) i = None ->
    Forall (λ frag, getElementById frag i = None) (fragmentsOf actions) ->
    getElementById (document (run st actions)) i = None
    /\ childNodesOf (document (run st actions)) i = None.
Proof.
  intros actions st i Hi Hdoc Hfrag.
  assert (getElementById (document (run st actions)) i = None) as Hnone
    by by apply run_absent.
  split; [done|]. by apply childNodesOf_None.
Qed.

Lemma handle_visionLog_absent a st :
  getElementById (document st) "vision-context" = None ->
  visionLog (handle st a) = visionLog st.
Proof.
  intros Hnone. destruct a as [c|c|d|d|d|d|]; cbn [Script.handle].
  - unfold vision_context, updateAmbientLog.
    by rewrite updateAmbientLogWith_absent.
  - unfold spoken_word_context. by destruct (updateAmbientLog _ _ _ _ _ _).
  - done.
  - by destruct (event_scored_logs exponential d st) as (-> & _).
  - done.
  - done.
  - unfold initializeChart.
    destruct (elementById _ _) as [n|]; [|done].
    destruct (ChartLoaded st); [|done]. by destruct (isCanvas n).
Qed.

(** X2.  On a page without the vision panel the vision events are lost:
    whatever events come in, as long as no fragment put into a log element
    brings an element under the id of the panel, the vision log stays as
    it was and the panel does not appear, while the score log, which needs
    no element, goes on recording. *)
Theorem events_for_a_missing_panel_are_lost :
  forall (actions : list Action) (st : State),
    getElementById (document st) "vision-context" = None ->
    Forall (λ frag, getElementById frag "vision-context" = None)
           (fragmentsOf actions) ->
    (length (graphLog st) <= 10)%nat ->
    visionLog (run st actions) = visionLog st
    /\ getElementById (document (run st actions)) "vision-context" = None
    /\ graphLog (run st actions)
       = lastn 10 (graphLog st
                   ++ omap (logLine exponential) (scoredOf actions)).
Proof.
  intros actions st Hnone Hfrag Hlen.
  assert (Hkey : forall s, "vision-context" ≠ "session-" +:+ s)
    by by intros s [=].
  split; [|split].
  - revert st Hnone Hfrag Hlen.
    induction actions as [|a actions IH]; intros st Hnone Hfrag Hlen; [done|].
    rewrite fragmentsOf_cons in Hfrag.
    apply Forall_app in Hfrag as [Ha Hrest].
    change (run st (a :: actions)) with (run (handle st a) actions).
    rewrite IH.
    + by apply handle_visionLog_absent.
    + by apply handle_absent.
    + done.
    + destruct (scored_or_other a) as [[d ->]|Hother].
      * cbn [Script.handle]. rewrite event_scored_graphLog.
        destruct (logLine exponential d); [|done].
        by apply (pushBounded_length 10).
      * destruct (handle_other parseHTML exponential a st) as (-> & _); done.
  - by apply run_absent.
  - by apply run_graphLog.
Qed.

End PageFacts.

(** ** What the panels show, and the chart *)

Section PanelFacts.

Import JS DOM Markup Script Feed Panels.

Variable parseHTML : string -> list Node.
Variable exponential : Q -> string.

Implicit Types (st : State) (doc : Document).

Local Abbreviation run := (Script.run parseHTML exponential).
Local Abbreviation handle := (Script.handle parseHTML exponential).
Local Abbreviation event_scored := (Script.event_scored exponential).
Local Abbreviation fragmentsOf := (Script.fragmentsOf parseHTML).

Lemma texts_ambientDiv cls (log : list string) :
  texts (ambientDiv cls <$> log) = log.
Proof.
  induction log as [|x log IH]; [done|].
  unfold texts in *. cbn [fmap list_fmap omap list_omap].
  assert (isElement (ambientDiv cls x) = true) as ->.
  { unfold ambientDiv. by destruct (truthy cls). }
  assert (textContent (ambientDiv cls x) = x) as ->.
  { unfold ambientDiv. destruct (truthy cls).
    - change (set_className cls (set_textContent x createDiv))
        with (set_textContent x (set_className cls createDiv)).
      by apply textContent_set_textContent.
    - by apply textContent_set_textContent. }
  by rewrite IH.
Qed.

(** X3.  After a vision event, on a page that has the panel, the panel
    shows the log: its children are the lines of the log, one element
    each, in order, and the log is the one before with the text pushed
    within the capacity. *)
Theorem panel_shows_the_log_after_an_event :
  forall (context : string) (st : State),
    is_Some (getElementById (document st) "vision-context") ->
    let st' := vision_context context st in
    visionLog st' = pushBounded MAX_PANEL_LINES (visionLog st) context
    /\ childNodesOf (document st') "vision-context"
       = Some (ambientDiv "" <$> visionLog st')
    /\ (forall c, childNodesOf (document st') "vision-context" = Some c ->
                  texts c = visionLog st').
Proof.
  intros context st [p Hp] st'.
  assert (st' = vision_context context st) as Hst' by done.
  unfold vision_context, updateAmbientLog in Hst'.
  rewrite (updateAmbientLogWith_push _ _ _ _ _ _ p) in Hst' by done.
  rewrite Hst'. cbn [visionLog document].
  destruct (set_childNodes_found (document st) "vision-context" p
              (ambientDiv "" <$>
                 pushBounded MAX_PANEL_LINES (visionLog st) context) Hp)
    as [_ Hc].
  split; [done|]. split; [done|].
  intros c. rewrite Hc. intros [= <-]. apply texts_ambientDiv.
Qed.

Lemma handle_interestChart_frames a st :
  (interestChart st = false -> chartFrames st = []) ->
  interestChart (handle st a) = false -> chartFrames (handle st a) = [].
Proof.
  intros Hnone.
  destruct (scored_or_other a) as [[d ->]|Hother].
  - cbn [Script.handle].
    destruct (event_scored_logs exponential d st) as (_ & _ & ->).
    intros Hchart. rewrite event_scored_chartFrames, Hchart.
    destruct (score d); by apply Hnone.
  - destruct (handle_other parseHTML exponential a st Hother)
      as (_ & _ & _ & ->).
    intros Hchart. apply Hnone.
    destruct a as [c|c|d|d|d|d|]; cbn [Script.handle] in Hchart.
    + unfold vision_context in Hchart.
      by destruct (updateAmbientLog _ _ _ _ _ _).
    + unfold spoken_word_context in Hchart.
      by destruct (updateAmbientLog _ _ _ _ _ _).
    + done.
    + by destruct (Hother d).
    + done.
    + done.
    + unfold initializeChart in Hchart.
      destruct (elementById _ _) as [n|]; [|done].
      destruct (ChartLoaded st); [|done]. by destruct (isCanvas n).
Qed.

Lemma handle_chartCurrent a st :
  numeric (scoredOf [a]) ->
  chartCurrent st -> chartCurrent (handle st a).
Proof.
  intros Hnum [Hnone Hlast].
  split; [by apply handle_interestChart_frames|].
  destruct (scored_or_other a) as [[d ->]|Hother].
  - cbn [Script.handle]. rewrite event_scored_chartFrames.
    change (scoredOf [Scored d]) with [d] in Hnum. unfold numeric in Hnum.
    rewrite Forall_singleton in Hnum. destruct Hnum as [x ->].
    destruct (interestChart st) eqn:Hchart.
    + right. by rewrite last_snoc.
    + left. by apply Hnone.
  - destruct (handle_other parseHTML exponential a st Hother)
      as (_ & Hl & Hd & Hf).
    by rewrite Hl, Hd, Hf.
Qed.

Lemma run_chartCurrent (actions : list Action) : forall st,
  numeric (scoredOf actions) ->
  chartCurrent st -> chartCurrent (run st actions).
Proof.
  induction actions as [|a actions IH]; intros st Hnum Hs; [done|].
  change (run st (a :: actions)) with (run (handle st a) actions).
  change (a :: actions) with ([a] ++ actions) in Hnum.
  unfold numeric, scoredOf in Hnum. rewrite omap_app in Hnum.
  apply Forall_app in Hnum as [Ha Hrest].
  by apply IH, handle_chartCurrent.
Qed.

Lemma run_no_chart_no_frames (actions : list Action) : forall st,
  (interestChart st = false -> chartFrames st = []) ->
  interestChart (run st actions) = false -> chartFrames (run st actions) = [].
Proof.
  induction actions as [|a actions IH]; intros st Hnone; [done|].
  change (run st (a :: actions)) with (run (handle st a) actions).
  by apply IH, handle_interestChart_frames.
Qed.

(** X4.  The chart is never drawn before it exists, and it is never stale
    as long as the score events bring a number for score: after any run of
    events from the start, nothing has been drawn while there is no chart;
    and after a run whose score events bring a number, the last frame
    drawn, if any, is the series as it is now. *)
Theorem chart_shows_the_series :
  forall (chartLoaded : bool) (doc : Document) (actions : list Action),
    let st := run (init chartLoaded doc) actions in
    (interestChart st = false -> chartFrames st = [])
    /\ (numeric (scoredOf actions) ->
        chartFrames st = []
        \/ last (chartFrames st) = Some (scoreLabels st, scoreData st)).
Proof.
  intros chartLoaded doc actions st. split.
  - by apply run_no_chart_no_frames.
  - intros Hnum.
    apply (run_chartCurrent actions (init chartLoaded doc) Hnum).
    split; [done|by left].
Qed.

(** X5.  Whatever events come in, the ambient logs, the score arrays and
    the score log stay within their capacities; and so do the log
    elements, from the start on a page, and with fragments, in which an
    element under the id of a log element holds at most [MAX_LOG_LINES]
    elements. *)
Theorem feeds_stay_within_capacity :
  forall (chartLoaded : bool) (doc : Document) (actions : list Action),
    everyAmong withinLog doc = true ->
    Forall (λ frag, everyAmong withinLog frag = true) (fragmentsOf actions) ->
    let st := run (init chartLoaded doc) actions in
    len (visionLog st) <= MAX_PANEL_LINES
    /\ len (spokenLog st) <= MAX_PANEL_LINES
    /\ len (scoreData st) <= CHART_HISTORY_SIZE
    /\ len (graphLog st) <= 10
    /\ (forall c, childNodesOf (document st) "twitch-messages" = Some c ->
                  childElementCount c <= MAX_LOG_LINES)
    /\ (forall c, childNodesOf (document st) "nami-replies" = Some c ->
                  childElementCount c <= MAX_LOG_LINES).
Proof.
  intros chartLoaded doc actions Hdoc Hfrag st.
  destruct (bounded_feeds parseHTML exponential actions
              (init chartLoaded doc) Hfrag)
    as (Hv & Hs & Hd & Hg & Hw).
  { unfold bounded. cbn. repeat split; done. }
  split; [done|]. split; [done|]. split; [done|]. split; [done|].
  split; intros c Hc.
  - apply (bounded_log_element (document st) "twitch-messages"); auto.
  - apply (bounded_log_element (document st) "nami-replies"); auto.
Qed.

End PanelFacts.
(** ** The loop of [appendLog] *)

Section OverflowFacts.

Import JS DOM Markup Script Feed.

(** X6.  The loop of [appendLog] only takes nodes from the front: what is
    left is the end of the children; it holds [MAX_LOG_LINES] elements when
    there were more, and all of them otherwise; and a second pass takes
    nothing more. *)
Theorem overflow_is_taken_from_the_front :
  forall children : list Node,
    removeOverflow children `suffix_of` children
    /\ childElementCount (removeOverflow children)
       = Z.min MAX_LOG_LINES (childElementCount children)
    /\ removeOverflow (removeOverflow children) = removeOverflow children.
Proof.
  intros children. split; [apply removeOverflow_suffix|]. split.
  - unfold childElementCount. rewrite removeOverflow_elements, length_lastn.
    unfold MAX_LOG_LINES. lia.
  - apply removeOverflow_within, removeOverflow_bound.
Qed.

End OverflowFacts.

(** ** A streamed transcript *)

Section StreamFacts.

Import JS DOM Markup Script Feed Samples.

Implicit Types (doc : Document) (i : string) (n m child : Node)
  (l c : list Node) (p q : Path) (f : Node -> Node).

Local Abbreviation noId := (λ i n, negb (hasId i n)).

Lemma pathIn_None i n : pathIn i n = None <-> every (noId i) n = true.
Proof.
  pose proof (pathAmong_None i [n]) as Hn. cbn in Hn.
  rewrite andb_true_r in Hn. rewrite <- Hn.
  by destruct (pathIn i n).
Qed.

(** The child put at the end of children that do not carry its id is the
    element found under the id. *)
Lemma pathAmong_snoc i l child :
  everyAmong (noId i) l = true ->
  hasId i child = true ->
  pathAmong i (l ++ [child]) = Some [length l].
Proof.
  intros Hl Hchild. induction l as [|m rest IH]; cbn [app pathAmong].
  - by rewrite pathIn_here.
  - cbn [everyAmong] in Hl. apply andb_true_iff in Hl as [Hm Hrest].
    apply pathIn_None in Hm. rewrite Hm, IH by done. done.
Qed.

Lemma pathAmong_alter i f k : forall l m q,
  everyAmong (noId i) l = true ->
  l !! k = Some m ->
  pathIn i (f m) = Some q ->
  pathAmong i (alter f k l) = Some (k :: q).
Proof.
  induction k as [|k IH]; intros [|m0 rest] m q Hl Hm Hq; try done.
  - cbn in Hm. injection Hm as ->. cbn [alter list_alter pathAmong].
    by rewrite Hq.
  - cbn [everyAmong] in Hl. apply andb_true_iff in Hl as [Hm0 Hrest].
    apply pathIn_None in Hm0. cbn [alter list_alter pathAmong].
    rewrite Hm0. cbn in Hm. by rewrite (IH rest m q).
Qed.

(** An item put at the end of an element, in a document in which no
    element carries its id, is the element found under the id. *)
Lemma pathAmong_appendChild i child : forall p l n,
  everyAmong (noId i) l = true ->
  hasId i child = true ->
  nodeAt p l = Some n ->
  isElement n = true ->
  pathAmong i (updateAt p (appendChild child) l)
  = Some (p ++ [length (childNodes n)]).
Proof.
  induction p as [|k p IH]; intros l n Hl Hchild Hn Hel; [done|].
  cbn [nodeAt] in Hn. destruct (l !! k) as [m|] eqn:Hm; [|done].
  cbn [updateAt app].
  assert (every (noId i) m = true) as Hevery.
  { apply everyAmong_Forall in Hl.
    by apply (proj1 (Forall_lookup _ _) Hl k m). }
  apply (pathAmong_alter i _ k l m); [done..|].
  destruct p as [|k' p].
  - injection Hn as ->. destruct n as [data|a ch]; [done|].
    unfold appendChild. cbn [childNodes set_childNodes app].
    rewrite pathIn_Elem.
    pose proof (every_here _ _ Hevery) as Hhere.
    unfold hasId in Hhere. cbn [idOf] in Hhere.
    apply negb_true_iff in Hhere. rewrite Hhere.
    apply pathAmong_snoc; [|done].
    by apply (every_childNodes _ (Elem a ch)).
  - destruct m as [data|a ch]; [by rewrite nodeAt_nil in Hn|].
    cbn [childNodes set_childNodes] in *. rewrite pathIn_Elem.
    pose proof (every_here _ _ Hevery) as Hhere.
    unfold hasId in Hhere. cbn [idOf] in Hhere.
    apply negb_true_iff in Hhere. rewrite Hhere.
    apply IH; [|done..].
    by apply (every_childNodes _ (Elem a ch)).
Qed.

Lemma alter_snoc {A} (f : A -> A) (l : list A) (x : A) :
  alter f (length l) (l ++ [x]) = l ++ [f x].
Proof. induction l as [|y l IH]; [done|]. cbn. by rewrite IH. Qed.

Lemma snapshot_singleton n key content :
  snapshot [n] = [(Some key, content)] ->
  isElement n = true /\ hasId key n = true.
Proof.
  rewrite snapshot_cons. unfold hasId.
  destruct (isElement n); [|done]. intros [= -> _].
  split; [done|]. by apply bool_decide_eq_true.
Qed.

(** The state of the panel while a session is streamed: its last entry
    is the item of the session, and the item is the element found under
    the key of the session. *)
Lemma partial_updates_collapse sid (more : list string) :
  forall doc p c n content,
    getElementById doc "audio-context" = Some p ->
    childNodesOf doc "audio-context" = Some (c ++ [n]) ->
    getElementById doc ("session-" +:+ sid) = Some (p ++ [length c]) ->
    snapshot [n] = [(Some ("session-" +:+ sid), content)] ->
    exists n',
      childNodesOf (foldl (λ doc t, audio_document (partial sid t) doc)
                          doc more)
                   "audio-context" = Some (c ++ [n'])
      /\ snapshot [n']
         = [(Some ("session-" +:+ sid), default content (last more))].
Proof.
  induction more as [|t more IH]; intros doc p c n content Hp Hc Hq Hn.
  - by exists n.
  - cbn [foldl].
    destruct (snapshot_singleton _ _ _ Hn) as [Hel Hid].
    destruct (audio_document_replace_child (partial sid t) doc p (c ++ [n])
                (length c) Hp Hc eq_refl Hq) as [Hp' Hc'].
    rewrite alter_snoc in Hc'.
    destruct (rewritten_item (partial sid t) n) as (Hel' & Hid' & Htext').
    cbn [audio_text partial] in *.
    destruct (IH (audio_document (partial sid t) doc) p c
                 (classList_add "live-pulse" (set_textContent t n)) t)
      as (n' & Hlast & Hsnap); [done|done| | |].
    + rewrite (audio_document_replace (partial sid t) doc p
                 (p ++ [length c])) by done.
      apply pathAmong_updateAt; [|done].
      intros m. by rewrite hasId_classList_add, hasId_set_textContent.
    + rewrite snapshot_cons, Hel', Hel, Hid', (Htext' Hel). cbn.
      unfold hasId in Hid. apply bool_decide_eq_true in Hid.
      by rewrite Hid.
    + exists n'. split; [done|]. rewrite Hsnap.
      destruct more as [|t' more]; [done|]. rewrite last_cons_cons.
      destruct (last (t' :: more)) eqn:Hlast'; [done|].
      by apply last_None in Hlast'.
Qed.

(** X7.  A streamed transcript is one entry: partial events of one session
    (with a session id that is not empty, on a page in which no element
    carries the key of the session yet), however many, leave one new entry
    at the end of the panel, under the key of the session, with the text
    of the last event; the entries before it are as they were. *)
Theorem streamed_session_is_one_entry :
  forall (sid first : string) (more : list string) (doc : Document)
         (p : Path) (c : list Node),
    truthy sid = true ->
    getElementById doc "audio-context" = Some p ->
    childNodesOf doc "audio-context" = Some c ->
    getElementById doc ("session-" +:+ sid) = None ->
    exists c',
      childNodesOf (foldl (λ doc t, audio_document (partial sid t) doc)
                          doc (first :: more))
                   "audio-context" = Some c'
      /\ snapshot c'
         = snapshot c
           ++ [(Some ("session-" +:+ sid), default first (last more))].
Proof.
  intros sid first more doc p c Hsid Hp Hc Hfresh. cbn [foldl].
  destruct (audio_document_append (partial sid first) doc p c Hp Hc)
    as (Hdoc' & Hp' & Hc'); [by right|].
  assert (Hitem : snapshot [audio_item (partial sid first)]
                  = [(Some ("session-" +:+ sid), first)]).
  { rewrite snapshot_item. unfold entryId. cbn. by rewrite Hsid. }
  destruct (partial_updates_collapse sid more
              (audio_document (partial sid first) doc) p c
              (audio_item (partial sid first)) first)
    as (n' & Hlast & Hsnap); [done|done| |done|].
  - rewrite Hdoc'.
    apply childNodesOf_inv in Hc as (p0 & n & Hp0 & Hn & Hid & <-).
    assert (p0 = p) as -> by congruence.
    apply pathAmong_appendChild.
    + by apply pathAmong_None.
    + by destruct (snapshot_singleton _ _ _ Hitem).
    + done.
    + by eapply hasId_isElement.
  - exists (c ++ [n']). split; [done|].
    by rewrite snapshot_app, Hsnap.
Qed.

End StreamFacts.
(** ** Mentions *)

Section MentionFacts.

Import JS DOM Markup Script Mentions.

Implicit Types (s r word : string) (c w : ascii).

Local Arguments String.append !s1 s2 : simpl nomatch.

Lemma eqb_codes_differ (a b : ascii) :
  nat_of_ascii a ≠ nat_of_ascii b -> Ascii.eqb a b = false.
Proof.
  intros Hne. apply Ascii.eqb_neq. intros ->. by apply Hne.
Qed.

(** Escaping does not touch the letters, and a reference holds too few of
    them: a word of letters matches in the escaped text where it matches
    in the text. *)
Lemma matchesAt_escapeText word : forall s,
  lettersOnly word = true ->
  matchesAt word (escapeText s) = matchesAt word s.
Proof.
  induction word as [|w word IH]; intros s Hword; [by destruct s|].
  cbn [lettersOnly] in Hword. apply andb_prop in Hword as [Hw Hword].
  apply andb_prop in Hw as [Hlo%Nat.leb_le Hhi%Nat.leb_le].
  destruct s as [|c rest]; [done|]. cbn [escapeText].
  destruct (escapeChar_cases c)
    as [[-> ->]|[[-> ->]|[[-> ->]|[[-> ->]|(_ & _ & _ & ->)]]]];
    cbn [String.append matchesAt].
  1-4: rewrite !(eqb_codes_differ (upper w)); [done|..];
    intros Heq; rewrite Heq in Hlo, Hhi; vm_compute in Hlo, Hhi; lia.
  by rewrite IH.
Qed.

Lemma mentionAt_escapeText s :
  mentionAt (escapeText s) = mentionAt s.
Proof.
  unfold mentionAt. by rewrite !matchesAt_escapeText.
Qed.

Lemma testMention_escapeText s :
  testMention (escapeText s) = testMention s.
Proof.
  induction s as [|c rest IH]; [done|].
  pose proof (mentionAt_escapeText (String c rest)) as Hat.
  cbn [escapeText] in *.
  destruct (escapeChar_cases c)
    as [[-> ->]|[[-> ->]|[[-> ->]|[[-> ->]|(_ & _ & _ & Hesc)]]]].
  - simpl. exact IH.
  - simpl. exact IH.
  - simpl. exact IH.
  - simpl. exact IH.
  - rewrite Hesc in *. cbn [String.append testMention] in *.
    by rewrite Hat, IH.
Qed.

Lemma replaceMentions_tags s :
  contains "<" s = false ->
  contains "<" (replaceMentions 0 s) = testMention s.
Proof.
  induction s as [|c rest IH]; [done|].
  intros Hs. pose proof Hs as Hcs. simpl in Hs.
  apply orb_false_elim in Hs as [Hc Hrest].
  cbn [replaceMentions testMention].
  destruct (mentionAt (String c rest)) as [n|]; [done|].
  simpl. by rewrite Hc, IH.
Qed.

Lemma replaceMentions_none s :
  testMention s = false -> replaceMentions 0 s = s.
Proof.
  induction s as [|c rest IH]; [done|].
  cbn [replaceMentions testMention].
  destruct (mentionAt (String c rest)) as [n|]; [done|].
  intros Hrest. by rewrite IH.
Qed.

(** X8.  The mention background and the highlight go together: the line
    of a chat message gets the class [mention-bg], which is decided on the
    message as it came, exactly when its markup, which is made from the
    escaped message, holds a highlight tag; a message without a mention is
    escaped and nothing else. *)
Theorem mention_class_and_highlight_agree :
  forall message : string,
    testMention (sanitizeHTML message) = testMention message
    /\ contains "<" (highlightMentions message) = testMention message
    /\ (highlightMentions message = sanitizeHTML message
        <-> testMention message = false).
Proof.
  intros message. rewrite sanitizeHTML_escapeText.
  assert (Htags : contains "<" (highlightMentions message)
                  = testMention message).
  { unfold highlightMentions. rewrite sanitizeHTML_escapeText.
    rewrite replaceMentions_tags by apply escapeText_no_angle.
    apply testMention_escapeText. }
  split; [apply testMention_escapeText|]. split; [exact Htags|]. split.
  - intros Heq. rewrite <- Htags, Heq. apply escapeText_no_angle.
  - intros Hnone. unfold highlightMentions.
    rewrite sanitizeHTML_escapeText. apply replaceMentions_none.
    by rewrite testMention_escapeText.
Qed.

End MentionFacts.

(** ** The two entry points *)

Section EntryPointFacts.

Import JS DOM Markup Script Feed.

Variable parseHTML : string -> list Node.
Variable exponential : Q -> string.

Implicit Types (st : State) (d : EventScored).

Lemma run_graphLog_same (ds : list EventScored) : forall st1 st2,
  graphLog st1 = graphLog st2 ->
  graphLog (Script.run parseHTML exponential st1 (Scored <$> ds))
  = graphLog (Script.run parseHTML exponential st2 (Scored <$> ds)).
Proof.
  induction ds as [|d ds IH]; intros st1 st2 Hg; [done|].
  cbn [fmap list_fmap]. rewrite !run_scored.
  apply IH. rewrite !event_scored_graphLog. by rewrite Hg.
Qed.


(** X10.  Without a chart the older entry point records no score at all,
    where the newer one records every score; both keep the same score
    log. *)
Theorem older_entry_point_drops_scores_without_chart :
  forall (ds : list EventScored) (st : State),
    interestChart st = false ->
    scoreData (Legacy.run exponential st (Legacy.Scored <$> ds))
    = scoreData st
    /\ scoreLabels (Legacy.run exponential st (Legacy.Scored <$> ds))
       = scoreLabels st
    /\ chartFrames (Legacy.run exponential st (Legacy.Scored <$> ds))
       = chartFrames st
    /\ graphLog (Legacy.run exponential st (Legacy.Scored <$> ds))
       = graphLog (Script.run parseHTML exponential st (Scored <$> ds)).
Proof.
  induction ds as [|d ds IH]; intros st Hchart; [done|].
  cbn [fmap list_fmap]. rewrite run_scored, legacy_run_scored.
  destruct (legacy_event_scored_without_chart exponential d st Hchart)
    as (Hd & Hl & Hf & Hc).
  destruct (IH (Legacy.event_scored exponential d st) Hc)
    as (IHd & IHl & IHf & IHg).
  split; [by etrans|]. split; [by etrans|]. split; [by etrans|].
  etrans; [exact IHg|]. apply run_graphLog_same.
  by rewrite legacy_event_scored_graphLog, event_scored_graphLog.
Qed.

End EntryPointFacts.

(** ** The form of [toFixed(2)] *)

Section FormatFacts.

Import JS Panels.

Local Arguments String.append !s1 s2 : simpl nomatch.

Lemma length_substring (s : string) : forall k n,
  (k + n <= String.length s)%nat ->
  String.length (String.substring k n s) = n.
Proof.
  induction s as [|c s IH]; intros k n Hle; simpl in *.
  - destruct k, n; simpl; lia.
  - destruct k as [|k]; [destruct n as [|n]|]; simpl; [done| |].
    + rewrite IH; lia.
    + apply IH. lia.
Qed.

Lemma padded_three (n : Z) : (3 <= String.length (padded n))%nat.
Proof.
  unfold padded. case_decide; [|lia].
  rewrite length_append, length_zeros. lia.
Qed.

(** X11.  What [toFixed(2)] writes for the hundredths has at least one
    digit, the point, and two digits, whatever the number. *)
Theorem fixed2_has_two_decimals :
  forall n : Z,
    exists whole fraction : string,
      fixed2 n = whole +:+ "." +:+ fraction
      /\ (1 <= String.length whole)%nat
      /\ String.length fraction = 2%nat
      /\ whole +:+ fraction = padded n.
Proof.
  intros n. pose proof (padded_three n) as Hlen.
  exists (String.substring 0 (String.length (padded n) - 2) (padded n)).
  exists (String.substring (String.length (padded n) - 2) 2 (padded n)).
  split; [reflexivity|]. split; [|split].
  - rewrite length_substring; lia.
  - rewrite length_substring; lia.
  - assert (String.substring (String.length (padded n) - 2) 2 (padded n)
            = dropChars (String.length (padded n) - 2) (padded n)) as ->.
    { rewrite <- substring_to_end. f_equal. lia. }
    apply substring_dropChars.
Qed.

(** Rounding to hundredths keeps the order of numbers. *)
Lemma hundredths_monotone (x y : Q) :
  (x <= y)%Q -> hundredths x <= hundredths y.
Proof.
  destruct x as [a b], y as [c d]. unfold Qle, hundredths. simpl. intros Hle.
  apply Z.div_le_lower_bound; [lia|].
  pose proof (Z.mul_div_le (200 * a + Z.pos b) (2 * Z.pos b) ltac:(lia))
    as Hfloor.
  set (n := (200 * a + Z.pos b) / (2 * Z.pos b)) in *.
  assert (Hd : 2 * Z.pos b * (Z.pos d * n)
               <= 2 * Z.pos b * (100 * c) + 2 * Z.pos b * Z.pos d - Z.pos b * Z.pos d)
    by nia.
  nia.
Qed.

Lemma Qlt_bool_true (x : Q) : Qlt_bool x 0 = true -> (x < 0)%Q.
Proof.
  unfold Qlt_bool. intros Hx%negb_true_iff.
  apply Qnot_le_lt. intros Hle. apply Qle_bool_iff in Hle. congruence.
Qed.

Lemma Qlt_bool_false (x : Q) : Qlt_bool x 0 = false -> (0 <= x)%Q.
Proof.
  unfold Qlt_bool. intros Hx%negb_false_iff. by apply Qle_bool_iff.
Qed.

Lemma Qopp_nonneg (x : Q) : (x < 0)%Q -> (0 <= - x)%Q.
Proof. destruct x as [a b]. unfold Qlt, Qle, Qopp. simpl. lia. Qed.

(** X12.  The entries stored keep the order of the scores: the string
    stored for a finite score below [10^21] in magnitude is the sign and
    the hundredths of the number it denotes, and the entry of a larger
    score never denotes less than the entry of a smaller one, whatever the
    signs. *)
Theorem stored_scores_keep_the_order :
  forall (exponential : Q -> string) (x y : Q),
    (Qabs x < 10 ^ 21)%Q ->
    (x <= y)%Q ->
    toFixed2 exponential (Finite x)
    = (if Qlt_bool x 0 then "-" else "")
      +:+ fixed2 (Z.abs (storedHundredths x))
    /\ storedHundredths x <= storedHundredths y.
Proof.
  intros exponential x y Hsmall Hle. split.
  - rewrite toFixed2_finite by done. f_equal. f_equal.
    unfold storedHundredths.
    destruct (Qlt_bool x 0) eqn:Hx.
    + apply Qlt_bool_true in Hx.
      rewrite Qabs_of_negative by done.
      pose proof (hundredths_nonneg (- x) (Qopp_nonneg x Hx)). lia.
    + apply Qlt_bool_false in Hx.
      rewrite Qabs_of_nonneg by done.
      pose proof (hundredths_nonneg x Hx). lia.
  - unfold storedHundredths.
    destruct (Qlt_bool x 0) eqn:Hx, (Qlt_bool y 0) eqn:Hy.
    + apply Qlt_bool_true in Hx, Hy.
      assert (- y <= - x)%Q as Hopp by by apply Qopp_le_compat.
      pose proof (hundredths_monotone _ _ Hopp). lia.
    + apply Qlt_bool_true in Hx. apply Qlt_bool_false in Hy.
      pose proof (hundredths_nonneg (- x) (Qopp_nonneg x Hx)).
      pose proof (hundredths_nonneg y Hy). lia.
    + apply Qlt_bool_false in Hx. apply Qlt_bool_true in Hy.
      exfalso. apply (Qlt_irrefl 0).
      eapply Qle_lt_trans; [exact Hx|]. by eapply Qle_lt_trans.
    + by apply hundredths_monotone.
Qed.

End FormatFacts.
(** ** The drawer as the page shows it *)

Section DrawerViewFacts.

Import Drawer DrawerView.

Variable page : Page.
Variable toUpperCase : string -> string.
Variable querySelector : string -> list Button -> string + option nat.

Implicit Types (st : State) (name : string).

Local Abbreviation run := (Drawer.run page toUpperCase querySelector).
Local Abbreviation step := (Drawer.step page toUpperCase querySelector).
Local Abbreviation fetchSettled :=
  (Drawer.fetchSettled querySelector).

Lemma closeDebugDrawer_coherent st :
  coherent page st -> coherent page (closeDebugDrawer page st).
Proof.
  intros (Hg & Hopen & Hover).
  split; [by apply closeDebugDrawer_guarded|].
  unfold closeDebugDrawer. simpl.
  destruct Hg as [Hpage|[Hnone _]].
  - apply andb_prop in Hpage as [Hpage _].
    apply andb_prop in Hpage as [-> ->]. done.
  - rewrite Hnone in Hopen. simpl in Hopen.
    rewrite Hover, Hopen. by destruct (has_drawer page), (has_overlay page).
Qed.

Lemma step_coherent st (s : Step) :
  coherent page st -> coherent page (step st s).
Proof.
  intros Hc. pose proof Hc as (Hg & Hopen & Hover).
  pose proof (closeDebugDrawer_coherent st Hc) as (_ & Hclose).
  split; [by apply step_guarded|].
  destruct s as [name|name r|name| | | |w]; simpl.
  - unfold openDebugDrawer.
    destruct (has_drawer page && has_overlay page && has_content page);
      simpl; [|done].
    by destruct (bool_decide (currentDebugDrawer st = Some name)).
  - unfold Drawer.fetchSettled.
    destruct (bool_decide (name ∈ pending st)); [|done].
    destruct r as [html|status|message]; simpl; [|done..].
    by destruct (querySelector _ (deactivate <$> buttons st)).
  - unfold refreshTimer.
    destruct (bool_decide (name ∈ timers st)); [|done]. simpl.
    by destruct (window st !! refreshFnName toUpperCase name).
  - done.
  - done.
  - unfold escapeKey. destruct (currentDebugDrawer st) as [name|] eqn:Hcur;
      [|by rewrite Hcur].
    destruct (JS.truthy name); [done|]. by rewrite Hcur.
  - done.
Qed.

Lemma run_coherent steps : forall st,
  coherent page st -> coherent page (run st steps).
Proof.
  induction steps as [|s steps IH]; intros st Hc; simpl; [done|].
  by apply IH, step_coherent.
Qed.

Lemma init_coherent content btns w : coherent page (init content btns w).
Proof. split; [by right|done]. Qed.

Lemma filter_deactivate (btns : list Button) :
  activeButtons (deactivate <$> btns) = [].
Proof.
  unfold activeButtons. induction btns as [|b btns IH]; [done|].
  rewrite fmap_cons, filter_cons_False; [done|]. simpl. done.
Qed.

Lemma Forall_deactivate (btns : list Button) :
  Forall (λ b, active b = false) (deactivate <$> btns).
Proof. by apply Forall_fmap, Forall_true. Qed.

Lemma filter_activate_one (btns : list Button) : forall k,
  (length (activeButtons (alter activate k (deactivate <$> btns))) <= 1)%nat.
Proof.
  induction btns as [|b btns IH]; intros k; [destruct k; simpl; lia|].
  destruct k as [|k]; simpl.
  - change (list_fmap Button Button deactivate btns)
      with (deactivate <$> btns).
    fold (activeButtons (deactivate <$> btns)).
    rewrite filter_deactivate. done.
  - apply IH.
Qed.

Lemma closeDebugDrawer_oneActive st : oneActive (closeDebugDrawer page st).
Proof.
  unfold oneActive, closeDebugDrawer. simpl.
  rewrite filter_deactivate. split; [simpl; lia|].
  intros _. apply Forall_deactivate.
Qed.

Lemma step_oneActive st (s : Step) : oneActive st -> oneActive (step st s).
Proof.
  intros Hst. pose proof Hst as (Hone & Hnone).
  destruct s as [name|name r|name| | | |w]; simpl.
  - unfold openDebugDrawer.
    destruct (has_drawer page && has_overlay page && has_content page);
      simpl; [|exact Hst].
    destruct (bool_decide (currentDebugDrawer st = Some name));
      [apply closeDebugDrawer_oneActive|exact Hst].
  - unfold Drawer.fetchSettled.
    destruct (bool_decide (name ∈ pending st)); [|exact Hst].
    destruct r as [html|status|message]; simpl; [|exact Hst..].
    destruct (querySelector _ (deactivate <$> buttons st))
      as [message|[k|]]; unfold oneActive; simpl.
    + rewrite filter_deactivate. split; [simpl; lia|].
      intros _. apply Forall_deactivate.
    + split; [apply filter_activate_one|done].
    + rewrite filter_deactivate. split; [simpl; lia|done].
  - unfold refreshTimer.
    destruct (bool_decide (name ∈ timers st)); [|exact Hst]. simpl.
    destruct (window st !! refreshFnName toUpperCase name); exact Hst.
  - apply closeDebugDrawer_oneActive.
  - apply closeDebugDrawer_oneActive.
  - unfold escapeKey.
    destruct (currentDebugDrawer st) as [name|]; [|exact Hst].
    destruct (JS.truthy name); [apply closeDebugDrawer_oneActive|exact Hst].
  - exact Hst.
Qed.

Lemma run_oneActive steps : forall st, oneActive st -> oneActive (run st steps).
Proof.
  induction steps as [|s steps IH]; intros st Hc; simpl; [done|].
  by apply IH, step_oneActive.
Qed.

Lemma activeButtons_none (btns : list Button) :
  Forall (λ b, active b = false) btns -> activeButtons btns = [].
Proof.
  unfold activeButtons. induction 1 as [|b btns Hb _ IH]; [done|].
  rewrite filter_cons_False; [exact IH|]. by rewrite Hb.
Qed.

(** X13.  What the page shows of the drawer follows the controller: in
    every state the page can reach from one in which no button is marked,
    the drawer and its overlay are open exactly while a drawer is current,
    at most one button is marked, and none is while no drawer is
    current. *)
Theorem drawer_view_follows_the_state :
  forall (content : string) (btns : list Button) (w : gmap string Fn)
         (steps : list Step),
    Forall (λ b, active b = false) btns ->
    let st := run (init content btns w) steps in
    drawerOpen st = bool_decide (is_Some (currentDebugDrawer st))
    /\ overlayVisible st = drawerOpen st
    /\ (length (activeButtons (buttons st)) <= 1)%nat
    /\ (currentDebugDrawer st = None ->
        Forall (λ b, active b = false) (buttons st)).
Proof.
  intros content btns w steps Hbtns st.
  destruct (run_coherent steps (init content btns w) (init_coherent _ _ _))
    as (_ & Hopen & Hover).
  destruct (run_oneActive steps (init content btns w)) as [Hone Hnone].
  { split; [|done]. simpl. rewrite activeButtons_none by done.
    simpl. lia. }
  done.
Qed.

Lemma elem_of_removeFirst (x y : string) (l : list string) :
  x ∈ l -> x ≠ y -> x ∈ removeFirst y l.
Proof.
  intros Hin Hne. induction l as [|z l IH]; [done|].
  simpl. apply elem_of_cons in Hin as [->|Hin].
  - rewrite bool_decide_eq_false_2 by done. by left.
  - case_bool_decide; [done|]. right. by apply IH.
Qed.

Lemma openDebugDrawer_other st name :
  has_drawer page && has_overlay page && has_content page = true ->
  currentDebugDrawer st ≠ Some name ->
  currentDebugDrawer (openDebugDrawer page name st) = currentDebugDrawer st
  /\ drawerOpen (openDebugDrawer page name st) = drawerOpen st
  /\ contentHTML (openDebugDrawer page name st) = contentHTML st
  /\ buttons (openDebugDrawer page name st) = buttons st
  /\ timers (openDebugDrawer page name st) = timers st
  /\ pending (openDebugDrawer page name st) = pending st ++ [name].
Proof.
  intros Hpage Hcur. unfold openDebugDrawer. rewrite Hpage. simpl.
  by rewrite bool_decide_eq_false_2.
Qed.

Lemma fetchSettled_failed st name r message :
  name ∈ pending st ->
  failureMessage r = Some message ->
  currentDebugDrawer (fetchSettled name r st) = currentDebugDrawer st
  /\ drawerOpen (fetchSettled name r st) = drawerOpen st
  /\ contentHTML (fetchSettled name r st) = errorMarkup message
  /\ buttons (fetchSettled name r st) = buttons st
  /\ timers (fetchSettled name r st) = timers st.
Proof.
  intros Hin Hfail. unfold Drawer.fetchSettled.
  rewrite bool_decide_eq_true_2 by done.
  by destruct r as [html|status|msg]; simplify_eq/=.
Qed.

(** X14.  A load that fails leaves the drawer with the drawer it had: in
    every state the page can reach with a drawer open, when another drawer
    is asked for and its fetch fails, the old drawer is still the current
    one and the drawer stays open, with the error message for content and
    no refresh timer set.  A call for the old drawer then finds it current
    and closes the drawer; it does not load it again. *)
Theorem failed_load_keeps_the_current_drawer :
  forall (content : string) (btns : list Button) (w : gmap string Fn)
         (steps : list Step) (old new message : string) (r : Response),
    let st := run (init content btns w) steps in
    currentDebugDrawer st = Some old ->
    new ≠ old ->
    failureMessage r = Some message ->
    let st' := fetchSettled new r (openDebugDrawer page new st) in
    currentDebugDrawer st' = Some old
    /\ drawerOpen st' = true
    /\ contentHTML st' = errorMarkup message
    /\ buttons st' = buttons st
    /\ timers st' = timers st
    /\ currentDebugDrawer (openDebugDrawer page old st') = None
    /\ pending (openDebugDrawer page old st') = pending st'.
Proof.
  intros content btns w steps old new message r st Hcur Hne Hfail st'.
  destruct (run_coherent steps (init content btns w) (init_coherent _ _ _))
    as (Hg & Hopen & Hover).
  fold st in Hg, Hopen, Hover.
  assert (Hpage : has_drawer page && has_overlay page && has_content page
                  = true).
  { destruct Hg as [Hpage|[Hnone _]]; [done|congruence]. }
  destruct (openDebugDrawer_other st new Hpage)
    as (Hc1 & Ho1 & _ & Hb1 & Ht1 & Hp1); [congruence|].
  destruct (fetchSettled_failed (openDebugDrawer page new st) new r message)
    as (Hc2 & Ho2 & Hh2 & Hb2 & Ht2); [|done|].
  { rewrite Hp1. apply elem_of_app. right. by apply list_elem_of_singleton. }
  fold st' in Hc2, Ho2, Hh2, Hb2, Ht2.
  assert (Hcur' : currentDebugDrawer st' = Some old) by congruence.
  split; [done|]. split.
  { rewrite Ho2, Ho1, Hopen, Hcur. done. }
  split; [done|]. split; [congruence|]. split; [congruence|].
  unfold openDebugDrawer. rewrite Hpage. simpl.
  by rewrite bool_decide_eq_true_2.
Qed.

Lemma fetchSettled_ok st name html :
  name ∈ pending st ->
  (forall selector l, exists k, querySelector selector l = inr k) ->
  currentDebugDrawer (fetchSettled name (Ok html) st) = Some name
  /\ drawerOpen (fetchSettled name (Ok html) st) = true
  /\ contentHTML (fetchSettled name (Ok html) st) = html
  /\ timers (fetchSettled name (Ok html) st) = timers st ++ [name]
  /\ pending (fetchSettled name (Ok html) st)
     = removeFirst name (pending st).
Proof.
  intros Hin Hsel. unfold Drawer.fetchSettled.
  rewrite bool_decide_eq_true_2 by done. simpl.
  destruct (Hsel (".debug-nav-btn[data-drawer=" +:+ Markup.dq +:+ name
                  +:+ Markup.dq +:+ "]")
              (deactivate <$> buttons st)) as [k ->].
  done.
Qed.

(** X15.  Of two loads under way the one that settles last wins: when a
    drawer is asked for and then another before the first has loaded, and
    the second fragment arrives before the first, the drawer ends up
    showing the first one, the one asked for before; and the refresh timers
    of both are set. *)
Theorem last_settled_load_wins :
  forall (content : string) (btns : list Button) (w : gmap string Fn)
         (steps : list Step) (first second : string) (html1 html2 : string),
    let st := run (init content btns w) steps in
    has_drawer page && has_overlay page && has_content page = true ->
    (forall selector l, exists k, querySelector selector l = inr k) ->
    first ≠ second ->
    currentDebugDrawer st ≠ Some first ->
    currentDebugDrawer st ≠ Some second ->
    let st' :=
      fetchSettled first (Ok html1)
        (fetchSettled second (Ok html2)
           (openDebugDrawer page second (openDebugDrawer page first st))) in
    currentDebugDrawer st' = Some first
    /\ contentHTML st' = html1
    /\ drawerOpen st' = true
    /\ timers st' = timers st ++ [second; first].
Proof.
  intros content btns w steps first second html1 html2 st Hpage Hsel Hne
    Hcur1 Hcur2 st'.
  destruct (openDebugDrawer_other st first Hpage Hcur1)
    as (Hc1 & _ & _ & _ & Ht1 & Hp1).
  destruct (openDebugDrawer_other (openDebugDrawer page first st) second
              Hpage) as (Hc2 & _ & _ & _ & Ht2 & Hp2); [congruence|].
  destruct (fetchSettled_ok
              (openDebugDrawer page second (openDebugDrawer page first st))
              second html2) as (Hc3 & _ & _ & Ht3 & Hp3); [|done|].
  { rewrite Hp2. apply elem_of_app. right. by apply list_elem_of_singleton. }
  destruct (fetchSettled_ok
              (fetchSettled second (Ok html2)
                 (openDebugDrawer page second
                    (openDebugDrawer page first st)))
              first html1) as (Hc4 & Ho4 & Hh4 & Ht4 & _); [|done|].
  { rewrite Hp3, Hp2, Hp1. apply elem_of_removeFirst; [|done].
    rewrite <- app_assoc. apply elem_of_app. right.
    apply elem_of_cons. by left. }
  fold st' in Hc4, Ho4, Hh4, Ht4.
  split; [done|]. split; [done|]. split; [done|].
  rewrite Ht4, Ht3, Ht2, Ht1. by rewrite <- app_assoc.
Qed.

End DrawerViewFacts.

(** ** The context drawer *)

Section ContextDrawerFacts.

Import JS DOM Markup Script ContextDrawer.

Local Arguments String.append !s1 s2 : simpl nomatch.

Lemma hexValue_hexDigit (d : nat) :
  (d < 16)%nat -> hexValue (hexDigit d) = Some d.
Proof.
  intros Hd.
  do 16 (destruct d as [|d]; [reflexivity|]). lia.
Qed.

Lemma escapedByte_hex (n : nat) (r : string) :
  (n < 256)%nat ->
  escapedByte (String (hexDigit (n / 16)) (String (hexDigit (n mod 16)) r))
  = Some n.
Proof.
  intros Hn. unfold escapedByte.
  rewrite !hexValue_hexDigit.
  - f_equal. symmetry. apply Nat.div_mod_eq.
  - apply Nat.mod_upper_bound. lia.
  - apply Nat.Div0.div_lt_upper_bound. lia.
Qed.

Lemma percent_append (n : nat) (r : string) :
  percent n +:+ r
  = String "%" (String (hexDigit (n / 16)) (String (hexDigit (n mod 16)) r)).
Proof. reflexivity. Qed.

Lemma decodeFrom_percent (rest : string) :
  decodeFrom 0 (String "%" rest)
  = match escapedByte rest with
    | None => Abrupt URIError
    | Some b =>
        if (b <? 128)%nat
        then prepend (ascii_of_nat b) (decodeFrom 2 rest)
        else if ((b <? 194) || (247 <? b))%nat then Abrupt URIError
        else if (b <? 196)%nat
        then match continuationByte (dropChars 2 rest) with
             | Some b' =>
                 prepend (ascii_of_nat ((b - 192) * 64 + (b' - 128)))
                         (decodeFrom 5 rest)
             | None => Abrupt URIError
             end
        else Outside
    end.
Proof. reflexivity. Qed.

Lemma decodeFrom_plain (c : ascii) (rest : string) :
  c <> "%"%char ->
  decodeFrom 0 (String c rest) = prepend c (decodeFrom 0 rest).
Proof.
  intros Hc. cbn [decodeFrom].
  destruct (Ascii.eqb_spec c "%"); [done|]. reflexivity.
Qed.

Lemma decodeFrom_encodeChar (c : ascii) (r : string) :
  decodeFrom 0 (encodeChar c +:+ r) = prepend c (decodeFrom 0 r).
Proof.
  pose proof (nat_ascii_bounded c) as Hc.
  pose proof (ascii_nat_embedding c) as Hback.
  unfold encodeChar.
  destruct (unreserved c) eqn:Hu.
  - apply decodeFrom_plain. intros ->. vm_compute in Hu. discriminate.
  - set (n := nat_of_ascii c) in *.
    destruct (Nat.ltb_spec n 128) as [Hlow|Hhigh].
    + rewrite percent_append, decodeFrom_percent, escapedByte_hex by lia.
      destruct (Nat.ltb_spec n 128); [|lia].
      rewrite Hback. reflexivity.
    + rewrite append_assoc, !percent_append, decodeFrom_percent.
      rewrite escapedByte_hex
        by (pose proof (Nat.Div0.div_lt_upper_bound n 64 4); lia).
      assert (2 <= n / 64)%nat as Hq
        by (apply Nat.div_le_lower_bound; lia).
      assert (n / 64 < 4)%nat as Hq'
        by (apply Nat.Div0.div_lt_upper_bound; lia).
      pose proof (Nat.mod_upper_bound n 64) as Hm.
      destruct (Nat.ltb_spec (192 + n / 64) 128); [lia|].
      destruct (Nat.ltb_spec (192 + n / 64) 194); [lia|].
      destruct (Nat.ltb_spec 247 (192 + n / 64)); [lia|].
      destruct (Nat.ltb_spec (192 + n / 64) 196); [|lia].
      cbn [orb dropChars continuationByte].
      change (Ascii.eqb "%" "%") with true. cbv iota.
      rewrite escapedByte_hex by lia.
      destruct (Nat.leb_spec 128 (128 + n mod 64)); [|lia].
      destruct (Nat.leb_spec (128 + n mod 64) 191); [|lia].
      cbn [andb decodeFrom].
      replace ((192 + n / 64 - 192) * 64 + (128 + n mod 64 - 128))%nat
        with n
        by (pose proof (Nat.div_mod_eq n 64); lia).
      rewrite Hback. reflexivity.
Qed.

Lemma decoding_reads_back (s : string) :
  decodeFrom 0 (encodeURIComponent s) = Normal s.
Proof.
  induction s as [|c rest IH]; [reflexivity|].
  cbn [encodeURIComponent].
  rewrite decodeFrom_encodeChar, IH. reflexivity.
Qed.

Lemma truthy_encodeURIComponent (s : string) :
  truthy (encodeURIComponent s) = truthy s.
Proof.
  destruct s as [|c rest]; [done|].
  simpl. unfold encodeChar, percent.
  destruct (unreserved c); [done|].
  destruct (_ <? _)%nat; done.
Qed.

Ltac show_text :=
  repeat (simpl;
          first [ rewrite stripTags_text by apply escapeText_no_angle
                | rewrite decodeText_escapeText ]);
  simpl; rewrite ?append_nil_r.

Lemma renderedText_censoredMarkup (reason filteredArea replyRaw : string) :
  renderedText (censoredMarkup reason filteredArea replyRaw)
  = censoredText reason filteredArea replyRaw.
Proof.
  unfold renderedText, censoredMarkup, censoredText, filteredAreaMarkup.
  rewrite !sanitizeHTML_escapeText.
  destruct (truthy filteredArea).
  - rewrite !append_assoc. show_text. reflexivity.
  - show_text. reflexivity.
Qed.

Lemma nami_html_attributes (data : BotReply) :
  exists before after : string,
    nami_html data = before +:+ lineAttributes (replyLine data) after.
Proof.
  unfold nami_html, lineAttributes, replyLine.
  cbn [data_reply data_sent data_censored data_reason data_filtered_area
       interpolate].
  destruct (is_censored data).
  - exists ("<div class=" +:+ dq
            +:+ "log-line nami-reply cursor-pointer censored-reply" +:+ dq
            +:+ " onclick=" +:+ dq +:+ "openDrawer(this)" +:+ dq +:+ " "
            +:+ nl +:+ "        ").
    eexists. reflexivity.
  - exists ("<div class=" +:+ dq
            +:+ "log-line nami-reply cursor-pointer " +:+ dq
            +:+ " onclick=" +:+ dq +:+ "openDrawer(this)" +:+ dq +:+ " "
            +:+ nl +:+ "        ").
    eexists. reflexivity.
Qed.

Lemma decodeFrom_error (s : string) : forall (skip : nat) (e : Exception),
  decodeFrom skip s = Abrupt e -> e = URIError.
Proof.
  induction s as [|c rest IH]; intros skip e; [done|].
  cbn [decodeFrom]. destruct skip as [|k]; [|apply IH].
  assert (forall ch k', prepend ch (decodeFrom k' rest) = Abrupt e ->
                        e = URIError) as Hprepend.
  { intros ch k'. destruct (decodeFrom k' rest) eqn:Hd; try done.
    simpl. intros [= <-]. by apply (IH k'). }
  destruct (negb _); [apply Hprepend|].
  destruct (escapedByte rest) as [b|]; [|by intros [= <-]].
  destruct (_ <? _)%nat; [apply Hprepend|].
  destruct (_ || _); [by intros [= <-]|].
  destruct (_ <? _)%nat; [|done].
  destruct (continuationByte _); [apply Hprepend|by intros [= <-]].
Qed.

Lemma or_else_placeholder (o : option string) (d : string) :
  or_else (Some (or_else o "")) d = or_else o d.
Proof.
  destruct o as [s|]; simpl; [|done].
  destruct (truthy s) eqn:Hs; simpl; by rewrite ?Hs.
Qed.

Lemma or_else_encoded (s d : string) :
  truthy s = true -> or_else (Some (encodeURIComponent s)) d
                     = encodeURIComponent s.
Proof.
  intros Hs. unfold or_else. by rewrite truthy_encodeURIComponent, Hs.
Qed.

Lemma or_else_empty (s : string) : or_else (Some s) "" = s.
Proof. unfold or_else. by destruct s. Qed.

Lemma truthy_or_else (o : option string) (d : string) :
  truthy d = true -> truthy (or_else o d) = true.
Proof.
  intros Hd. destruct o as [s|]; simpl; [|done].
  by destruct (truthy s) eqn:Hs.
Qed.

(** The four strings that [openDrawer] decodes from the line of a reply
    are those of the reply. *)
Lemma replyLine_decoded (data : BotReply) :
  decodeURIComponent (or_else (data_sent (replyLine data)) "")
  = Normal (or_else (prompt data) "")
  /\ decodeURIComponent (or_else (data_reply (replyLine data)) "")
     = Normal (Script.reply data)
  /\ decodeURIComponent (or_else (data_reason (replyLine data)) "Unknown")
     = Normal (or_else (censorship_reason data) "Unknown Policy")
  /\ decodeURIComponent (or_else (data_filtered_area (replyLine data)) "")
     = Normal (or_else (filtered_area data) "").
Proof.
  unfold replyLine.
  cbn [data_reply data_sent data_censored data_reason data_filtered_area].
  rewrite !or_else_empty, or_else_encoded by (by apply truthy_or_else).
  unfold decodeURIComponent.
  repeat split; apply decoding_reads_back.
Qed.

(** X16.  The drawer shows what the reply carried: on a page that has the
    four elements of the drawer, a click on the line that [bot_reply] made
    for a reply returns normally, the drawer and its overlay are shown, the
    prompt is shown as it came (or the placeholder, without one), and so is
    the reply: as text when the reply was not censored, and for a censored
    one in the red frame, after the reason and the filtered area as they
    came, whatever markup they hold.  (The line is the one of the markup of
    [bot_reply]: that markup holds the attributes of the line.) *)
Theorem drawer_shows_what_the_reply_carried :
  forall (page : Elements) (data : BotReply) (v : View),
    has_drawer_sent page && has_drawer_reply page
    && has_context_drawer page && has_context_drawer_overlay page = true ->
    (exists before after : string,
       nami_html data = before +:+ lineAttributes (replyLine data) after)
    /\ exists v' : View,
      openDrawer page (replyLine data) v = (Normal tt, v')
      /\ sentText v' = or_else (prompt data) "(No prompt data available)"
      /\ shownText (replyContent v')
         = (if is_censored data
            then censoredText
                   (or_else (censorship_reason data) "Unknown Policy")
                   (or_else (filtered_area data) "") (Script.reply data)
            else or_else (Some (Script.reply data))
                         "(No reply data available)")
      /\ borderColor v'
         = (if is_censored data then "#ef4444" else "#3a3a3a")
      /\ translated v' = false
      /\ hidden v' = false
      /\ closeDrawer page v'
         = (Normal tt, set_hidden true (set_translated true v')).
Proof.
  intros page data v Hpage. split; [apply nami_html_attributes|].
  destruct (replyLine_decoded data) as (Hsent & Hreply & Hreason & Harea).
  unfold openDrawer, bind, completes.
  rewrite Hsent, Hreply, Hreason, Harea.
  destruct page as [[] [] [] []]; try done.
  cbn [element completes has_drawer_sent has_drawer_reply has_context_drawer
       has_context_drawer_overlay modify].
  assert (bool_decide (data_censored (replyLine data) = Some "true")
          = is_censored data) as ->.
  { unfold replyLine. cbn [data_censored]. by destruct (is_censored data). }
  destruct (is_censored data) eqn:Hcensored; cbn [modify];
    eexists; (split; [reflexivity|]);
    cbn [sentText replyContent borderColor backgroundColor translated hidden
         set_sent set_reply set_style set_translated set_hidden shownText].
  - rewrite or_else_placeholder, renderedText_censoredMarkup. done.
  - rewrite or_else_placeholder. done.
Qed.

(** X17.  A line with a malformed escape sequence leaves the drawer as it
    was: when one of the four attributes does not decode, and none holds a
    character outside these strings, [openDrawer] throws a [URIError] before
    it has touched the page, whatever elements the page has. *)
Theorem malformed_line_leaves_the_drawer_untouched :
  forall (page : Elements) (el : Line) (v : View),
    let results :=
      [decodeURIComponent (or_else (data_sent el) "");
       decodeURIComponent (or_else (data_reply el) "");
       decodeURIComponent (or_else (data_reason el) "Unknown");
       decodeURIComponent (or_else (data_filtered_area el) "")] in
    Abrupt URIError ∈ results ->
    Outside ∉ results ->
    openDrawer page el v = (Abrupt URIError, v).
Proof.
  intros page el v results Hsome Hnone. subst results.
  unfold openDrawer, bind, completes.
  rewrite !elem_of_cons, elem_of_nil in Hsome.
  rewrite !elem_of_cons, elem_of_nil in Hnone.
  unfold decodeURIComponent in *.
  destruct (decodeFrom 0 (or_else (data_sent el) ""))
    as [s1|e1|] eqn:H1;
    [|by rewrite (decodeFrom_error _ _ _ H1)|by exfalso; apply Hnone; auto 6].
  destruct (decodeFrom 0 (or_else (data_reply el) ""))
    as [s2|e2|] eqn:H2;
    [|by rewrite (decodeFrom_error _ _ _ H2)|by exfalso; apply Hnone; auto 6].
  destruct (decodeFrom 0 (or_else (data_reason el) "Unknown"))
    as [s3|e3|] eqn:H3;
    [|by rewrite (decodeFrom_error _ _ _ H3)|by exfalso; apply Hnone; auto 6].
  destruct (decodeFrom 0 (or_else (data_filtered_area el) ""))
    as [s4|e4|] eqn:H4;
    [|by rewrite (decodeFrom_error _ _ _ H4)|by exfalso; apply Hnone; auto 6].
  by destruct Hsome as [?|[?|[?|[?|[]]]]].
Qed.

(** X18.  [openDrawer] needs all four elements: on a page that lacks one
    of them the click on a reply line throws a [TypeError] and the overlay
    stays as it was; what comes before the missing element in the function
    has been done by then, so the prompt is already replaced where its
    element exists. *)
Theorem drawer_needs_its_four_elements :
  forall (page : Elements) (data : BotReply) (v : View),
    has_drawer_sent page && has_drawer_reply page
    && has_context_drawer page && has_context_drawer_overlay page = false ->
    exists v' : View,
      openDrawer page (replyLine data) v = (Abrupt TypeError, v')
      /\ hidden v' = hidden v
      /\ (has_drawer_sent page = true ->
          sentText v' = or_else (prompt data) "(No prompt data available)")
      /\ (has_drawer_sent page = false -> v' = v).
Proof.
  intros page data v Hpage.
  destruct (replyLine_decoded data) as (Hsent & Hreply & Hreason & Harea).
  unfold openDrawer, bind, completes.
  rewrite Hsent, Hreply, Hreason, Harea.
  destruct page as [[] [] [] []]; try done;
    cbn [element completes has_drawer_sent has_drawer_reply
         has_context_drawer has_context_drawer_overlay modify];
    try destruct (bool_decide _); cbn [modify];
    eexists; (split; [reflexivity|]);
    cbn [sentText replyContent borderColor backgroundColor translated hidden
         set_sent set_reply set_style set_translated set_hidden];
    rewrite ?or_else_placeholder; by repeat split.
Qed.

End ContextDrawerFacts.

(** ** The context controls *)

Section ControlsFacts.

Import JS Controls.

Variable page : Elements.

Local Abbreviation run := (Controls.run page).
Local Abbreviation handle := (Controls.handle page).

Lemma run_snoc (st : State) (events : list Event) (e : Event) :
  run st (events ++ [e]) = handle (run st events) e.
Proof. unfold Controls.run. by rewrite foldl_app. Qed.

Lemma handle_mirrored (st : State) (e : Event) :
  mirrored page st -> mirrored page (handle st e).
Proof.
  intros [Hs Hc]. unfold mirrored.
  destruct e as [| |value|context| | |value| |key|sl cl]; cbn [Controls.handle].
  - unfold toggleStreamerLock, updateLockButtonUI; cbn.
    split; [|done]. by intros ->.
  - unfold toggleContextLock, updateLockButtonUI; cbn.
    split; [done|]. by intros ->.
  - unfold input. by destruct (negb _).
  - unfold ai_context_suggestion.
    destruct context as [c|]; [|done].
    destruct (negb (truthy c)); [done|].
    destruct (negb (contextLocked st)); [|done].
    by destruct (has_contextInput page).
  - unfold aiUpdatedTimeout. by destruct (aiUpdatedTimers st).
  - unfold acceptAiSuggestion.
    destruct (negb _); [done|].
    destruct (pendingAiContext st) as [c|]; [|done].
    by destruct (negb (truthy c)).
  - unfold streamerChange. by destruct (has_streamerSelect page).
  - unfold contextSubmit. by destruct (_ && _).
  - unfold keypress. by destruct (_ && _).
  - unfold lockStates, updateLockButtonUI; cbn. split.
    + intros Hb. destruct sl as [b|]; cbn; [by rewrite Hb|by apply Hs].
    + intros Hb. destruct cl as [b|]; cbn; [by rewrite Hb|by apply Hc].
Qed.

(** X19.  The lock buttons show the locks: when each button that the page
    has shows its lock, it still does after any run of events, toggles and
    states of the director among them; and two toggles in a row leave the
    lock and its button as they were, with both changes sent to the
    server. *)
Theorem lock_buttons_show_the_locks :
  forall (events : list Event) (st : State),
    mirrored page st ->
    mirrored page (run st events)
    /\ streamerLocked (toggleStreamerLock page (toggleStreamerLock page st))
       = streamerLocked st
    /\ streamerLockBtn (toggleStreamerLock page (toggleStreamerLock page st))
       = streamerLockBtn st
    /\ emitted (toggleStreamerLock page (toggleStreamerLock page st))
       = emitted st ++ [Set_streamer_lock (negb (streamerLocked st));
                        Set_streamer_lock (streamerLocked st)].
Proof.
  intros events st Hst. split; [|split; [|split]].
  - induction events as [|e events IH] using rev_ind; [done|].
    rewrite run_snoc. by apply handle_mirrored.
  - cbn. apply negb_involutive.
  - destruct Hst as [Hs _]. unfold toggleStreamerLock, updateLockButtonUI.
    cbn. destruct (has_streamerLockBtn page); cbn; [|done].
    rewrite negb_involutive. symmetry. by apply Hs.
  - cbn. by rewrite negb_involutive, <- app_assoc.
Qed.

Lemma handle_counting (st : State) (e : Event) :
  has_contextCharCount page = true ->
  counting st -> counting (handle st e).
Proof.
  intros Hcount Hst. unfold counting in *.
  destruct e as [| |value|context| | |value| |key|sl cl];
    cbn [Controls.handle]; try done.
  - unfold input. destruct (negb _); [done|]. cbn. by rewrite Hcount.
  - unfold ai_context_suggestion.
    destruct context as [c|]; [|done].
    destruct (negb (truthy c)); [done|].
    destruct (negb (contextLocked st)); [|done].
    destruct (has_contextInput page); [|done]. cbn. by rewrite Hcount.
  - unfold aiUpdatedTimeout. by destruct (aiUpdatedTimers st).
  - unfold acceptAiSuggestion.
    destruct (negb _); [done|].
    destruct (pendingAiContext st) as [c|]; [|done].
    destruct (negb (truthy c)); [done|]. cbn. rewrite Hcount.
    by destruct (has_contextInput page).
  - unfold streamerChange. by destruct (has_streamerSelect page).
  - unfold contextSubmit. by destruct (_ && _).
  - unfold keypress. by destruct (_ && _).
Qed.


Lemma suggestions_kept (contexts : list (option string)) : forall st : State,
  contextLocked st = true ->
  let st' := run st (AiContextSuggestion <$> contexts) in
  contextLocked st' = true
  /\ inputValue st' = inputValue st
  /\ emitted st' = emitted st
  /\ pendingAiContext st'
     = match lastSuggestion contexts with
       | Some c => Some c
       | None => pendingAiContext st
       end.
Proof.
  induction contexts as [|context contexts IH] using rev_ind;
    intros st Hlock; [done|].
  cbn zeta. rewrite fmap_app.
  change (AiContextSuggestion <$> [context])
    with [AiContextSuggestion context].
  rewrite run_snoc.
  destruct (IH st Hlock) as (Hl & Hv & He & Hp).
  cbn [Controls.handle]. unfold ai_context_suggestion, lastSuggestion.
  rewrite omap_app, filter_app.
  destruct context as [c|]; [destruct (truthy c) eqn:Hc|].
  - change (omap id [Some c]) with [c].
    rewrite filter_cons_True, filter_nil, last_snoc by done.
    cbn. by rewrite Hl.
  - change (omap id [Some c]) with [c].
    rewrite filter_cons_False, filter_nil, app_nil_r by congruence.
    done.
  - change (omap id [@None string]) with (@nil string).
    rewrite filter_nil, app_nil_r. done.
Qed.


Lemma handle_indicating (st : State) (e : Event) :
  has_aiSuggestionIndicator page = true ->
  indicating st -> indicating (handle st e).
Proof.
  intros Hind Hst.
  destruct e as [| |value|context| | |value| |key|sl cl];
    cbn [Controls.handle]; try exact Hst.
  - unfold input. destruct (has_contextInput page); exact Hst.
  - unfold ai_context_suggestion.
    destruct context as [c|]; [|exact Hst].
    destruct (truthy c); [|exact Hst].
    destruct (contextLocked st); cbn [negb].
    + unfold indicating. cbn. by rewrite Hind.
    + destruct (has_contextInput page); exact Hst.
  - unfold aiUpdatedTimeout. destruct (aiUpdatedTimers st); exact Hst.
  - unfold acceptAiSuggestion.
    destruct (has_acceptAiSuggestionBtn page); [|exact Hst].
    cbn [negb].
    destruct (pendingAiContext st) as [c|] eqn:Hp; [|exact Hst].
    destruct (truthy c); [|exact Hst]. cbn [negb].
    unfold indicating. cbn. by rewrite Hind.
  - unfold streamerChange. destruct (has_streamerSelect page); exact Hst.
  - unfold contextSubmit. destruct (_ && _); exact Hst.
  - unfold keypress. destruct (_ && _); exact Hst.
Qed.


End ControlsFacts.

(** ** The two copies of the drawer controller *)

Section OlderDrawerFacts.

Import JS Drawer OlderDrawer.

Variable page : Page.
Variable toUpperCase : string -> string.
Variable querySelector : string -> list Button -> string + option nat.
Variable thrown : string -> string.

Implicit Types (st : State) (name : string) (w : gmap string Fn).

Local Arguments fetches : simpl never.

Local Abbreviation older :=
  (OlderDrawer.run page toUpperCase querySelector thrown).
Local Abbreviation olderStep :=
  (OlderDrawer.step page toUpperCase querySelector thrown).
Local Abbreviation newer := (Drawer.run page toUpperCase querySelector).
Local Abbreviation newerStep := (Drawer.step page toUpperCase querySelector).

Lemma stopCalls_throws w (fnNames : list string) :
  (exists fnName, fnName ∈ fnNames /\ w !! fnName = Some Throws) ->
  (stopCalls w fnNames).2 = true.
Proof.
  induction fnNames as [|f rest IH]; intros (fnName & Hin & Hw).
  - by apply elem_of_nil in Hin.
  - cbn [stopCalls]. apply elem_of_cons in Hin as [->|Hin].
    + by rewrite Hw.
    + destruct (w !! f) as [[]|]; [|done|].
      * destruct (stopCalls w rest) as [effects threw].
        cbn. apply IH. by exists fnName.
      * apply IH. by exists fnName.
Qed.

Lemma stopCalls_quiet w (fnNames : list string) :
  quiet w -> (stopCalls w fnNames).2 = false.
Proof.
  intros Hw. induction fnNames as [|f rest IH]; [done|].
  cbn [stopCalls]. destruct (w !! f) as [[]|] eqn:Hf; [|by apply Hw in Hf|done].
  by destruct (stopCalls w rest).
Qed.

Lemma fetches_stopCalls w (fnNames : list string) :
  fetches (stopCalls w fnNames).1 = [].
Proof.
  induction fnNames as [|f rest IH]; [done|].
  cbn [stopCalls]. destruct (w !! f) as [[]|]; [|done|done].
  by destruct (stopCalls w rest).
Qed.

Lemma fetches_app (l k : list Effect) :
  fetches (l ++ k) = fetches l ++ fetches k.
Proof. apply omap_app. Qed.

Lemma fetches_other (e : Effect) :
  match e with Fetch _ => False | _ => True end -> fetches [e] = [].
Proof. by destruct e. Qed.

Lemma closeDebugDrawer_wedged st st' :
  stopThrows (window st) ->
  wedged st st' -> wedged st (OlderDrawer.closeDebugDrawer page st').1.
Proof.
  intros Hthrows (Hw & Hpend & Hcur & Hbtns & Hcontent & Hopen & Hfetch).
  unfold OlderDrawer.closeDebugDrawer, OlderDrawer.stopAllDrawerRefreshes.
  cbn [window]. rewrite Hw.
  pose proof (stopCalls_throws (window st) stopFunctions Hthrows) as Hthrew.
  pose proof (fetches_stopCalls (window st) stopFunctions) as Hnone.
  destruct (stopCalls (window st) stopFunctions) as [effects threw].
  cbn in Hthrew, Hnone. subst threw. cbn.
  repeat split; try done.
  - cbn. by destruct (has_drawer page).
  - cbn. by rewrite fetches_app, Hnone, app_nil_r.
Qed.

Lemma step_wedged st st' (s : Step) :
  stopThrows (window st) ->
  keepsWindow s = true ->
  wedged st st' -> wedged st (olderStep st' s).
Proof.
  intros Hthrows Hs Hst.
  pose proof Hst as (Hw & Hpend & Hcur & Hbtns & Hcontent & Hopen & Hfetch).
  destruct s as [name|name r|name| | | |w]; cbn [OlderDrawer.step];
    try done.
  - unfold OlderDrawer.openDebugDrawer.
    destruct (negb _).
    { repeat split; try done. cbn.
      by rewrite fetches_app, fetches_other, app_nil_r. }
    destruct (bool_decide _); [by apply closeDebugDrawer_wedged|].
    unfold OlderDrawer.stopAllDrawerRefreshes. rewrite Hw.
    pose proof (stopCalls_throws (window st) stopFunctions Hthrows) as Hthrew.
    pose proof (fetches_stopCalls (window st) stopFunctions) as Hnone.
    destruct (stopCalls (window st) stopFunctions) as [effects threw].
    cbn in Hthrew, Hnone. subst threw.
    repeat split; try done. cbn.
    by rewrite fetches_app, Hnone, app_nil_r.
  - unfold OlderDrawer.fetchSettled. rewrite Hpend.
    rewrite bool_decide_eq_false_2; [done|]. apply not_elem_of_nil.
  - by apply closeDebugDrawer_wedged.
  - by apply closeDebugDrawer_wedged.
  - unfold OlderDrawer.escapeKey.
    destruct (currentDebugDrawer st') as [name|]; [|done].
    destruct (truthy name); [|done]. by apply closeDebugDrawer_wedged.
Qed.

(** X23.  In the older copy a stop function that throws wedges the
    controller: as long as no script redefines the functions, and with no
    load under way, whatever the user does the drawer that is current stays
    current, the buttons and the content stay as they are, the drawer does
    not open when it was not open, and no fragment is fetched. *)
Theorem older_controller_is_wedged_by_a_throwing_stop_function :
  forall (steps : list Step) (st : State),
    stopThrows (window st) ->
    pending st = [] ->
    forallb keepsWindow steps = true ->
    let st' := older st steps in
    currentDebugDrawer st' = currentDebugDrawer st
    /\ buttons st' = buttons st
    /\ contentHTML st' = contentHTML st
    /\ (drawerOpen st' = true -> drawerOpen st = true)
    /\ fetches (trace st') = fetches (trace st).
Proof.
  intros steps st Hthrows Hpend Hsteps.
  assert (wedged st (older st steps)) as (_ & _ & H).
  { induction steps as [|s steps IH] using rev_ind; [done|].
    rewrite forallb_app in Hsteps.
    apply andb_true_iff in Hsteps as [Hsteps Hs].
    cbn in Hs. rewrite andb_true_r in Hs.
    unfold OlderDrawer.run. rewrite foldl_app. cbn [foldl].
    apply step_wedged; [done|done|]. by apply IH. }
  exact H.
Qed.

(** X24.  The newer copy catches what a stop function throws: whatever
    the functions of [window] do, on a page with the drawer a call for a
    drawer that is not the current one fetches its fragment, and closing
    the drawer leaves no drawer current and no button marked. *)
Theorem newer_controller_survives_a_throwing_stop_function :
  forall (st : State) (name : string),
    has_drawer page && has_overlay page && has_content page = true ->
    currentDebugDrawer st ≠ Some name ->
    fetches (trace (Drawer.openDebugDrawer page name st))
    = fetches (trace st) ++ ["/static/drawers/" +:+ name +:+ ".html"]
    /\ pending (Drawer.openDebugDrawer page name st) = pending st ++ [name]
    /\ currentDebugDrawer (Drawer.closeDebugDrawer page st) = None
    /\ drawerOpen (Drawer.closeDebugDrawer page st) = false
    /\ Forall (λ b, active b = false)
              (buttons (Drawer.closeDebugDrawer page st)).
Proof.
  intros st name Hpage Hcur.
  assert (forall w, fetches (stopFunctions ≫= stopEffects w) = []) as Hnone.
  { intros w. unfold stopFunctions. cbn. unfold stopEffects.
    by destruct (w !! "stopThreadStatsRefresh") as [[]|],
               (w !! "stopPromptDebugRefresh") as [[]|],
               (w !! "stopRunTestsRefresh") as [[]|]. }
  unfold Drawer.openDebugDrawer. rewrite Hpage. cbn [negb].
  rewrite bool_decide_eq_false_2 by done.
  apply andb_true_iff in Hpage as [[Hd Ho]%andb_true_iff Hc].
  repeat split.
  - unfold Drawer.stopAllDrawerRefreshes, emit. cbn [trace window].
    by rewrite !fetches_app, Hnone, app_nil_r.
  - cbn. by rewrite Hd.
  - cbn. apply Forall_fmap, Forall_true. done.
Qed.

Lemma closeDebugDrawer_sameView st st' :
  sameView st st' -> quiet (window st) ->
  sameView (OlderDrawer.closeDebugDrawer page st).1
           (Drawer.closeDebugDrawer page st').
Proof.
  intros (Hcur & Hopen & Hov & Hcontent & Hbtns & Hwin & Hpend) Hquiet.
  unfold OlderDrawer.closeDebugDrawer, OlderDrawer.stopAllDrawerRefreshes.
  cbn [window].
  pose proof (stopCalls_quiet (window st) stopFunctions Hquiet) as Hthrew.
  destruct (stopCalls (window st) stopFunctions) as [effects threw].
  cbn in Hthrew. subst threw.
  repeat split; cbn; repeat case_match; congruence.
Qed.

Lemma step_sameView st st' (s : Step) :
  sameView st st' -> quiet (window st) -> quietStep s ->
  sameView (olderStep st s) (newerStep st' s)
  /\ quiet (window (olderStep st s)).
Proof.
  intros Hview Hquiet Hs.
  pose proof Hview as (Hcur & Hopen & Hov & Hcontent & Hbtns & Hwin & Hpend).
  pose proof (closeDebugDrawer_sameView st st' Hview Hquiet) as Hclose.
  assert (window (OlderDrawer.closeDebugDrawer page st).1 = window st)
    as Hclosed.
  { unfold OlderDrawer.closeDebugDrawer, OlderDrawer.stopAllDrawerRefreshes.
    cbn [window].
    destruct (stopCalls (window st) stopFunctions) as [effects []]; done. }
  destruct s as [name|name r|name| | | |w];
    cbn [OlderDrawer.step Drawer.step].
  - unfold OlderDrawer.openDebugDrawer, Drawer.openDebugDrawer.
    rewrite <- Hcur.
    destruct (negb _); [by repeat split; cbn; repeat case_match; congruence|].
    destruct (bool_decide _); [by rewrite Hclosed|].
    unfold OlderDrawer.stopAllDrawerRefreshes.
    pose proof (stopCalls_quiet (window st) stopFunctions Hquiet) as Hthrew.
    destruct (stopCalls (window st) stopFunctions) as [effects threw].
    cbn in Hthrew. subst threw.
    repeat split; cbn; repeat case_match; congruence.
  - unfold OlderDrawer.fetchSettled, Drawer.fetchSettled.
    rewrite <- Hpend.
    destruct (bool_decide _); [|done].
    destruct r as [html|status|message].
    + cbn [buttons emit]. rewrite <- Hbtns.
      destruct (querySelector _ _) as [message|activeBtn].
      * repeat split; cbn; repeat case_match; congruence.
      * cbn [window].
        destruct (window st !! refreshFnName toUpperCase name)
          as [[]|] eqn:Hfn; [| by apply Hquiet in Hfn |];
          repeat split; cbn; repeat case_match; congruence.
    + repeat split; cbn; repeat case_match; congruence.
    + repeat split; cbn; repeat case_match; congruence.
  - split; [|done]. unfold Drawer.refreshTimer.
    destruct (bool_decide _); [|done]. cbn [window].
    destruct (window st' !! refreshFnName toUpperCase name);
      repeat split; cbn; repeat case_match; congruence.
  - by rewrite Hclosed.
  - unfold OlderDrawer.overlayClick, Drawer.overlayClick.
    by rewrite Hclosed.
  - unfold OlderDrawer.escapeKey, Drawer.escapeKey. rewrite <- Hcur.
    destruct (currentDebugDrawer st) as [name|]; [|done].
    destruct (truthy name); [|done]. by rewrite Hclosed.
  - split; [|done]. repeat split; cbn; repeat case_match; congruence.
Qed.

(** X25.  The two copies differ only in what they do with errors and
    timers: as long as no function of [window] throws, a run of the same
    steps leaves the same drawer current in both, the drawer and its
    overlay open or closed alike, and the same content, buttons and loads
    under way. *)
Theorem copies_agree_while_nothing_throws :
  forall (steps : list Step) (st st' : State),
    sameView st st' ->
    quiet (window st) ->
    Forall quietStep steps ->
    sameView (older st steps) (newer st' steps).
Proof.
  intros steps st st' Hview Hquiet Hsteps.
  assert (sameView (older st steps) (newer st' steps)
          /\ quiet (window (older st steps))) as [H _]; [|exact H].
  induction steps as [|s steps IH] using rev_ind; [done|].
  apply Forall_app in Hsteps as [Hsteps Hs].
  rewrite Forall_singleton in Hs.
  destruct (IH Hsteps) as [Hv Hq].
  unfold OlderDrawer.run, Drawer.run. rewrite !foldl_app. cbn [foldl].
  by apply step_sameView.
Qed.

End OlderDrawerFacts.

(** ** The further statements at sample inputs *)

Section FurtherWitnesses.

Import JS DOM Markup Script Feed Samples Panels DrawerView MoreSamples.

Lemma absent_element_stays_absent_witness :
  getElementById
    (document (Script.run parseHTML exponential
                 (init false [element "div" "twitch-messages"])
                 [VisionContext "a";
                  Twitch {| username := "u"; message := "<b>m</b>" |};
                  Audio (final "s1" "a")]))
    "vision-context" = None
  /\ childNodesOf
       (document (Script.run parseHTML exponential
                    (init false [element "div" "twitch-messages"])
                    [VisionContext "a";
                     Twitch {| username := "u"; message := "<b>m</b>" |};
                     Audio (final "s1" "a")]))
       "vision-context" = None.
Proof.
  apply (absent_element_stays_absent parseHTML exponential
           [VisionContext "a";
            Twitch {| username := "u"; message := "<b>m</b>" |};
            Audio (final "s1" "a")]
           (init false [element "div" "twitch-messages"]) "vision-context").
  - intros s. discriminate.
  - reflexivity.
  - repeat constructor.
Defined.

Lemma events_for_a_missing_panel_are_lost_witness :
  visionLog (Script.run parseHTML exponential
               (init false [element "div" "twitch-messages"])
               [VisionContext "a"; Scored (scored 1)])
  = []
  /\ graphLog (Script.run parseHTML exponential
                 (init false [element "div" "twitch-messages"])
                 [VisionContext "a"; Scored (scored 1)])
     = ["1.00 - chat: hello..."].
Proof.
  destruct (events_for_a_missing_panel_are_lost parseHTML exponential
              [VisionContext "a"; Scored (scored 1)]
              (init false [element "div" "twitch-messages"]))
    as (Hvision & _ & Hgraph).
  - reflexivity.
  - repeat constructor.
  - simpl. lia.
  - split; [exact Hvision|]. rewrite Hgraph. reflexivity.
Defined.

Lemma panel_shows_the_log_after_an_event_witness :
  childNodesOf (document (vision_context "a" (init false page)))
               "vision-context"
  = Some (ambientDiv "" <$> visionLog (vision_context "a" (init false page)))
  /\ visionLog (vision_context "a" (init false page)) = ["a"].
Proof.
  destruct (panel_shows_the_log_after_an_event "a" (init false page))
    as (Hlog & Hshown & _).
  - exists [0%nat]. reflexivity.
  - split; [exact Hshown|]. rewrite Hlog. reflexivity.
Defined.

Lemma chart_shows_the_series_witness :
  last (chartFrames
          (Script.run parseHTML exponential (init true page)
             [InitializeChart; Scored (scored 1)]))
  = Some ([""], ["1.00"]).
Proof.
  destruct (chart_shows_the_series parseHTML exponential true page
              [InitializeChart; Scored (scored 1)]) as [_ Hlast].
  destruct Hlast as [Hnone|Hlast].
  - repeat constructor. by eexists.
  - discriminate Hnone.
  - rewrite Hlast. reflexivity.
Defined.

Lemma feeds_stay_within_capacity_witness :
  len (visionLog (Script.run parseHTML exponential (init false page)
                    [VisionContext "a"; Scored (scored 1);
                     Twitch {| username := "u"; message := "m" |}]))
  <= MAX_PANEL_LINES
  /\ forall c,
       childNodesOf
         (document (Script.run parseHTML exponential (init false page)
                      [VisionContext "a"; Scored (scored 1);
                       Twitch {| username := "u"; message := "m" |}]))
         "twitch-messages" = Some c ->
       childElementCount c <= MAX_LOG_LINES.
Proof.
  destruct (feeds_stay_within_capacity parseHTML exponential false page
              [VisionContext "a"; Scored (scored 1);
               Twitch {| username := "u"; message := "m" |}])
    as (Hvision & _ & _ & _ & Htwitch & _).
  - reflexivity.
  - repeat constructor.
  - split; [exact Hvision|exact Htwitch].
Defined.

Lemma streamed_session_is_one_entry_witness :
  exists c',
    childNodesOf (foldl (λ doc t, audio_document (partial "s1" t) doc)
                        page ["a"; "ab"; "abc"])
                 "audio-context" = Some c'
    /\ snapshot c' = [(Some "session-s1", "abc")].
Proof.
  destruct (streamed_session_is_one_entry "s1" "a" ["ab"; "abc"] page
              [2%nat] [] eq_refl eq_refl eq_refl eq_refl)
    as (c' & Hc' & Hsnap).
  exists c'. split; [exact Hc'|]. rewrite Hsnap. reflexivity.
Defined.


Lemma older_entry_point_drops_scores_without_chart_witness :
  scoreData (Legacy.run exponential (init false page)
               (Legacy.Scored <$> [scored 1]))
  = scoreData (init false page).
Proof.
  apply (older_entry_point_drops_scores_without_chart parseHTML exponential
           [scored 1] (init false page)).
  reflexivity.
Defined.

Lemma stored_scores_keep_the_order_witness :
  toFixed2 exponential (Finite (-1 # 8)) = "-0.13"
  /\ storedHundredths (-1 # 8) = -13
  /\ storedHundredths (-1 # 8) <= storedHundredths (1 # 3).
Proof.
  destruct (stored_scores_keep_the_order exponential (-1 # 8) (1 # 3))
    as [Hstored Hle].
  - reflexivity.
  - unfold Qle. simpl. lia.
  - split; [rewrite Hstored; reflexivity|]. split; [reflexivity|exact Hle].
Defined.

Lemma drawer_view_follows_the_state_witness :
  Drawer.drawerOpen
    (Drawer.run drawerPage toUpperCase querySelector
       (Drawer.init "" [ {| Drawer.data_drawer := Some "thread_stats";
                            Drawer.active := false |} ] stopThreadStats)
       threadStatsOpened)
  = bool_decide (is_Some
      (Drawer.currentDebugDrawer
         (Drawer.run drawerPage toUpperCase querySelector
            (Drawer.init "" [ {| Drawer.data_drawer := Some "thread_stats";
                                 Drawer.active := false |} ] stopThreadStats)
            threadStatsOpened))).
Proof.
  apply (drawer_view_follows_the_state drawerPage toUpperCase querySelector
           "" [ {| Drawer.data_drawer := Some "thread_stats";
                   Drawer.active := false |} ] stopThreadStats
           threadStatsOpened).
  repeat constructor.
Defined.

Lemma failed_load_keeps_the_current_drawer_witness :
  Drawer.currentDebugDrawer
    (Drawer.fetchSettled querySelector "prompt_debug" (Drawer.Status 404)
       (Drawer.openDebugDrawer drawerPage "prompt_debug"
          (Drawer.run drawerPage toUpperCase querySelector
             (Drawer.init "" [] stopThreadStats) threadStatsOpened)))
  = Some "thread_stats".
Proof.
  apply (failed_load_keeps_the_current_drawer drawerPage toUpperCase
           querySelector "" [] stopThreadStats threadStatsOpened
           "thread_stats" "prompt_debug" "Failed to load drawer: 404"
           (Drawer.Status 404)).
  - reflexivity.
  - discriminate.
  - reflexivity.
Defined.

Lemma last_settled_load_wins_witness :
  Drawer.currentDebugDrawer
    (Drawer.fetchSettled querySelector "thread_stats" (Drawer.Ok "<p>a</p>")
       (Drawer.fetchSettled querySelector "prompt_debug"
          (Drawer.Ok "<p>b</p>")
          (Drawer.openDebugDrawer drawerPage "prompt_debug"
             (Drawer.openDebugDrawer drawerPage "thread_stats"
                (Drawer.run drawerPage toUpperCase querySelector
                   (Drawer.init "" [] stopThreadStats) [])))))
  = Some "thread_stats".
Proof.
  apply (last_settled_load_wins drawerPage toUpperCase querySelector
           "" [] stopThreadStats [] "thread_stats" "prompt_debug"
           "<p>a</p>" "<p>b</p>").
  - reflexivity.
  - intros selector l. eexists. reflexivity.
  - discriminate.
  - discriminate.
  - discriminate.
Defined.

Lemma drawer_shows_what_the_reply_carried_witness :
  exists v' : ContextDrawer.View,
    ContextDrawer.openDrawer contextPage
      (ContextDrawer.replyLine censoredReply) closedView
    = (ContextDrawer.Normal tt, v')
    /\ ContextDrawer.sentText v' = "say it".
Proof.
  destruct (drawer_shows_what_the_reply_carried contextPage censoredReply
              closedView) as (_ & v' & Hopen & Hsent & _).
  - reflexivity.
  - exists v'. split; [exact Hopen|exact Hsent].
Defined.

Lemma malformed_line_leaves_the_drawer_untouched_witness :
  ContextDrawer.openDrawer contextPage malformedLine closedView
  = (ContextDrawer.Abrupt ContextDrawer.URIError, closedView).
Proof.
  apply (malformed_line_leaves_the_drawer_untouched contextPage
           malformedLine closedView).
  - vm_compute. constructor.
  - vm_compute. intros H.
    repeat (apply elem_of_cons in H as [H|H]; [discriminate|]).
    by apply elem_of_nil in H.
Defined.

Lemma drawer_needs_its_four_elements_witness :
  exists v' : ContextDrawer.View,
    ContextDrawer.openDrawer pageWithoutReply
      (ContextDrawer.replyLine censoredReply) closedView
    = (ContextDrawer.Abrupt ContextDrawer.TypeError, v')
    /\ ContextDrawer.hidden v' = ContextDrawer.hidden closedView.
Proof.
  destruct (drawer_needs_its_four_elements pageWithoutReply censoredReply
              closedView) as (v' & Hopen & Hhidden & _).
  - reflexivity.
  - exists v'. split; [exact Hopen|exact Hhidden].
Defined.

Lemma lock_buttons_show_the_locks_witness :
  Controls.mirrored controlsPage
    (Controls.run controlsPage (controls false)
       [Controls.ToggleStreamerLock; Controls.LockStates None (Some true)]).
Proof.
  apply (lock_buttons_show_the_locks controlsPage
           [Controls.ToggleStreamerLock; Controls.LockStates None (Some true)]
           (controls false)).
  split; intros _; reflexivity.
Defined.




Lemma older_controller_is_wedged_by_a_throwing_stop_function_witness :
  Drawer.currentDebugDrawer
    (OlderDrawer.run drawerPage toUpperCase querySelector thrown
       (Drawer.init "" [] throwingWindow)
       [Drawer.OpenDebugDrawer "thread_stats"; Drawer.CloseDebugDrawer])
  = Drawer.currentDebugDrawer (Drawer.init "" [] throwingWindow).
Proof.
  apply (older_controller_is_wedged_by_a_throwing_stop_function
           drawerPage toUpperCase querySelector thrown
           [Drawer.OpenDebugDrawer "thread_stats"; Drawer.CloseDebugDrawer]
           (Drawer.init "" [] throwingWindow)).
  - exists "stopThreadStatsRefresh". split; [constructor|reflexivity].
  - reflexivity.
  - reflexivity.
Defined.

Lemma newer_controller_survives_a_throwing_stop_function_witness :
  Drawer.pending
    (Drawer.openDebugDrawer drawerPage "thread_stats"
       (Drawer.init "" [] throwingWindow))
  = Drawer.pending (Drawer.init "" [] throwingWindow) ++ ["thread_stats"].
Proof.
  apply (newer_controller_survives_a_throwing_stop_function drawerPage
           (Drawer.init "" [] throwingWindow) "thread_stats").
  - reflexivity.
  - discriminate.
Defined.

Lemma copies_agree_while_nothing_throws_witness :
  OlderDrawer.sameView
    (OlderDrawer.run drawerPage toUpperCase querySelector thrown
       (Drawer.init "" [] ∅) threadStatsOpened)
    (Drawer.run drawerPage toUpperCase querySelector
       (Drawer.init "" [] ∅) threadStatsOpened).
Proof.
  apply (copies_agree_while_nothing_throws drawerPage toUpperCase
           querySelector thrown threadStatsOpened
           (Drawer.init "" [] ∅) (Drawer.init "" [] ∅)).
  - repeat split.
  - intros fnName. cbn. rewrite lookup_empty. discriminate.
  - repeat constructor.
Defined.

End FurtherWitnesses.
